(** * ServerlessModule: a shallow embedding of lib/ServerlessModule.js

    The module entity is a JavaScript object that lives in a heap, is
    merged into by [_.assign]/[_.extend], cloned by [_.cloneDeep] and
    persisted as JSON.  The embedding keeps that shape: values are
    primitives or references, objects are ordered property lists stored
    in a heap, every method is a computation in a state-and-exception
    monad over the heap, the file system and the console. The methods
    whose promise steps are chained one after the other run in that
    monad as they stand; [getPopulated], which leaves callbacks behind,
    runs on a model of the promise job queue. *)

From Stdlib Require Import ZArith Lia Ascii.
From stdpp Require Import base option list gmap strings pretty.

Set Warnings "-register-all".

(** ** JavaScript values and objects *)

Abbreviation loc := nat.

Inductive value :=
  | VUndef
  | VNull
  | VBool (b : bool)
  | VNum (n : Z)
  | VStr (s : string)
  | VRef (l : loc).

(** The class an object was built by: a plain object literal, an array
    literal, [new _S.classes.Function(...)] or [new ServerlessModule(...)]. *)
Inductive kind := KObject | KArray | KFunction | KModule.

(** Own enumerable properties, in insertion order. *)
Record object := Obj { okind : kind; oprops : list (string * value) }.

Abbreviation heap := (list object).

Global Instance value_eq_dec : EqDecision value.
Proof. solve_decision. Defined.
Global Instance kind_eq_dec : EqDecision kind.
Proof. solve_decision. Defined.
Global Instance object_eq_dec : EqDecision object.
Proof. solve_decision. Defined.

(** JavaScript truthiness, as used by [!x], [x || y] and [if (x)]. *)
Definition truthy (v : value) : bool :=
  match v with
  | VUndef | VNull => false
  | VBool b => b
  | VNum n => negb (n =? 0)%Z
  | VStr s => negb (String.eqb s EmptyString)
  | VRef _ => true
  end.

(** ** Property lists *)

Section props.
Context {A : Type}.

Fixpoint lookup_prop (k : string) (ps : list (string * A)) : option A :=
  match ps with
  | [] => None
  | (k', v) :: ps' => if String.eqb k k' then Some v else lookup_prop k ps'
  end.

(** [o[k] = v]: overwrite in place, or append a new property. *)
Fixpoint update_prop (k : string) (v : A) (ps : list (string * A))
  : list (string * A) :=
  match ps with
  | [] => [(k, v)]
  | (k', v') :: ps' =>
      if String.eqb k k' then (k, v) :: ps' else (k', v') :: update_prop k v ps'
  end.

(** [delete o[k]]. *)
Fixpoint delete_prop (k : string) (ps : list (string * A))
  : list (string * A) :=
  match ps with
  | [] => []
  | (k', v') :: ps' =>
      if String.eqb k k' then delete_prop k ps' else (k', v') :: delete_prop k ps'
  end.

Definition prop_keys (ps : list (string * A)) : list string := map fst ps.
End props.

(** ** Errors, results and the method monad *)

(** [SError] is the repository's ServerlessError; [TypeError] is the
    engine's; [FsError] carries the code of a failed file operation;
    [Uncovered] marks the one behaviour the embedding leaves out (cloning
    a cyclic object graph). *)
Inductive error :=
  | SError (msg : string)
  | TypeError (msg : string)
  | FsError (code : string)
  | Uncovered (what : string).

Inductive result (A : Type) :=
  | Ok (a : A)
  | Throw (e : error).
Arguments Ok {A} a.
Arguments Throw {A} e.

(** JSON documents, the contents of descriptor files. *)
Inductive json :=
  | JNull
  | JBool (b : bool)
  | JNum (n : Z)
  | JStr (s : string)
  | JArr (js : list json)
  | JObj (ps : list (string * json)).

(** A file holds the JSON document its text denotes; a directory lists
    its entries. *)
Inductive node :=
  | NFile (content : json)
  | NDir (entries : list string).

Record state := State {
    st_heap : heap;
    st_fs : gmap string node;
    st_console : list string
  }.

Definition set_heap (st : state) (h : heap) : state :=
  State h (st_fs st) (st_console st).
Definition set_fs (st : state) (f : gmap string node) : state :=
  State (st_heap st) f (st_console st).

(** A method body: it may mutate the state and then either return or
    throw; mutations made before a throw stay. For the promise-returning
    methods whose steps are chained one after the other ([load], [save],
    [_create], [getTemplates]) [Ok v] is the fulfilled promise and
    [Throw e] the rejected one. *)
Definition M (A : Type) : Type := state → state * result A.

Global Instance M_ret : MRet M := λ A a st, (st, Ok a).
Global Instance M_bind : MBind M := λ A B f m st,
  match m st with
  | (st', Ok a) => f a st'
  | (st', Throw e) => (st', Throw e)
  end.

Definition throw {A} (e : error) : M A := λ st, (st, Throw e).
Definition get_heap : M heap := λ st, (st, Ok (st_heap st)).
Definition put_heap (h : heap) : M unit := λ st, (set_heap st h, Ok tt).
Definition lift_result {A} (r : result A) : M A := λ st, (st, r).

(** ** Heap primitives *)

(** [new C] or an object or array literal. *)
Definition alloc (o : object) : M value := λ st,
  (set_heap st (st_heap st ++ [o]), Ok (VRef (length (st_heap st)))).

(** The index [i] of a string such that [k] is its decimal spelling. *)
Definition string_index (s : string) (k : string) : option nat :=
  find (λ i, bool_decide (pretty i = k)) (seq 0 (String.length s)).

(** [v[k]] or [v.k]. *)
Definition read_prop (h : heap) (v : value) (k : string) : result value :=
  match v with
  | VUndef | VNull => Throw (TypeError "Cannot read property of undefined or null")
  | VRef l =>
      match h !! l with
      | Some o => Ok (default VUndef (lookup_prop k (oprops o)))
      | None => Ok VUndef
      end
  | VStr s =>
      match string_index s k with
      | Some i => Ok (VStr (String.substring i 1 s))
      | None =>
          if String.eqb k "length" then Ok (VNum (Z.of_nat (String.length s)))
          else Ok VUndef
      end
  | VBool _ | VNum _ => Ok VUndef
  end.

Definition get_prop (v : value) (k : string) : M value := λ st,
  (st, read_prop (st_heap st) v k).

(** [v.k1.k2...]. *)
Fixpoint get_path (v : value) (ks : list string) : M value :=
  match ks with
  | [] => mret v
  | k :: ks' => x ← get_prop v k; get_path x ks'
  end.

Definition write_prop (h : heap) (v : value) (k : string) (x : value)
  : result heap :=
  match v with
  | VRef l =>
      match h !! l with
      | Some o => Ok (<[l := Obj (okind o) (update_prop k x (oprops o))]> h)
      | None => Ok h
      end
  | VUndef | VNull => Throw (TypeError "Cannot set property of undefined or null")
  | VBool _ | VNum _ | VStr _ =>
      (* the file is in strict mode *)
      Throw (TypeError "Cannot create property on a primitive")
  end.

(** [v[k] = x] or [v.k = x]. *)
Definition set_prop (v : value) (k : string) (x : value) : M unit := λ st,
  match write_prop (st_heap st) v k x with
  | Ok h' => (set_heap st h', Ok tt)
  | Throw e => (st, Throw e)
  end.

(** [delete v[k]]. *)
Definition del_prop (v : value) (k : string) : M unit := λ st,
  match v with
  | VRef l =>
      match st_heap st !! l with
      | Some o =>
          (set_heap st (<[l := Obj (okind o) (delete_prop k (oprops o))]> (st_heap st)),
           Ok tt)
      | None => (st, Ok tt)
      end
  | VUndef | VNull => (st, Throw (TypeError "Cannot convert undefined or null to object"))
  | _ => (st, Ok tt)
  end.

(** The keys [for (let prop in v)] runs over: none for [undefined],
    [null], numbers and booleans, the indices of a string, the own
    properties of an object in insertion order. *)
Definition for_in_keys (h : heap) (v : value) : list string :=
  match v with
  | VRef l =>
      match h !! l with
      | Some o => prop_keys (oprops o)
      | None => []
      end
  | VStr s => map pretty (seq 0 (String.length s))
  | _ => []
  end.

(** [v instanceof _S.classes.Function]. *)
Definition instanceof_Function (h : heap) (v : value) : bool :=
  match v with
  | VRef l =>
      match h !! l with
      | Some o => bool_decide (okind o = KFunction)
      | None => false
      end
  | _ => false
  end.

(** [for (... of ks) body], stopping at the first throw. *)
Fixpoint for_each {A} (ks : list A) (body : A → M unit) : M unit :=
  match ks with
  | [] => mret tt
  | k :: ks' => body k;; for_each ks' body
  end.

(** [_.assign(target, source)] and [_.extend(target, source)]: every own
    enumerable property of the source is assigned onto the target. *)
Definition assign_props (target source : value) : M value :=
  h ← get_heap;
  for_each (for_in_keys h source)
    (λ k, x ← get_prop source k; set_prop target k x);;
  mret target.

(** ** Paths *)

(** [path.join(...)] on segment names: every argument must be a string,
    empty segments are skipped, the rest is joined with a slash. The
    normalisation of dots and doubled slashes is left out. *)
Fixpoint join_segments (ss : list string) : string :=
  match ss with
  | [] => EmptyString
  | [s] => s
  | s :: ss' => s +:+ "/" +:+ join_segments ss'
  end.

Fixpoint string_args (vs : list value) : option (list string) :=
  match vs with
  | [] => Some []
  | VStr s :: vs' => ss ← string_args vs'; Some (s :: ss)
  | _ => None
  end.

Definition path_join (vs : list value) : M value :=
  match string_args vs with
  | Some ss => mret (VStr (join_segments (filter (λ s, s ≠ EmptyString) ss)))
  | None => throw (TypeError "Path must be a string")
  end.

Definition path_join_str (vs : list value) : M string :=
  v ← path_join vs;
  match v with VStr s => mret s | _ => mret EmptyString end.

(** Splits a path at its last slash into directory and entry name. *)
Fixpoint split_last (s : string) : option (string * string) :=
  match s with
  | EmptyString => None
  | String c r =>
      match split_last r with
      | Some (d, b) => Some (String c d, b)
      | None => if Ascii.eqb c "/"%char then Some (EmptyString, r) else None
      end
  end.

(** ['...' + v]: the string a value is converted to. *)
Definition js_to_string (v : value) : string :=
  match v with
  | VUndef => "undefined"
  | VNull => "null"
  | VBool true => "true"
  | VBool false => "false"
  | VNum n => pretty n
  | VStr s => s
  | VRef _ => "[object Object]"
  end.

(** ** Object graphs as trees *)

(** What is reachable from a value, read off the heap. *)
Inductive tree :=
  | TUndef
  | TNull
  | TBool (b : bool)
  | TNum (n : Z)
  | TStr (s : string)
  | TObj (k : kind) (ps : list (string * tree)).

Fixpoint snapshot (fuel : nat) (h : heap) (v : value) : option tree :=
  match v with
  | VUndef => Some TUndef
  | VNull => Some TNull
  | VBool b => Some (TBool b)
  | VNum n => Some (TNum n)
  | VStr s => Some (TStr s)
  | VRef l =>
      match fuel with
      | O => None
      | S n =>
          o ← h !! l;
          ps ← mapM (λ p : string * value, t ← snapshot n h p.2; Some (p.1, t))
                    (oprops o);
          Some (TObj (okind o) ps)
      end
  end.

(** Builds a tree in fresh objects, children before their parent. *)
Fixpoint alloc_tree (t : tree) (h : heap) : heap * value :=
  match t with
  | TUndef => (h, VUndef)
  | TNull => (h, VNull)
  | TBool b => (h, VBool b)
  | TNum n => (h, VNum n)
  | TStr s => (h, VStr s)
  | TObj k ps =>
      let '(h1, vs) :=
        (fix go (ps : list (string * tree)) (h : heap) :=
           match ps with
           | [] => (h, [])
           | (key, t') :: ps' =>
               let '(h1, v) := alloc_tree t' h in
               let '(h2, vs) := go ps' h1 in
               (h2, (key, v) :: vs)
           end) ps h in
      (h1 ++ [Obj k vs], VRef (length h1))
  end.

(** [_.cloneDeep(v)] of lodash: a structural copy in fresh objects.
    lodash keeps in the copy the sharing there is in the original and
    copies cyclic graphs; here an object shared by two properties is
    copied once per property, and a cyclic graph is left out
    ([Uncovered]). The document read off the copy is the same in both. *)
Definition cloneDeep (v : value) : M value := λ st,
  match snapshot (length (st_heap st)) (st_heap st) v with
  | Some t =>
      let '(h', v') := alloc_tree t (st_heap st) in (set_heap st h', Ok v')
  | None => (st, Throw (Uncovered "cloneDeep of a cyclic object graph"))
  end.

(** [JSON.stringify]: [undefined] properties are left out, [undefined]
    array elements become [null], class instances print as plain
    objects. [None] stands for the result [undefined]. *)
Fixpoint to_json (t : tree) : option json :=
  match t with
  | TUndef => None
  | TNull => Some JNull
  | TBool b => Some (JBool b)
  | TNum n => Some (JNum n)
  | TStr s => Some (JStr s)
  | TObj KArray ps =>
      Some (JArr (map (λ p : string * tree, default JNull (to_json p.2)) ps))
  | TObj _ ps =>
      Some (JObj (omap (λ p : string * tree, j ← to_json p.2; Some (p.1, j)) ps))
  end.

(** [JSON.parse]. *)
Fixpoint of_json (j : json) : tree :=
  match j with
  | JNull => TNull
  | JBool b => TBool b
  | JNum n => TNum n
  | JStr s => TStr s
  | JArr js =>
      TObj KArray
        ((fix go (i : nat) (js : list json) :=
            match js with
            | [] => []
            | j' :: js' => (pretty i, of_json j') :: go (S i) js'
            end) O js)
  | JObj ps => TObj KObject (map (λ p : string * json, (p.1, of_json p.2)) ps)
  end.

(** [JSON.stringify(v, null, 2)] of a heap value. *)
Definition JSON_stringify (v : value) : M json := λ st,
  match snapshot (length (st_heap st)) (st_heap st) v with
  | Some t =>
      match to_json t with
      | Some j => (st, Ok j)
      | None => (st, Throw (TypeError "data must be a string"))
      end
  | None => (st, Throw (TypeError "Converting circular structure to JSON"))
  end.

(** ** The file system and the console *)

(** [fs.mkdirSync(p)]. *)
Definition mkdirSync (p : value) : M unit := λ st,
  match p with
  | VStr p =>
      match st_fs st !! p with
      | Some _ => (st, Throw (FsError "EEXIST"))
      | None =>
          match split_last p with
          | Some (d, b) =>
              match st_fs st !! d with
              | Some (NDir es) =>
                  (set_fs st (<[p := NDir []]> (<[d := NDir (es ++ [b])]> (st_fs st))),
                   Ok tt)
              | Some (NFile _) => (st, Throw (FsError "ENOTDIR"))
              | None => (st, Throw (FsError "ENOENT"))
              end
          | None => (st, Throw (FsError "ENOENT"))
          end
      end
  | _ => (st, Throw (TypeError "path must be a string"))
  end.

(** [fs.readdirSync(p)]. *)
Definition readdirSync (p : value) : M (list string) := λ st,
  match p with
  | VStr p =>
      match st_fs st !! p with
      | Some (NDir es) => (st, Ok es)
      | Some (NFile _) => (st, Throw (FsError "ENOTDIR"))
      | None => (st, Throw (FsError "ENOENT"))
      end
  | _ => (st, Throw (TypeError "path must be a string"))
  end.

(** [console.log(s)]. *)
Definition console_log (s : string) : M unit := λ st,
  (State (st_heap st) (st_fs st) (st_console st ++ [s]), Ok tt).

(** [Object.keys(v)]. *)
Definition Object_keys (v : value) : M (list string) := λ st,
  match v with
  | VUndef | VNull =>
      (st, Throw (TypeError "Cannot convert undefined or null to object"))
  | _ => (st, Ok (for_in_keys (st_heap st) v))
  end.

(** ** Collaborators *)

(** Modelled from the spec: [SUtils.fileExistsSync] of lib/utils is not
    among the source files; the Document Store's [exists(path) -> bool]
    checks that a file is there. *)
Definition fileExistsSync (p : string) : M bool := λ st,
  (st, Ok match st_fs st !! p with Some (NFile _) => true | _ => false end).

(** Modelled from the spec: [SUtils.readAndParseJsonSync] of lib/utils is
    not among the source files; the Document Store's [readJson(path) ->
    object] reads and parses a JSON document synchronously. *)
Definition readAndParseJsonSync (p : string) : M value := λ st,
  match st_fs st !! p with
  | Some (NFile j) =>
      let '(h', v) := alloc_tree (of_json j) (st_heap st) in (set_heap st h', Ok v)
  | Some (NDir _) => (st, Throw (FsError "EISDIR"))
  | None => (st, Throw (FsError "ENOENT"))
  end.

(** Modelled from the spec: [SUtils.writeFile] of lib/utils is not among
    the source files; the Document Store's [writeFile(path, text) ->
    async unit] writes a document. An existing file is overwritten; a new
    one is entered in its directory, which has to exist. *)
Definition writeFile (p : string) (j : json) : M unit := λ st,
  match st_fs st !! p with
  | Some (NFile _) => (set_fs st (<[p := NFile j]> (st_fs st)), Ok tt)
  | Some (NDir _) => (st, Throw (FsError "EISDIR"))
  | None =>
      match split_last p with
      | Some (d, b) =>
          match st_fs st !! d with
          | Some (NDir es) =>
              (set_fs st (<[p := NFile j]> (<[d := NDir (es ++ [b])]> (st_fs st))),
               Ok tt)
          | Some (NFile _) => (st, Throw (FsError "ENOTDIR"))
          | None => (st, Throw (FsError "ENOENT"))
          end
      | None => (st, Throw (FsError "ENOENT"))
      end
  end.

(** Modelled from the spec: [SUtils.exportClassData] of lib/utils is not
    among the source files; it strips the internal-only fields (the
    context reference [_S] and the derived paths [_config]) from the
    document it is given and returns that document. *)
Definition exportClassData (data : value) : M value :=
  del_prop data "_S";;
  del_prop data "_config";;
  mret data.

(** The rest of lib/utils is taken as it comes: the Path Resolver
    ([buildSPath] of a component and a module name, [parseSPath] back
    into the two names), the identifier generator and the Populator,
    [populate S data stage region], which computes the resolved copy the
    promise it returns is fulfilled with. *)
Class SUtils := {
    buildSPath : value → value → string;
    parseSPath : value → string * string;
    generateShortId : nat → string;
    populate : value → value → value → value → M value
  }.

(** [_S.classes.Function], the class of the children. lib/ServerlessFunction
    is not among the source files, so its constructor and lifecycle
    methods are the operations of an interface. [F_new S c m f] is
    [new _S.classes.Function(S, {component: c, module: m, function: f})]. *)
Class FunctionClass := {
    F_new : value → value → value → value → M value;
    F_load : value → M value;
    F_set : value → value → M value;
    F_get : value → M value;
    F_getPopulated : value → value → M value;
    F_save : value → M value
  }.

(** [child.method(...)] on a value found in a [functions] map: only an
    instance of the Function class carries the lifecycle methods. *)
Definition invoke {A} (method : value → M A) (child : value) : M A :=
  h ← get_heap;
  if instanceof_Function h child then method child
  else throw (TypeError "is not a function").

(** ** The ServerlessModule class *)

Section ServerlessModule.
Context (package_version : string) `{SUtils} `{FunctionClass}.

Definition msg_missing_config : string :=
  "Missing required config.component or config.module".
Definition msg_load_no_project : string :=
  "Module could not be loaded because no project path has been set on Serverless instance".
Definition msg_load_not_found : string :=
  "Module could not be loaded because it does not exist in your project: ".
Definition msg_set_instance : string :=
  "You cannot pass subclasses into the set method, only object literals".
Definition msg_stage_region : string :=
  "Both " +:+ String "034"%char "stage" +:+ String "034"%char " and "
  +:+ String "034"%char "region" +:+ String "034"%char " params are required".
Definition msg_populate_no_project : string :=
  "Module could not be populated because no project path has been set on Serverless instance".
Definition msg_save_no_project : string :=
  "Module could not be saved because no project path has been set on Serverless instance".

(** updateConfig(config) *)
Definition updateConfig (this config : value) : M unit :=
  if negb (truthy config) then mret tt else
  c ← get_prop config "component";
  m ← get_prop config "module";
  (if truthy c || truthy m then
     cfg ← get_prop this "_config";
     set_prop cfg "component" c;;
     set_prop cfg "module" m;;
     set_prop cfg "sPath" (VStr (buildSPath c m))
   else mret tt);;
  pp ← get_path this ["_S"; "config"; "projectPath"];
  sp ← get_path this ["_config"; "sPath"];
  if truthy pp && truthy sp then
    let parse := parseSPath sp in
    fp ← path_join [pp; VStr parse.1; VStr parse.2];
    cfg ← get_prop this "_config";
    set_prop cfg "fullPath" fp
  else mret tt.

(** constructor(Serverless, config) *)
Definition constructor (Serverless config : value) : M value :=
  this ← alloc (Obj KModule []);
  c ← get_prop config "component";
  m ← get_prop config "module";
  if negb (truthy c) || negb (truthy m) then throw (SError msg_missing_config) else
  set_prop this "_S" Serverless;;
  cfg ← alloc (Obj KObject []);
  set_prop this "_config" cfg;;
  updateConfig this config;;
  cm ← get_path this ["_config"; "module"];
  set_prop this "name"
    (if truthy cm then cm else VStr ("module" +:+ generateShortId 6));;
  set_prop this "version" (VStr "0.0.1");;
  set_prop this "profile" (VStr ("aws-v" +:+ package_version));;
  set_prop this "location" (VStr "https://github.com/...");;
  set_prop this "author" (VStr EmptyString);;
  set_prop this "description" (VStr "A Serverless Module");;
  set_prop this "runtime" (VStr "nodejs");;
  custom ← alloc (Obj KObject []);
  set_prop this "custom" custom;;
  functions ← alloc (Obj KObject []);
  set_prop this "functions" functions;;
  resources ← alloc (Obj KObject []);
  statements ← alloc (Obj KArray []);
  cf ← alloc (Obj KObject [("resources", resources);
                           ("lambdaIamPolicyDocumentStatements", statements)]);
  set_prop this "cloudFormation" cf;;
  mret this.

(** The body of [.each(function(f, i) {...})] in [load]. *)
Definition load_child (this moduleJson fp : value) (f : string) : M unit :=
  q ← path_join_str [fp; VStr f; VStr "s-function.json"];
  ex ← fileExistsSync q;
  if negb ex then mret tt else
  S ← get_prop this "_S";
  c ← get_path this ["_config"; "component"];
  m ← get_path this ["_config"; "module"];
  func ← F_new S c m (VStr f);
  instance ← F_load func;
  fns ← get_prop moduleJson "functions";
  set_prop fns f instance.

(** load() *)
Definition load (this : value) : M value :=
  pp ← get_path this ["_S"; "config"; "projectPath"];
  if negb (truthy pp) then throw (SError msg_load_no_project) else
  fp ← get_path this ["_config"; "fullPath"];
  p ← path_join_str [fp; VStr "s-module.json"];
  ex ← fileExistsSync p;
  if negb ex then
    sp ← get_path this ["_config"; "sPath"];
    throw (SError (msg_load_not_found +:+ js_to_string sp))
  else
  moduleJson ← readAndParseJsonSync p;
  empty ← alloc (Obj KObject []);
  set_prop moduleJson "functions" empty;;
  moduleContents ← readdirSync fp;
  for_each moduleContents (load_child this moduleJson fp);;
  assign_props this moduleJson.

(** The body of [for (let prop in data.functions)] in [set]. *)
Definition set_child (this data : value) (prop : string) : M unit :=
  x ← get_path data ["functions"; prop];
  h ← get_heap;
  if instanceof_Function h x then throw (SError msg_set_instance) else
  S ← get_prop this "_S";
  c ← get_path this ["_config"; "component"];
  m ← get_path this ["_config"; "module"];
  instance ← F_new S c m (VStr prop);
  target ← get_prop data "functions";
  literal ← get_path data ["functions"; prop];
  r ← F_set instance literal;
  set_prop target prop r.

(** set(data) *)
Definition set (this data : value) : M value :=
  fns ← get_prop data "functions";
  h ← get_heap;
  for_each (for_in_keys h fns) (set_child this data);;
  assign_props this data.

(** The body of [for (let prop in this.functions)] in [get]. *)
Definition get_child (this clone : value) (prop : string) : M unit :=
  target ← get_prop clone "functions";
  child ← get_path this ["functions"; prop];
  d ← invoke F_get child;
  set_prop target prop d.

(** get() *)
Definition get (this : value) : M value :=
  clone ← cloneDeep this;
  fns ← get_prop this "functions";
  h ← get_heap;
  for_each (for_in_keys h fns) (get_child this clone);;
  exportClassData clone.

(** getTemplates() *)
Definition getTemplates (this : value) : M value :=
  fp ← get_path this ["_config"; "fullPath"];
  p ← path_join_str [fp; VStr "s-templates.json"];
  ex ← fileExistsSync p;
  if negb ex then alloc (Obj KObject []) else readAndParseJsonSync p.

(** _create() *)
Definition _create (this : value) : M unit :=
  fp ← get_path this ["_config"; "fullPath"];
  mkdirSync fp;;
  p ← path_join_str [fp; VStr "s-templates.json"];
  writeFile p (JObj []).

(** The first step of [save]: validation and scaffolding. *)
Definition save_scaffold (this : value) : M unit :=
  pp ← get_path this ["_S"; "config"; "projectPath"];
  if negb (truthy pp) then throw (SError msg_save_no_project) else
  fp ← get_path this ["_config"; "fullPath"];
  p ← path_join_str [fp; VStr "s-module.json"];
  ex ← fileExistsSync p;
  if negb ex then _create this else mret tt.

(** The second step of [save]: the nested functions, one after the
    other. *)
Definition save_nested (this options : value) : M unit :=
  deep ← (if truthy options then get_prop options "deep" else mret options);
  if truthy deep then
    fns ← get_prop this "functions";
    keys ← Object_keys fns;
    for_each keys (λ f,
      child ← get_path this ["functions"; f];
      invoke F_save child;;
      mret tt)
  else mret tt.

(** The third step of [save]: the module's own document. *)
Definition save_write (this : value) : M unit :=
  clone ← get this;
  cf ← get_prop clone "functions";
  (if truthy cf then del_prop clone "functions" else mret tt);;
  fp ← get_path this ["_config"; "fullPath"];
  p ← path_join_str [fp; VStr "s-module.json"];
  text ← JSON_stringify clone;
  writeFile p text.

(** save(options) *)
Definition save (this options : value) : M value :=
  save_scaffold this;;
  save_nested this options;;
  save_write this;;
  console_log "created module";;
  mret this.

End ServerlessModule.

(** * Vocabulary of the properties *)

(** A reference that points into the heap. *)
Definition valid (h : heap) (v : value) : Prop :=
  match v with VRef l => l < length h | _ => True end.

Global Instance valid_dec h v : Decision (valid h v).
Proof. destruct v; simpl; apply _. Defined.

(** [v.k1.k2...] read off a heap. *)
Fixpoint read_path (h : heap) (v : value) (ks : list string) : result value :=
  match ks with
  | [] => Ok v
  | k :: ks' =>
      match read_prop h v k with
      | Ok x => read_path h x ks'
      | Throw e => Throw e
      end
  end.

(** ** The project context *)

(** The Serverless instance [S] carries a [config] whose [projectPath]
    reads [pp]; a project root that is set is a string. *)
Definition context_at (h : heap) (S pp : value) : Prop :=
  valid h S ∧
  ∃ cfg, read_prop h S "config" = Ok cfg ∧ valid h cfg ∧
         read_prop h cfg "projectPath" = Ok pp ∧
         (truthy pp = true → ∃ s, pp = VStr s).

Section constructed.
Context (package_version : string) `{SUtils}.

(** The [_config] object of an entity with identity [c]/[m] under the
    project root [pp]. *)
Definition config_props (c m pp : value) : list (string * value) :=
  [("component", c); ("module", m); ("sPath", VStr (buildSPath c m))] ++
  match pp with
  | VStr root =>
      if truthy pp && truthy (VStr (buildSPath c m)) then
        let parse := parseSPath (VStr (buildSPath c m)) in
        [("fullPath",
          VStr (join_segments
                  (filter (λ s, s ≠ EmptyString) [root; parse.1; parse.2])))]
      else []
  | _ => []
  end.

(** The properties a new entity at location [n] is given. *)
Definition default_props (S m : value) (n : nat) : list (string * value) :=
  [("_S", S); ("_config", VRef (n + 1)); ("name", m);
   ("version", VStr "0.0.1");
   ("profile", VStr ("aws-v" +:+ package_version));
   ("location", VStr "https://github.com/...");
   ("author", VStr EmptyString);
   ("description", VStr "A Serverless Module");
   ("runtime", VStr "nodejs");
   ("custom", VRef (n + 2));
   ("functions", VRef (n + 3));
   ("cloudFormation", VRef (n + 6))].

(** The objects a successful construction adds to a heap of size [n]. *)
Definition constructed (S c m pp : value) (n : nat) : list object :=
  [Obj KModule (default_props S m n);
   Obj KObject (config_props c m pp);
   Obj KObject [];
   Obj KObject [];
   Obj KObject [];
   Obj KArray [];
   Obj KObject [("resources", VRef (n + 4));
                ("lambdaIamPolicyDocumentStatements", VRef (n + 5))]].
End constructed.


(** ** Sample collaborators

    An inhabitant of each interface, to run the methods on concrete
    inputs: a Path Resolver that joins and splits at a slash, a constant
    identifier generator, a Populator that resolves nothing, and a leaf
    Function class with the lifecycle shape of the module class. *)
Module Sample.

Fixpoint split_first (s : string) : string * string :=
  match s with
  | EmptyString => (EmptyString, EmptyString)
  | String c r =>
      if Ascii.eqb c "/"%char then (EmptyString, r)
      else let '(a, b) := split_first r in (String c a, b)
  end.

Global Instance sutils : SUtils := {|
  buildSPath c m := js_to_string c +:+ "/" +:+ js_to_string m;
  parseSPath sp := split_first (js_to_string sp);
  generateShortId _ := "a1b2c3";
  populate _ data _ _ := cloneDeep data
  |}.

Definition msg_function_config : string :=
  "Missing required config.component, config.module or config.function".

Definition function_new (S c m f : value) : M value :=
  this ← alloc (Obj KFunction []);
  if negb (truthy c) || negb (truthy m) || negb (truthy f)
  then throw (SError msg_function_config) else
  set_prop this "_S" S;;
  cfg ← alloc (Obj KObject [("component", c); ("module", m); ("function", f)]);
  set_prop this "_config" cfg;;
  set_prop this "name" f;;
  mret this.

(** The directory of a function: that of its module, then its name. *)
Definition function_path (this : value) : M value :=
  pp ← get_path this ["_S"; "config"; "projectPath"];
  c ← get_path this ["_config"; "component"];
  m ← get_path this ["_config"; "module"];
  f ← get_path this ["_config"; "function"];
  let parse := parseSPath (VStr (buildSPath c m)) in
  path_join [pp; VStr parse.1; VStr parse.2; f].

Definition function_load (this : value) : M value :=
  fp ← function_path this;
  p ← path_join_str [fp; VStr "s-function.json"];
  functionJson ← readAndParseJsonSync p;
  assign_props this functionJson.

Definition function_set (this data : value) : M value :=
  assign_props this data.

Definition function_get (this : value) : M value :=
  clone ← cloneDeep this;
  exportClassData clone.

(** The document [function_get] returns, read off the snapshot. *)
Definition function_get_tree (t : tree) : tree :=
  match t with
  | TObj k ps => TObj k (delete_prop "_config" (delete_prop "_S" ps))
  | _ => t
  end.

Definition function_getPopulated (this options : value) : M value :=
  clone ← cloneDeep this;
  exportClassData clone.

Definition function_save (this : value) : M value :=
  fp ← function_path this;
  p ← path_join_str [fp; VStr "s-function.json"];
  ex ← fileExistsSync p;
  (if negb ex then mkdirSync fp else mret tt);;
  clone ← function_get this;
  text ← JSON_stringify clone;
  writeFile p text;;
  mret this.

Global Instance function_class : FunctionClass := {|
  F_new := function_new;
  F_load := function_load;
  F_set := function_set;
  F_get := function_get;
  F_getPopulated := function_getPopulated;
  F_save := function_save
  |}.

(** A project: the Serverless instance at location 0, rooted at
    [/proj], its config at location 1. *)
Definition project_heap : heap :=
  [Obj KObject [("config", VRef 1)];
   Obj KObject [("projectPath", VStr "/proj")]].

Definition project_fs : gmap string node :=
  {[ "/proj" := NDir ["users"]; "/proj/users" := NDir [] ]}.

Definition start (extra : list object) : state :=
  State (project_heap ++ extra) project_fs [].

Definition version : string := "0.1.0".

(** Config literals, placed at location 2 by [start]. *)
Definition config_component_only : list object :=
  [Obj KObject [("component", VStr "users")]].
Definition config_both : list object :=
  [Obj KObject [("component", VStr "users"); ("module", VStr "profile")]].
End Sample.

(** ** Descriptor files *)

(** [path.join(fullPath, 's-module.json')]. *)
Definition descriptor_path (fp : string) : string :=
  join_segments (filter (λ s, s ≠ EmptyString) [fp; "s-module.json"]).

(** [path.join(fullPath, f, 's-function.json')]. *)
Definition function_descriptor_path (fp f : string) : string :=
  join_segments (filter (λ s, s ≠ EmptyString) [fp; f; "s-function.json"]).

Definition is_file (fs : gmap string node) (p : string) : bool :=
  match fs !! p with Some (NFile _) => true | _ => false end.

(** ** Module entities and literal documents *)

(** The entity at [tl] has the context [S] and, in its [_config] object
    at [cl], the identity [c]/[m]. *)
Definition identity_at (h : heap) (tl cl : loc) (S c m : value) : Prop :=
  read_prop h (VRef tl) "_S" = Ok S
  ∧ read_prop h (VRef tl) "_config" = Ok (VRef cl)
  ∧ tl < length h ∧ cl < length h
  ∧ read_prop h (VRef cl) "component" = Ok c
  ∧ read_prop h (VRef cl) "module" = Ok m
  ∧ truthy c = true ∧ truthy m = true.

(** The document at [dl] has its [functions] map in the object [fobj] at
    [fl]: an object of its own, with one entry per function name. *)
Definition functions_at (h : heap) (tl cl dl fl : loc) (fobj : object) : Prop :=
  read_prop h (VRef dl) "functions" = Ok (VRef fl)
  ∧ h !! fl = Some fobj
  ∧ dl < length h
  ∧ fl ≠ tl ∧ fl ≠ cl ∧ fl ≠ dl
  ∧ NoDup (prop_keys (oprops fobj))
  ∧ Forall (λ p, p.1 ≠ EmptyString ∧ valid h p.2) (oprops fobj).

(** [v] is an instance of the Function class that did not exist in a
    heap of size [n]. *)
Definition new_instance (n : nat) (h : heap) (v : value) : Prop :=
  ∃ l, v = VRef l ∧ n ≤ l ∧ instanceof_Function h v = true.

(** The value stored for the name [k] is what [set] of a newly
    constructed child returned on the literal [x]. *)
Definition materialised `{FunctionClass} (S c m : value) (k : string)
    (x v' : value) : Prop :=
  ∃ sa sb sc inst,
    F_new S c m (VStr k) sa = (sb, Ok inst) ∧ F_set inst x sb = (sc, Ok v').

(** The heap [hi] reached from [h0] once the loop of [set] has processed
    the names [done] of the map [fobj] at [fl]: the map holds a new
    instance under every processed name and the literal under every
    other one; no other object that was there has changed. *)
Definition set_inv `{FunctionClass} (h0 : heap) (fl : loc) (S c m : value)
    (fobj : object) (done : list string) (hi : heap) : Prop :=
  length h0 ≤ length hi
  ∧ (∀ l, l < length h0 → l ≠ fl → hi !! l = h0 !! l)
  ∧ ∃ psi,
      hi !! fl = Some (Obj (okind fobj) psi)
      ∧ prop_keys psi = prop_keys (oprops fobj)
      ∧ (∀ k, k ∉ done → lookup_prop k psi = lookup_prop k (oprops fobj))
      ∧ (∀ k, k ∈ done →
           ∃ x v', lookup_prop k (oprops fobj) = Some x
                   ∧ lookup_prop k psi = Some v'
                   ∧ new_instance (length h0) hi v'
                   ∧ materialised S c m k x v').

(** ** Trees, segments and reachability *)

Fixpoint tree_depth (t : tree) : nat :=
  match t with
  | TObj _ ps => S (foldr (λ p d, Nat.max (tree_depth p.2) d) O ps)
  | _ => O
  end.

(** The property loop of [alloc_tree], on its own. *)
Fixpoint alloc_props (ps : list (string * tree)) (h : heap)
  : heap * list (string * value) :=
  match ps with
  | [] => (h, [])
  | (key, t) :: ps' =>
      let '(h1, v) := alloc_tree t h in
      let '(h2, vs) := alloc_props ps' h1 in
      (h2, (key, v) :: vs)
  end.

(** A reference into the locations from [a] up to [b]. *)
Definition within (a b : nat) (v : value) : Prop :=
  match v with VRef l => a ≤ l < b | _ => True end.

(** The objects [L], placed from location [n] on, refer to one another
    only. *)
Definition self_contained (n : nat) (L : list object) : Prop :=
  Forall (λ o, Forall (λ p, within n (n + length L) p.2) (oprops o)) L.

(** The first [n] objects of the heap refer to one another only. *)
Definition closed_below (n : nat) (h : heap) : Prop :=
  ∀ l o, l < n → h !! l = Some o → Forall (λ p, within 0 n p.2) (oprops o).


(** The snapshot [t] of [v] is made of the locations from [a] up to [b]
    alone: it is read off any heap that has the same objects there. *)
Definition placed (a b : nat) (t : tree) (v : value) (h : heap) : Prop :=
  within a b v
  ∧ ∀ h', (∀ l, a ≤ l < b → h' !! l = h !! l) →
          snapshot (tree_depth t) h' v = Some t.

(** The values [vs] are the roots of the trees [ps], laid out one after
    the other from [a] up to [b]. *)
Inductive laid_out (h : heap) : nat → nat → list (string * tree) →
    list (string * value) → Prop :=
  | laid_nil a : laid_out h a a [] []
  | laid_cons a a' b k t v ps vs :
      a ≤ a' → placed a a' t v h → laid_out h a' b ps vs →
      laid_out h a b ((k, t) :: ps) ((k, v) :: vs).

(** ** What the module class relies on from the Function class

    The constructor succeeds on an identity of three names and builds a
    new instance without touching what is there; [set] merges into the
    instance alone and returns it; [get] is a projection [F_get_spec] of
    the snapshot of the instance, delivered in new objects that refer to
    one another only. *)
Class FunctionLaws `{FunctionClass} := {
    F_new_spec : ∀ st S c m f,
      truthy c = true → truthy m = true → truthy f = true →
      ∃ L l,
        F_new S c m f st = (set_heap st (st_heap st ++ L), Ok (VRef l))
        ∧ length (st_heap st) ≤ l
        ∧ instanceof_Function (st_heap st ++ L) (VRef l) = true;
    F_set_spec : ∀ st l x,
      instanceof_Function (st_heap st) (VRef l) = true →
      ∃ h',
        F_set (VRef l) x st = (set_heap st h', Ok (VRef l))
        ∧ length (st_heap st) ≤ length h'
        ∧ (∀ l', l' ≠ l → l' < length (st_heap st) → h' !! l' = st_heap st !! l')
        ∧ instanceof_Function h' (VRef l) = true;
    F_get_spec : tree → tree;
    F_get_ok : ∀ st child t,
      instanceof_Function (st_heap st) child = true →
      snapshot (length (st_heap st)) (st_heap st) child = Some t →
      ∃ L d,
        F_get child st = (set_heap st (st_heap st ++ L), Ok d)
        ∧ self_contained (length (st_heap st)) L
        ∧ within (length (st_heap st)) (length (st_heap st) + length L) d
        ∧ snapshot (length L) (st_heap st ++ L) d = Some (F_get_spec t)
  }.

(** ** The document [get] returns, read off the snapshot of the entity *)

Section get_tree.
Context `{FunctionLaws}.

(** The [functions] map with every child replaced by its own [get]. *)
Definition get_functions (ps : list (string * tree)) : list (string * tree) :=
  match lookup_prop "functions" ps with
  | Some (TObj kf fps) =>
      update_prop "functions"
        (TObj kf (map (λ p : string * tree, (p.1, F_get_spec p.2)) fps)) ps
  | _ => ps
  end.

Definition get_tree (t : tree) : tree :=
  match t with
  | TObj k ps =>
      TObj k (delete_prop "_config" (delete_prop "_S" (get_functions ps)))
  | _ => t
  end.
End get_tree.

(** The entity at [tl] lives in the first [n] objects of the heap, which
    refer to one another only; its [functions] map is the object [fobj]
    at [fl], which holds a Function instance under every name. *)
Definition module_at (n : nat) (h : heap) (tl fl : loc) (fobj : object) : Prop :=
  n ≤ length h ∧ tl < n
  ∧ closed_below n h
  ∧ read_prop h (VRef tl) "functions" = Ok (VRef fl)
  ∧ h !! fl = Some fobj
  ∧ NoDup (prop_keys (oprops fobj))
  ∧ Forall (λ p, instanceof_Function h p.2 = true) (oprops fobj).

(** The property values [vs] have the snapshots [ps], key by key. *)
Definition snap_props (f : nat) (h : heap) (vs : list (string * value))
    (ps : list (string * tree)) : Prop :=
  Forall2 (λ p q, p.1 = q.1 ∧ snapshot f h p.2 = Some q.2) vs ps.

(** The heap [hi] reached once the loop of [get] has processed the names
    [done]: [h] is the heap before the call, [h1] the heap after the
    clone was made (at [c1], its [functions] copy at [fl']); the copy's
    map holds the child's own [get] under every processed name, in new
    objects that come after the clone and refer to one another only. *)
Definition get_inv `{FunctionLaws} (h h1 : heap) (c1 fl' : loc) (kf : kind)
    (keys : list string) (fps : list (string * tree))
    (done : list string) (hi : heap) : Prop :=
  length h1 ≤ length hi
  ∧ (∀ l, l < length h1 → l ≠ fl' → hi !! l = h1 !! l)
  ∧ (∀ l o, length h1 ≤ l → hi !! l = Some o →
            Forall (λ p, within (length h1) (length hi) p.2) (oprops o))
  ∧ ∃ psi,
      hi !! fl' = Some (Obj kf psi)
      ∧ prop_keys psi = keys
      ∧ Forall (λ p, within (length h) (length hi) p.2) psi
      ∧ ∀ k, k ∈ done →
          ∃ d tk, lookup_prop k psi = Some d
                  ∧ lookup_prop k fps = Some tk
                  ∧ within (length h1) (length hi) d
                  ∧ snapshot (length hi - length h1) hi d = Some (F_get_spec tk).

Global Instance within_dec a b v : Decision (within a b v).
Proof. destruct v; simpl; apply _. Defined.

(** ** Sample states *)
Module SampleStates.
Import Sample.

(** The entity users/profile, constructed in the sample project: the
    entity is at location 3, its [_config] at 4, its [functions] at 6. *)
Definition entity_heap : heap :=
  Eval vm_compute in
  st_heap (constructor version (VRef 0) (VRef 2) (start config_both)).1.

(** A literal document at location 10, with two functions. *)
Definition literal : list object :=
  [Obj KObject [("description", VStr "Profiles"); ("functions", VRef 11)];
   Obj KObject [("create", VRef 12); ("list", VRef 13)];
   Obj KObject [("handler", VStr "create.handler")];
   Obj KObject [("handler", VStr "list.handler")]].

Definition before_set : state := State (entity_heap ++ literal) project_fs [].

(** The entity after [set(literal)]: its [functions] is the map at
    location 11, which holds two instances. *)
Definition after_set : state :=
  Eval vm_compute in (set (VRef 3) (VRef 10) before_set).1.

Definition functions_of_literal : object :=
  Obj KObject [("create", VRef 12); ("list", VRef 13)].

Definition functions_after_set : object :=
  Eval vm_compute in default (Obj KObject []) (st_heap after_set !! 11).

Definition entity_tree : tree :=
  Eval vm_compute in
  default TUndef
  (snapshot (length (st_heap after_set)) (st_heap after_set) (VRef 3)).

(** The same entity in a context that has no project root. *)
Definition rootless : state :=
  Eval vm_compute in
  (constructor version (VRef 0) (VRef 2)
   (State ([Obj KObject [("config", VRef 1)]; Obj KObject []] ++ config_both)
  ∅ [])).1.

(** The entity right after construction, nothing saved yet. *)
Definition constructed_state : state :=
  Eval vm_compute in (constructor version (VRef 0) (VRef 2) (start config_both)).1.
End SampleStates.

(** ** The default document *)

(** What [get()] returns for an entity named [mn] that has just been
    constructed, as a tree and as JSON. *)
Definition default_document (package_version mn : string) : tree :=
  TObj KModule
    [("name", TStr mn);
     ("version", TStr "0.0.1");
     ("profile", TStr ("aws-v" +:+ package_version));
     ("location", TStr "https://github.com/...");
     ("author", TStr EmptyString);
     ("description", TStr "A Serverless Module");
     ("runtime", TStr "nodejs");
     ("custom", TObj KObject []);
     ("functions", TObj KObject []);
     ("cloudFormation",
      TObj KObject [("resources", TObj KObject []);
                    ("lambdaIamPolicyDocumentStatements", TObj KArray [])])].

Definition default_json (package_version mn : string) : json :=
  JObj
    [("name", JStr mn);
     ("version", JStr "0.0.1");
     ("profile", JStr ("aws-v" +:+ package_version));
     ("location", JStr "https://github.com/...");
     ("author", JStr EmptyString);
     ("description", JStr "A Serverless Module");
     ("runtime", JStr "nodejs");
     ("custom", JObj []);
     ("functions", JObj []);
     ("cloudFormation",
      JObj [("resources", JObj []);
            ("lambdaIamPolicyDocumentStatements", JArr [])])].

(** ** Persisting *)

(** [writeFile] goes through at [p]: a file is there to overwrite, or
    nothing is and the directory it goes into exists. *)
Definition writable (fs : gmap string node) (p : string) : Prop :=
  match fs !! p with
  | Some (NFile _) => True
  | Some (NDir _) => False
  | None =>
      match split_last p with
      | Some (d, _) =>
          match fs !! d with Some (NDir _) => True | _ => False end
      | None => False
      end
  end.

Global Instance writable_dec fs p : Decision (writable fs p).
Proof.
  unfold writable. destruct (fs !! p) as [[]|]; [apply _..|].
  destruct (split_last p) as [[d ?]|]; [|apply _].
  destruct (fs !! d) as [[]|]; apply _.
Defined.


(** [path.join(projectPath, parse.component, parse.module)], the
    [fullPath] of the identity [c]/[m] under the project root. *)
Definition module_path `{SUtils} (root : string) (c m : value) : string :=
  let parse := parseSPath (VStr (buildSPath c m)) in
  join_segments (filter (λ s, s ≠ EmptyString) [root; parse.1; parse.2]).

(** What the module class relies on when it persists and restores its
    children: a child's [save] creates objects but changes none that is
    there; constructing the child of a name whose descriptor is in the
    module's directory and loading it succeeds, yields a new instance
    and leaves the objects that are there and the file system alone. *)
Class FunctionStoreLaws `{SUtils} `{FunctionClass} := {
    F_save_frame : ∀ st child st' r,
      instanceof_Function (st_heap st) child = true →
      F_save child st = (st', Ok r) → ∃ L, st_heap st' = st_heap st ++ L;
    F_open_spec : ∀ st S root c m f,
      context_at (st_heap st) S (VStr root) → root ≠ EmptyString →
      truthy c = true → truthy m = true → f ≠ EmptyString →
      is_file (st_fs st) (function_descriptor_path (module_path root c m) f) = true →
      ∃ L l,
        (func ← F_new S c m (VStr f); F_load func) st
        = (set_heap st (st_heap st ++ L), Ok (VRef l))
        ∧ length (st_heap st) ≤ l
        ∧ instanceof_Function (st_heap st ++ L) (VRef l) = true
  }.

(** Computations that leave the heap and the console alone, and
    computations that only add objects when they return. *)
Definition keeps_heap {A} (m : M A) : Prop :=
  ∀ st st' r, m st = (st', r) →
    st_heap st' = st_heap st ∧ st_console st' = st_console st.

Definition extends_heap {A} (m : M A) : Prop :=
  ∀ st st' a, m st = (st', Ok a) → ∃ L, st_heap st' = st_heap st ++ L.

(** ** Sample states of a save *)
Module SampleSaves.
Import Sample SampleStates.

Definition entity_fields : list (string * tree) :=
  Eval vm_compute in match entity_tree with TObj _ ps => ps | _ => [] end.

(** The options [{deep: true}], placed after the entity and its two
    children. *)
Definition deep_options : list object := [Obj KObject [("deep", VBool true)]].

Definition options_loc : loc :=
  Eval vm_compute in length (st_heap after_set).

Definition before_save : state :=
  State (st_heap after_set ++ deep_options) project_fs [].



Definition saved : state :=
  Eval vm_compute in (save (VRef 3) (VRef options_loc) before_save).1.
End SampleSaves.

(** ** Promises and the event loop

    [getPopulated] hands back a promise and leaves callbacks behind, so
    what its caller sees depends on the order in which the event loop
    runs them. The loop is modelled as it is specified for promises: a
    promise is pending or settled; [.then] registers a reaction and
    gives the derived promise; the reactions of a settled promise are
    queued as jobs and run first in, first out, each one settling the
    promise derived from it. *)

Inductive outcome :=
  | Fulfilled (v : value)
  | Rejected (e : error).

(** The functions [getPopulated] passes to [.then], with what they close
    over; [clone] is the variable of that name, which the first of them
    reassigns. [Receive] is the handler of the caller. *)
Inductive callback :=
  | OnPopulated (this options : value) (clone : nat)
  | OnChild (clone : nat) (prop : string)
  | OnDone (clone : nat)
  | Receive.

Record promise := Promise {
    settled : option outcome;
    reactions : list (callback * nat)
  }.

(** The calls made to the Populator. *)
Inductive call := Populate (S data stage region : value).

Record world := World {
    w_state : state;
    w_vars : list value;
    w_promises : list promise;
    w_jobs : list (callback * outcome * nat);
    (** operations of the collaborators that are under way: the turns
        left, the promise to settle and the outcome it is settled with *)
    w_pending : list (nat * nat * outcome);
    w_calls : list call;
    (** what the caller's handler was given, and the document it saw in
        it at that moment *)
    w_received : list (outcome * option tree)
  }.

Definition W (A : Type) : Type := world → world * result A.

Global Instance W_ret : MRet W := λ A a w, (w, Ok a).
Global Instance W_bind : MBind W := λ A B f m w,
  match m w with
  | (w', Ok a) => f a w'
  | (w', Throw e) => (w', Throw e)
  end.

Definition set_state (w : world) (st : state) : world :=
  World st (w_vars w) (w_promises w) (w_jobs w) (w_pending w) (w_calls w)
        (w_received w).
Definition set_vars (w : world) (vs : list value) : world :=
  World (w_state w) vs (w_promises w) (w_jobs w) (w_pending w) (w_calls w)
        (w_received w).
Definition set_promises (w : world) (ps : list promise) : world :=
  World (w_state w) (w_vars w) ps (w_jobs w) (w_pending w) (w_calls w)
        (w_received w).
Definition set_jobs (w : world) (js : list (callback * outcome * nat)) : world :=
  World (w_state w) (w_vars w) (w_promises w) js (w_pending w) (w_calls w)
        (w_received w).
Definition set_pending (w : world) (ps : list (nat * nat * outcome)) : world :=
  World (w_state w) (w_vars w) (w_promises w) (w_jobs w) ps (w_calls w)
        (w_received w).
Definition add_call (c : call) : W unit := λ w,
  (World (w_state w) (w_vars w) (w_promises w) (w_jobs w) (w_pending w)
         (w_calls w ++ [c]) (w_received w), Ok tt).
Definition add_received (r : outcome * option tree) (w : world) : world :=
  World (w_state w) (w_vars w) (w_promises w) (w_jobs w) (w_pending w)
        (w_calls w) (w_received w ++ [r]).

(** Synchronous code, run inside the loop. *)
Definition liftM {A} (m : M A) : W A := λ w,
  let '(st, r) := m (w_state w) in (set_state w st, r).

Definition new_var (v : value) : W nat := λ w,
  (set_vars w (w_vars w ++ [v]), Ok (length (w_vars w))).
Definition get_var (x : nat) : W value := λ w,
  (w, Ok (default VUndef (w_vars w !! x))).
Definition set_var (x : nat) (v : value) : W unit := λ w,
  (set_vars w (<[x := v]> (w_vars w)), Ok tt).

Definition outcome_of (r : result value) : outcome :=
  match r with Ok v => Fulfilled v | Throw e => Rejected e end.

Definition new_promise : W nat := λ w,
  (set_promises w (w_promises w ++ [Promise None []]),
   Ok (length (w_promises w))).

(** Settling a pending promise queues its reactions. *)
Definition settle (p : nat) (o : outcome) (w : world) : world :=
  match w_promises w !! p with
  | Some (Promise None rs) =>
      set_jobs (set_promises w (<[p := Promise (Some o) []]> (w_promises w)))
               (w_jobs w ++ map (λ r : callback * nat, (r.1, o, r.2)) rs)
  | _ => w
  end.

(** [p.then(cb)]: the reaction is registered if [p] is pending and
    queued if it is settled; never run on the spot. *)
Definition register (p : nat) (cb : callback) (d : nat) : W nat := λ w,
  match w_promises w !! p with
  | Some (Promise None rs) =>
      (set_promises w (<[p := Promise None (rs ++ [(cb, d)])]> (w_promises w)),
       Ok d)
  | Some (Promise (Some o) _) => (set_jobs w (w_jobs w ++ [(cb, o, d)]), Ok d)
  | None => (w, Ok d)
  end.

Definition then_ (p : nat) (cb : callback) : W nat :=
  d ← new_promise; register p cb d.

(** A promise-returning operation of a collaborator: its outcome is
    what [work] computes when it is called; the promise is settled with
    it on the spot if [turns] is 0, and after that many turns of the
    loop otherwise. *)
Definition async (turns : nat) (work : M value) : W nat := λ w,
  let '(st, r) := work (w_state w) in
  let w1 := set_state w st in
  let p := length (w_promises w1) in
  let w2 := set_promises w1 (w_promises w1 ++ [Promise None []]) in
  match turns with
  | O => (settle p (outcome_of r) w2, Ok p)
  | S _ => (set_pending w2 (w_pending w2 ++ [(turns, p, outcome_of r)]), Ok p)
  end.

Fixpoint for_each_W {A} (ks : list A) (body : A → W unit) : W unit :=
  match ks with
  | [] => mret tt
  | k :: ks' => body k;; for_each_W ks' body
  end.

(** ** [getPopulated] *)

Section getPopulated.
Context `{SUtils} `{FunctionClass}.
(** How many turns the Populator and the [getPopulated] of the child of
    a given name take. *)
Context (populate_turns : nat) (child_turns : string → nat).

(** The synchronous part of getPopulated(options): validation and the
    copy. It returns what the call of the Populator is given. *)
Definition getPopulated_prepare (this options : value)
  : M (value * value * value * value * value) :=
  options ← (if truthy options then mret options else alloc (Obj KObject []));
  stage ← get_prop options "stage";
  if negb (truthy stage) then throw (SError msg_stage_region) else
  region ← get_prop options "region";
  if negb (truthy region) then throw (SError msg_stage_region) else
  pp ← get_path this ["_S"; "config"; "projectPath"];
  if negb (truthy pp) then throw (SError msg_populate_no_project) else
  clone ← cloneDeep this;
  cf ← get_prop clone "functions";
  (if truthy cf then
   e ← alloc (Obj KObject []); set_prop clone "functions" e
   else mret tt);;
  S ← get_prop this "_S";
  stage ← get_prop options "stage";
  region ← get_prop options "region";
  mret (options, clone, S, stage, region).

(** [_this.functions[prop].getPopulated(options).then(...)], the body of
    the loop in the first callback. *)
Definition populate_child (this options : value) (clone : nat) (prop : string)
  : W unit :=
  child ← liftM (get_path this ["functions"; prop]);
  h ← liftM get_heap;
  (if instanceof_Function h child then mret tt
   else liftM (throw (TypeError "is not a function")));;
  p ← async (child_turns prop) (F_getPopulated child options);
  then_ p (OnChild clone prop);;
  mret tt.

(** The body of a callback, applied to the value its promise was
    fulfilled with. *)
Definition run_callback (cb : callback) (arg : value) : W value :=
  match cb with
  | OnPopulated this options clone =>
    set_var clone arg;;
    data ← get_var clone;
    e ← liftM (alloc (Obj KObject []));
    liftM (set_prop data "functions" e);;
    fns ← liftM (get_prop this "functions");
    h ← liftM get_heap;
    for_each_W (for_in_keys h fns) (populate_child this options clone);;
    mret VUndef
  | OnChild clone prop =>
    data ← get_var clone;
    fns ← liftM (get_prop data "functions");
    liftM (set_prop fns prop arg);;
    mret VUndef
  | OnDone clone => get_var clone
  | Receive =>
    λ w, (add_received
            (Fulfilled arg,
             snapshot (length (st_heap (w_state w))) (st_heap (w_state w)) arg) w,
          Ok VUndef)
  end.

(** One job: a fulfilment is passed to the callback, whose result or
    exception settles the derived promise; a rejection passes through the
    callbacks of [getPopulated], which handle none, and reaches the
    caller. *)
Definition run_job (j : callback * outcome * nat) (w : world) : world :=
  match j with
  | (cb, Fulfilled v, d) =>
    let '(w', r) := run_callback cb v w in settle d (outcome_of r) w'
  | (Receive, Rejected e, d) =>
    settle d (Fulfilled VUndef) (add_received (Rejected e, None) w)
  | (_, Rejected e, d) => settle d (Rejected e) w
  end.

(** A turn of the loop: the operations that are due settle their
    promises, the others are one turn closer. *)
Definition tick (w : world) : world :=
  let due := filter (λ e : nat * nat * outcome, e.1.1 ≤ 1) (w_pending w) in
  let rest := filter (λ e : nat * nat * outcome, ¬ e.1.1 ≤ 1) (w_pending w) in
  foldl (λ w e, settle e.1.2 e.2 w)
    (set_pending w (map (λ e : nat * nat * outcome, (pred e.1.1, e.1.2, e.2)) rest))
    due.

(** The loop runs the jobs that are queued before it turns. *)
Definition step (w : world) : option world :=
  match w_jobs w with
  | j :: js => Some (run_job j (set_jobs w js))
  | [] =>
    match w_pending w with
    | [] => None
    | _ => Some (tick w)
    end
  end.

Fixpoint run (fuel : nat) (w : world) : world :=
  match fuel with
  | O => w
  | S n => match step w with Some w' => run n w' | None => w end
  end.

(** getPopulated(options) *)
Definition getPopulated (this options : value) : W nat :=
  '(options, clone, serverless, stage, region) ←
  liftM (getPopulated_prepare this options);
  cv ← new_var clone;
  add_call (Populate serverless clone stage region);;
  p ← async populate_turns (populate serverless clone stage region);
  p1 ← then_ p (OnPopulated this options cv);
  then_ p1 (OnDone cv).

(** A caller: [entity.getPopulated(options).then(receive)], and the
    loop run until nothing is left to do. *)
Definition populated_for_caller (fuel : nat) (this options : value) (w : world)
  : world * result unit :=
  match getPopulated this options w with
  | (w1, Ok p) =>
    match then_ p Receive w1 with
    | (w2, _) => (run fuel w2, Ok tt)
    end
  | (w1, Throw e) => (w1, Throw e)
  end.
End getPopulated.

(** The world a program starts in. *)
Definition world_of (st : state) : world := World st [] [] [] [] [] [].
(** [options.k] after [options = options || {}]. *)
Definition option_read (h : heap) (options : value) (k : string) : value :=
  if truthy options then
    match read_prop h options k with Ok v => v | Throw _ => VUndef end
  else VUndef.

(** ** Sample worlds of a populate *)
Module SamplePopulate.
Import Sample SampleStates.

(** The options [{stage: 'dev', region: 'us-east-1'}], placed after the
    entity and its two children, and options that lack the region. *)
Definition options : list object :=
  [Obj KObject [("stage", VStr "dev"); ("region", VStr "us-east-1")]].
Definition options_without_region : list object :=
  [Obj KObject [("stage", VStr "dev")]].

Definition options_loc : loc :=
  Eval vm_compute in length (st_heap after_set).

Definition start : world :=
  world_of (State (st_heap after_set ++ options) project_fs []).

Definition start_without_region : world :=
  world_of (State (st_heap after_set ++ options_without_region) project_fs []).

(** The same call in a context that has no project root. *)
Definition start_rootless : world :=
  world_of (State (st_heap rootless ++ options) ∅ []).

Definition options_loc_rootless : loc :=
  Eval vm_compute in length (st_heap rootless).

(** The caller asks for the populated document and the loop runs until
    nothing is left to do. The Populator takes one turn; in [late] the
    children take one turn as well, in [early] their promises are settled
    when they are returned. *)
Definition late : world :=
  Eval vm_compute in
  (populated_for_caller 1 (λ _, 1) 100 (VRef 3) (VRef options_loc) start).1.

Definition early : world :=
  Eval vm_compute in
  (populated_for_caller 1 (λ _, 0) 100 (VRef 3) (VRef options_loc) start).1.

(** The [functions] field of the document a caller was given, as the
    caller saw it. *)
Definition received_functions (w : world) : list (option tree) :=
  map (λ r : outcome * option tree,
   match r.2 with
   | Some (TObj _ ps) => lookup_prop "functions" ps
   | _ => None
   end) (w_received w).

(** The [functions] field of the same document once the loop is done. *)
Definition final_functions (w : world) : list (option tree) :=
  map (λ r : outcome * option tree,
   match r.1 with
   | Fulfilled v =>
     match snapshot (length (st_heap (w_state w))) (st_heap (w_state w)) v with
     | Some (TObj _ ps) => lookup_prop "functions" ps
     | _ => None
     end
   | Rejected _ => None
   end) (w_received w).

(** What the [getPopulated] of each child gives, asked for on its own. *)
Definition child_populated (prop : string) : option tree :=
  match
    (child ← get_path (VRef 3) ["functions"; prop];
     F_getPopulated child (VRef options_loc)) (w_state start)
  with
  | (st, Ok d) => snapshot (length (st_heap st)) (st_heap st) d
  | _ => None
  end.
End SamplePopulate.

(** ** Round trips *)

(** A value that JSON can hold: written and parsed, it is the same. *)
Definition representable (x : tree) : Prop :=
  ∃ j, to_json x = Some j ∧ of_json j = x.

(** The heap [hi] reached from [h0] once the loop of [load] has gone
    through the directory entries [done]: the [functions] map of the
    parsed document, the object at [fl], has an entry for those of them
    that hold a function descriptor, and nothing else that was there
    has changed. *)
Definition load_inv (h0 : heap) (fl : loc) (fs : gmap string node) (fp : string)
    (done : list string) (hi : heap) : Prop :=
  length h0 ≤ length hi
  ∧ (∀ l, l < length h0 → l ≠ fl → hi !! l = h0 !! l)
  ∧ ∃ psi,
      hi !! fl = Some (Obj KObject psi)
      ∧ ∀ f, f ∈ prop_keys psi
             ↔ f ∈ done ∧ is_file fs (function_descriptor_path fp f) = true.

(** ** Sample states of a round trip *)
Module SampleRoundTrip.
Import Sample SampleStates SampleSaves.

(** A new entity users/profile, constructed after the save: the config
    literal is placed after what the heap holds, the entity after it. *)
Definition config_loc (st : state) : loc := length (st_heap st).
Definition with_config (st : state) : state :=
  State (st_heap st ++ config_both) (st_fs st) (st_console st).

(** After [save({deep: true})]. *)
Definition fresh : state :=
  Eval vm_compute in
  (constructor version (VRef 0) (VRef (config_loc saved)) (with_config saved)).1.
Definition fresh_loc : loc := Eval vm_compute in S (config_loc saved).
Definition loaded : state :=
  Eval vm_compute in (load (VRef fresh_loc) fresh).1.

(** The entity is given an author that is [undefined], by
    [set({author: undefined})], and then saved by [save()], its
    children being in memory only. *)
Definition undefined_author : list object := [Obj KObject [("author", VUndef)]].
Definition before_edit : state :=
  State (st_heap after_set ++ undefined_author) project_fs [].
Definition edited : state :=
  Eval vm_compute in (set (VRef 3) (VRef (config_loc after_set)) before_edit).1.
Definition saved_shallow : state :=
  Eval vm_compute in (save (VRef 3) VUndef edited).1.
Definition fresh_shallow : state :=
  Eval vm_compute in
  (constructor version (VRef 0) (VRef (config_loc saved_shallow))
     (with_config saved_shallow)).1.
Definition fresh_shallow_loc : loc :=
  Eval vm_compute in S (config_loc saved_shallow).
Definition loaded_shallow : state :=
  Eval vm_compute in (load (VRef fresh_shallow_loc) fresh_shallow).1.

(** The names of the children of the entity at [l]. *)
Definition child_names (st : state) (l : loc) : list string :=
  match read_prop (st_heap st) (VRef l) "functions" with
  | Ok fns => for_in_keys (st_heap st) fns
  | Throw _ => []
  end.
End SampleRoundTrip.

(** ** Templates and scaffolding *)

(** [path.join(fullPath, 's-templates.json')]. *)
Definition templates_path (fp : string) : string :=
  join_segments (filter (λ s, s ≠ EmptyString) [fp; "s-templates.json"]).

(** The paths [mkdirSync] and [writeFile] may change at [p]: the entry
    itself and the directory it is listed in. *)
Definition touched (p : string) : list string :=
  p :: match split_last p with Some (d, _) => [d] | None => [] end.

(** [options && options.deep] is falsy: no deep save was asked for. *)
Definition not_deep (h : heap) (options : value) : Prop :=
  truthy options = false
  ∨ ∃ d, read_prop h options "deep" = Ok d ∧ truthy d = false.

(** ** Sample states of scaffolding *)
Module SampleScaffold.
Import Sample SampleStates.

(** The module directory has been made, nothing else written. *)
Definition created : state :=
  Eval vm_compute in (_create (VRef 3) constructed_state).1.

(** The entity with its two children in memory, saved by [save()]. *)
Definition saved_once : state :=
  Eval vm_compute in (save (VRef 3) VUndef after_set).1.
End SampleScaffold.

Module SampleDescriptor.
Import SampleRoundTrip.

(** The fields of the descriptor that [save({deep: true})] wrote. *)
Definition descriptor_fields : list (string * json) :=
  Eval vm_compute in
  match st_fs fresh !! descriptor_path "/proj/users/profile" with
  | Some (NFile (JObj qs)) => qs
  | _ => []
  end.
End SampleDescriptor.

(** ** Sample worlds of a populate without children *)
Module SampleChildless.
Import Sample SampleStates SamplePopulate.

(** The entity right after construction, and the options after it. *)
Definition options_loc : loc :=
  Eval vm_compute in length (st_heap constructed_state).
Definition start : state :=
  State (st_heap constructed_state ++ options) project_fs [].
Definition prepared : state :=
  Eval vm_compute in (getPopulated_prepare (VRef 3) (VRef options_loc) start).1.
Definition clone_loc : loc :=
  Eval vm_compute in
  match (getPopulated_prepare (VRef 3) (VRef options_loc) start).2 with
  | Ok (_, VRef c, _, _, _) => c
  | _ => 0
  end.
Definition populated : state :=
  Eval vm_compute in
  (populate (VRef 0) (VRef clone_loc) (VStr "dev") (VStr "us-east-1") prepared).1.
Definition data_loc : loc :=
  Eval vm_compute in
  match
    (populate (VRef 0) (VRef clone_loc) (VStr "dev") (VStr "us-east-1") prepared).2
  with
  | Ok (VRef d) => d
  | _ => 0
  end.
Definition data_object : object :=
  Eval vm_compute in default (Obj KObject []) (st_heap populated !! data_loc).

(** A Populator that fails. *)
Definition msg_unresolved : string := "Variable is not defined".
Definition failing_sutils : SUtils := {|
  buildSPath := buildSPath;
  parseSPath := parseSPath;
  generateShortId := generateShortId;
  populate _ _ _ _ := throw (SError msg_unresolved)
  |}.
End SampleChildless.

(** ** A document that mixes a literal and an instance *)
Module SampleMixed.
Import Sample SampleStates.

Definition mixed_loc : loc := Eval vm_compute in length (st_heap after_set).

(** The child [create] of the entity, a live instance. *)
Definition instance : value :=
  Eval vm_compute in
  default VUndef (lookup_prop "create" (oprops functions_after_set)).

Definition mixed_functions : object :=
  Obj KObject [("added", VRef (mixed_loc + 2)); ("create", instance)].

Definition mixed : list object :=
  [Obj KObject [("functions", VRef (mixed_loc + 1))];
   mixed_functions;
   Obj KObject [("handler", VStr "added.handler")]].

Definition before_mixed : state :=
  State (st_heap after_set ++ mixed) project_fs [].
End SampleMixed.

(** * Properties *)

(** ** Running method bodies *)

Section run_lemmas.
Implicit Types (h : heap) (L : list object) (o : object) (st : state).

Lemma bind_ok {A B} (m : M A) (f : A → M B) st st1 a res :
  m st = (st1, Ok a) → f a st1 = res → (m ≫= f) st = res.
Proof. intros E <-. unfold mbind, M_bind. by rewrite E. Qed.

Lemma bind_throw {A B} (m : M A) (f : A → M B) st st1 e :
  m st = (st1, Throw e) → (m ≫= f) st = (st1, Throw e).
Proof. intros E. unfold mbind, M_bind. by rewrite E. Qed.

Lemma bind_assoc {A B C} (m : M A) (g : A → M B) (f : B → M C) st :
  ((m ≫= g) ≫= f) st = (m ≫= (λ a, g a ≫= f)) st.
Proof. unfold mbind, M_bind. by destruct (m st) as [? []]. Qed.

Lemma ret_bind {A B} (a : A) (f : A → M B) st : (mret a ≫= f) st = f a st.
Proof. reflexivity. Qed.

Lemma get_path_run v ks st :
  get_path v ks st = (st, read_path (st_heap st) v ks).
Proof.
  revert v. induction ks as [|k ks IH]; intros v; [done|].
  cbn [get_path read_path]. unfold mbind, M_bind, get_prop.
  destruct (read_prop (st_heap st) v k); [apply IH | done].
Qed.

Lemma lookup_ext h L i : (h ++ L) !! (length h + i) = L !! i.
Proof. rewrite lookup_app_r by lia. f_equal. lia. Qed.

Lemma run_alloc h L L' n fs con o :
  L ++ [o] = L' → length L = n →
  alloc o (State (h ++ L) fs con)
  = (State (h ++ L') fs con, Ok (VRef (length h + n))).
Proof.
  intros <- <-. unfold alloc, set_heap. cbn.
  by rewrite <- app_assoc, length_app.
Qed.

Lemma run_get_new h L fs con i o k v :
  L !! i = Some o → default VUndef (lookup_prop k (oprops o)) = v →
  get_prop (VRef (length h + i)) k (State (h ++ L) fs con)
  = (State (h ++ L) fs con, Ok v).
Proof.
  intros E <-. unfold get_prop, read_prop. cbn. by rewrite lookup_ext, E.
Qed.

Lemma read_prop_old h L v k :
  valid h v → read_prop (h ++ L) v k = read_prop h v k.
Proof. destruct v; simpl; try done. intros Hl. by rewrite lookup_app_l. Qed.

Lemma run_get_old h L fs con v k x :
  valid h v → read_prop h v k = Ok x →
  get_prop v k (State (h ++ L) fs con) = (State (h ++ L) fs con, Ok x).
Proof. intros Hv <-. unfold get_prop. cbn. by rewrite read_prop_old. Qed.

Lemma run_set_new h L L' fs con i o k x :
  L !! i = Some o →
  <[i := Obj (okind o) (update_prop k x (oprops o))]> L = L' →
  set_prop (VRef (length h + i)) k x (State (h ++ L) fs con)
  = (State (h ++ L') fs con, Ok tt).
Proof.
  intros E <-. unfold set_prop, write_prop. cbn.
  rewrite lookup_ext, E. cbn. by rewrite insert_app_r.
Qed.
End run_lemmas.

(** Normalises a side condition [t = ?x] about the objects built so far. *)
Ltac norm_eq :=
  cbn [lookup_prop update_prop delete_prop String.eqb Ascii.eqb Bool.eqb
       default from_option id okind oprops lookup list_lookup insert
       list_insert app length];
  reflexivity.

(** One primitive, run on a heap [h ++ L] whose new part [L] is explicit. *)
Ltac mprim :=
  first
    [ eapply run_alloc; [norm_eq | norm_eq]
    | eapply run_get_new; [norm_eq | norm_eq]
    | eapply run_set_new; [norm_eq | norm_eq]
    | eapply run_get_old; [assumption | eassumption]
    | reflexivity ].

Ltac mcond :=
  first [ match goal with
          | E : truthy _ = _ |- _ => rewrite E
          | E : negb _ = _ |- _ => rewrite E
          end
        | progress cbn [negb orb andb truthy] ].

Ltac mstep :=
  cbn [get_path];
  lazymatch goal with
  | |- ((_ ≫= _) ≫= _) _ = _ => rewrite bind_assoc
  | |- (mret _ ≫= _) _ = _ => rewrite ret_bind
  | |- ((if ?b then _ else _) ≫= _) _ = _ => mcond
  | |- ((if ?b then _ else _)) _ = _ => mcond
  | |- (_ ≫= _) _ = _ => eapply bind_ok; [ mprim | cbn beta ]
  end.

Lemma context_read_path h S pp :
  context_at h S pp → read_path h S ["config"; "projectPath"] = Ok pp.
Proof. intros (_ & cfg & E1 & _ & E2 & _). cbn. by rewrite E1, E2. Qed.

(** ** Construction *)

Section construction.
Context (package_version : string) `{SUtils} `{FunctionClass}.

Lemma constructor_run h fs con S pp cl c m :
  cl < length h → context_at h S pp →
  read_prop h (VRef cl) "component" = Ok c →
  read_prop h (VRef cl) "module" = Ok m →
  truthy c = true → truthy m = true →
  constructor package_version S (VRef cl) (State h fs con)
  = (State (h ++ constructed package_version S c m pp (length h)) fs con,
   Ok (VRef (length h))).
Proof.
  intros Hcl (HS & cfg & Hcfg & Vcfg & Hpp & Spp) Hc Hm Tc Tm.
  assert (valid h (VRef cl)) by done.
  cut (constructor package_version S (VRef cl) (State (h ++ []) fs con)
    = (State (h ++ constructed package_version S c m pp (length h)) fs con,
    Ok (VRef (length h + 0)))).
  { by rewrite app_nil_r, Nat.add_0_r. }
  unfold constructed, config_props.
  destruct (truthy pp && truthy (VStr (buildSPath c m))) eqn:T.
  - apply andb_prop in T as [Tpp Tsp].
    destruct (Spp Tpp) as [root ->]. clear Spp. cbn [truthy] in Tsp.
    unfold constructor, updateConfig. repeat mstep.
    unfold path_join. cbn [string_args mbind option_bind].
    repeat mstep. rewrite Tm. reflexivity.
  - cbn [truthy] in T.
    unfold constructor, updateConfig. repeat mstep.
    rewrite T. repeat mstep. rewrite Tm. destruct pp; reflexivity.
Qed.

Lemma constructor_throws h fs con S cl c m :
  cl < length h →
  read_prop h (VRef cl) "component" = Ok c →
  read_prop h (VRef cl) "module" = Ok m →
  truthy c = false ∨ truthy m = false →
  constructor package_version S (VRef cl) (State h fs con)
  = (State (h ++ [Obj KModule []]) fs con, Throw (SError msg_missing_config)).
Proof.
  intros Hcl Hc Hm Hor.
  assert (valid h (VRef cl)) by done.
  rewrite <- (app_nil_r h) at 1.
  unfold constructor. do 3 mstep.
  assert (negb (truthy c) || negb (truthy m) = true) as ->.
  { destruct Hor as [-> | ->]; [done | by destruct (truthy c)]. }
  reflexivity.
Qed.
End construction.

Lemma sample_context extra :
  context_at (Sample.project_heap ++ extra) (VRef 0) (VStr "/proj").
Proof.
  split; [simpl; lia|]. exists (VRef 1). repeat split; [simpl; lia|eauto].
Qed.

Section constructor_errors.
Context (package_version : string) `{SUtils} `{FunctionClass}.

(** C5, as amended: construction fails with a ConfigError (the
    repository's SError) exactly when the config lacks a component name
    or lacks a module name, one missing name being enough; with both
    names supplied construction succeeds and returns the new entity. *)
Theorem constructor_fails_iff_a_name_is_missing h fs con S pp cl c m :
  cl < length h →
  context_at h S pp →
  read_prop h (VRef cl) "component" = Ok c →
  read_prop h (VRef cl) "module" = Ok m →
  ((∃ st' msg, constructor package_version S (VRef cl) (State h fs con)
                = (st', Throw (SError msg)))
   ↔ truthy c = false ∨ truthy m = false)
  ∧ (truthy c = true → truthy m = true →
     ∃ st', constructor package_version S (VRef cl) (State h fs con)
            = (st', Ok (VRef (length h)))).
Proof.
  intros Hcl Hctx Hc Hm. split; [split|].
  - intros (st' & msg & E).
    destruct (truthy c) eqn:Tc; [|by left].
    destruct (truthy m) eqn:Tm; [|by right].
    by rewrite (constructor_run _ _ _ _ _ _ _ _ _ Hcl Hctx Hc Hm Tc Tm) in E.
  - intros Hor. eexists _, _. eapply constructor_throws; eauto.
  - intros Tc Tm. eexists. by apply constructor_run with (pp := pp).
Qed.
End constructor_errors.

Lemma constructor_fails_iff_a_name_is_missing_witness :
  ((∃ st' msg,
      constructor Sample.version (VRef 0) (VRef 2) (Sample.start Sample.config_both)
      = (st', Throw (SError msg)))
   ↔ truthy (VStr "users") = false ∨ truthy (VStr "profile") = false)
  ∧ (truthy (VStr "users") = true → truthy (VStr "profile") = true →
     ∃ st',
       constructor Sample.version (VRef 0) (VRef 2) (Sample.start Sample.config_both)
       = (st', Ok (VRef 3))).
Proof.
  apply (constructor_fails_iff_a_name_is_missing Sample.version
    (Sample.project_heap ++ Sample.config_both) Sample.project_fs []
    (VRef 0) (VStr "/proj") 2 (VStr "users") (VStr "profile")).
  - simpl. lia.
  - apply sample_context.
  - reflexivity.
  - reflexivity.
Defined.

(** C5 as stated fails: a config that has a component name but no module
    name does not lack both, and construction throws the ConfigError all
    the same. *)
Lemma constructor_component_only_fails :
  read_prop (st_heap (Sample.start Sample.config_component_only)) (VRef 2) "component"
  = Ok (VStr "users")
  ∧ read_prop (st_heap (Sample.start Sample.config_component_only)) (VRef 2) "module"
    = Ok VUndef
  ∧ ¬ ((∃ st' msg,
          constructor Sample.version (VRef 0) (VRef 2)
            (Sample.start Sample.config_component_only)
          = (st', Throw (SError msg)))
       ↔ truthy (VStr "users") = false ∧ truthy VUndef = false).
Proof.
  split; [reflexivity|]. split; [reflexivity|].
  intros [Hfails _].
  destruct Hfails as [Hc _]; [|discriminate Hc].
  eexists _, _. vm_compute. reflexivity.
Qed.

(** ** Loading *)

Section load_errors.
Context `{SUtils} `{FunctionClass}.

(** C7: [load()] is rejected with the ConfigError "no project path has
    been set" when the context has no project root, and with the
    ConfigError "does not exist in your project" when the root is set
    and there is no s-module.json at the entity's absolute location; in
    both cases the heap, the file system and the console are what they
    were. *)
Theorem load_fails_and_leaves_state st this pp :
  read_path (st_heap st) this ["_S"; "config"; "projectPath"] = Ok pp →
  (truthy pp = false →
   load this st = (st, Throw (SError msg_load_no_project)))
  ∧ (∀ fp sp,
       truthy pp = true →
       read_path (st_heap st) this ["_config"; "fullPath"] = Ok (VStr fp) →
       read_path (st_heap st) this ["_config"; "sPath"] = Ok sp →
       is_file (st_fs st) (descriptor_path fp) = false →
       load this st
       = (st, Throw (SError (msg_load_not_found +:+ js_to_string sp)))).
Proof.
  intros Hpp. split.
  - intros Tpp. unfold load.
    eapply bind_ok; [rewrite get_path_run, Hpp; reflexivity|].
    cbn beta. by rewrite Tpp.
  - intros fp sp Tpp Hfp Hsp Hfile. unfold load.
    eapply bind_ok; [rewrite get_path_run, Hpp; reflexivity|].
    cbn beta. rewrite Tpp. cbn [negb].
    eapply bind_ok; [rewrite get_path_run, Hfp; reflexivity|].
    eapply bind_ok; [reflexivity|].
    eapply bind_ok.
    { unfold fileExistsSync. fold (descriptor_path fp).
      fold (is_file (st_fs st) (descriptor_path fp)). by rewrite Hfile. }
    cbn beta. cbn [negb].
    eapply bind_ok; [rewrite get_path_run, Hsp; reflexivity|].
    reflexivity.
Qed.
End load_errors.

(** ** Property lists and single writes *)

Section prop_lemmas.
Context {A : Type}.
Implicit Types (ps : list (string * A)) (k : string) (v : A).

Lemma lookup_update_eq k v ps : lookup_prop k (update_prop k v ps) = Some v.
Proof.
  induction ps as [|[k' v'] ps IH]; cbn.
  - by rewrite String.eqb_refl.
  - destruct (String.eqb k k') eqn:E; cbn; rewrite ?String.eqb_refl, ?E; done.
Qed.

Lemma lookup_update_ne k k' v ps :
  k ≠ k' → lookup_prop k' (update_prop k v ps) = lookup_prop k' ps.
Proof.
  intros Hne.
  assert (String.eqb k' k = false) as Hf by (apply String.eqb_neq; congruence).
  induction ps as [|[k1 v1] ps IH]; cbn.
  - by rewrite Hf.
  - destruct (String.eqb k k1) eqn:E; cbn.
    + apply String.eqb_eq in E as <-. by rewrite Hf.
    + by rewrite IH.
Qed.

Lemma lookup_prop_Some_key k v ps : lookup_prop k ps = Some v → k ∈ prop_keys ps.
Proof.
  induction ps as [|[k' v'] ps IH]; cbn; [done|].
  destruct (String.eqb k k') eqn:E.
  - apply String.eqb_eq in E as <-. intros _. apply list_elem_of_here.
  - intros ?. apply list_elem_of_further. by apply IH.
Qed.

Lemma lookup_prop_key k ps : k ∈ prop_keys ps → is_Some (lookup_prop k ps).
Proof.
  induction ps as [|[k' v'] ps IH]; cbn.
  - by intros ?%elem_of_nil.
  - intros [->|Hin]%elem_of_cons.
    + rewrite String.eqb_refl. eauto.
    + destruct (String.eqb k k'); eauto.
Qed.

Lemma lookup_prop_elem k v ps : lookup_prop k ps = Some v → (k, v) ∈ ps.
Proof.
  induction ps as [|[k' v'] ps IH]; cbn; [done|].
  destruct (String.eqb k k') eqn:E.
  - apply String.eqb_eq in E as <-. intros [= <-]. apply list_elem_of_here.
  - intros ?. apply list_elem_of_further. by apply IH.
Qed.

Lemma lookup_prop_NoDup k v ps :
  NoDup (prop_keys ps) → (k, v) ∈ ps → lookup_prop k ps = Some v.
Proof.
  induction ps as [|[k' v'] ps IH]; cbn.
  - by intros _ ?%elem_of_nil.
  - intros [Hnotin Hnd]%NoDup_cons [[= -> ->]|Hin]%elem_of_cons.
    + by rewrite String.eqb_refl.
    + destruct (String.eqb k k') eqn:E; [|by apply IH].
      apply String.eqb_eq in E as <-. destruct Hnotin.
      apply (list_elem_of_fmap_2 fst) in Hin. done.
Qed.

Lemma keys_update_in k v ps :
  k ∈ prop_keys ps → prop_keys (update_prop k v ps) = prop_keys ps.
Proof.
  induction ps as [|[k' v'] ps IH]; cbn.
  - by intros ?%elem_of_nil.
  - intros Hin. destruct (String.eqb k k') eqn:E; cbn.
    + by apply String.eqb_eq in E as <-.
    + f_equal. apply IH. apply elem_of_cons in Hin as [->|]; [|done].
      by rewrite String.eqb_refl in E.
Qed.
End prop_lemmas.

Section write_lemmas.
Implicit Types (h : heap) (o : object) (st : state).

Lemma set_prop_run st l o k x :
  st_heap st !! l = Some o →
  set_prop (VRef l) k x st
  = (set_heap st (<[l := Obj (okind o) (update_prop k x (oprops o))]> (st_heap st)),
   Ok tt).
Proof. intros E. unfold set_prop, write_prop. by rewrite E. Qed.

Lemma get_prop_run st v k : get_prop v k st = (st, read_prop (st_heap st) v k).
Proof. reflexivity. Qed.

Lemma read_prop_ref h l o k :
  h !! l = Some o → read_prop h (VRef l) k = Ok (default VUndef (lookup_prop k (oprops o))).
Proof. intros E. cbn. by rewrite E. Qed.

Lemma read_prop_agree h h' v k :
  (∀ l, v = VRef l → h' !! l = h !! l) → read_prop h' v k = read_prop h v k.
Proof. destruct v; try done. intros E. cbn. by rewrite E. Qed.

Lemma read_prop_total h v k :
  v ≠ VUndef → v ≠ VNull → ∃ x, read_prop h v k = Ok x.
Proof.
  destruct v; try done; intros _ _; cbn; eauto.
  - destruct (string_index s k); eauto. destruct (String.eqb k "length"); eauto.
  - destruct (h !! l); eauto.
Qed.

Lemma instanceof_agree h h' v :
  (∀ l, v = VRef l → h' !! l = h !! l) →
  instanceof_Function h' v = instanceof_Function h v.
Proof. destruct v; try done. intros E. cbn. by rewrite E. Qed.

Lemma instanceof_valid h v : instanceof_Function h v = true → valid h v.
Proof.
  destruct v; try done. cbn. destruct (h !! l) eqn:E; [|done].
  intros _. by apply lookup_lt_Some in E.
Qed.

Lemma set_heap_set_heap st h h' : set_heap (set_heap st h) h' = set_heap st h'.
Proof. reflexivity. Qed.

Lemma set_heap_id st : set_heap st (st_heap st) = st.
Proof. by destruct st. Qed.
End write_lemmas.

(** ** [_.assign] and [_.extend] *)

Section assign.
Implicit Types (h : heap) (st : state).

Lemma assign_loop st l src ks :
  l < length (st_heap st) →
  (ks ≠ [] → src ≠ VUndef ∧ src ≠ VNull) →
  ∃ h',
  for_each ks (λ k, x ← get_prop src k; set_prop (VRef l) k x) st
  = (set_heap st h', Ok tt)
  ∧ length h' = length (st_heap st)
  ∧ (∀ l', l' ≠ l → h' !! l' = st_heap st !! l')
  ∧ (okind <$> h' !! l) = (okind <$> st_heap st !! l).
Proof.
  intros Hl Hsrc. revert st Hl.
  induction ks as [|k ks IH]; intros st Hl.
  - exists (st_heap st). by rewrite set_heap_id.
  - destruct Hsrc as [Hu Hn]; [done|].
    destruct (read_prop_total (st_heap st) src k Hu Hn) as [x Hx].
    destruct (lookup_lt_is_Some_2 _ _ Hl) as [o Ho].
    set (st1 := set_heap st (<[l := Obj (okind o) (update_prop k x (oprops o))]> (st_heap st))).
    destruct (IH (λ _, conj Hu Hn) st1) as (h' & E & Hlen & Hfr & Hk).
    { cbn. by rewrite length_insert. }
    exists h'. split; [|split; [|split]].
    + cbn [for_each]. eapply bind_ok; [|exact E].
      eapply bind_ok; [by rewrite get_prop_run, Hx|].
      by apply set_prop_run.
    + rewrite Hlen. cbn. by rewrite length_insert.
    + intros l' Hne. rewrite Hfr by done. cbn. by rewrite list_lookup_insert_ne.
    + rewrite Hk. cbn. rewrite list_lookup_insert_eq by done. by rewrite Ho.
Qed.

Lemma assign_props_frame st l src :
  l < length (st_heap st) →
  ∃ h',
  assign_props (VRef l) src st = (set_heap st h', Ok (VRef l))
  ∧ length h' = length (st_heap st)
  ∧ (∀ l', l' ≠ l → h' !! l' = st_heap st !! l')
  ∧ (okind <$> h' !! l) = (okind <$> st_heap st !! l).
Proof.
  intros Hl.
  destruct (assign_loop st l src (for_in_keys (st_heap st) src) Hl)
    as (h' & E & ?).
  { destruct src; try done. }
  exists h'. split; [|done]. unfold assign_props.
  eapply bind_ok; [reflexivity|]. cbn beta.
  eapply bind_ok; [exact E|]. reflexivity.
Qed.
End assign.

(** ** [set]: the children of a literal document *)

Lemma for_each_app {A} (ks1 ks2 : list A) (body : A → M unit) st st1 :
  for_each ks1 body st = (st1, Ok tt) →
  for_each (ks1 ++ ks2) body st = for_each ks2 body st1.
Proof.
  revert st. induction ks1 as [|k ks1 IH]; intros st; cbn.
  - by intros [= ->].
  - unfold mbind, M_bind. destruct (body k st) as [st' [[]|e]]; [|done].
    apply IH.
Qed.

Section set_children.
Context `{FunctionLaws}.
Context (st0 : state) (tl cl dl fl : loc) (S c m : value) (fobj : object).
Context (Hid : identity_at (st_heap st0) tl cl S c m).
Context (Hfn : functions_at (st_heap st0) tl cl dl fl fobj).

Let h0 := st_heap st0.
Let this := VRef tl.
Let data := VRef dl.

Local Abbreviation set_inv := (set_inv h0 fl S c m fobj).
Local Abbreviation materialised := (materialised S c m).

Lemma set_inv_start : set_inv [] h0.
Proof.
  destruct Hfn as (_ & Hfl & _).
  split; [done|]. split; [done|].
  exists (oprops fobj). split; [by destruct fobj|]. split; [done|].
  split; [done|]. by intros k ?%elem_of_nil.
Qed.

Lemma set_inv_kind done hi l :
  set_inv done hi → l < length h0 → okind <$> hi !! l = okind <$> h0 !! l.
Proof.
  intros (_ & Hold & psi & Hfl & _) Hl.
  destruct (decide (l = fl)) as [Heq|Hne]; [|by rewrite Hold].
  destruct Hfn as (_ & Hfl0 & _). fold h0 in Hfl0. by rewrite Heq, Hfl, Hfl0.
Qed.

Lemma set_inv_instanceof done hi v :
  set_inv done hi → valid h0 v →
  instanceof_Function hi v = instanceof_Function h0 v.
Proof.
  intros Hinv Hv. destruct v as [| | | | |l]; try done. cbn in Hv.
  pose proof (set_inv_kind done hi l Hinv Hv) as Hk. cbn.
  destruct (hi !! l), (h0 !! l); cbn in Hk; try done.
  injection Hk as Hk. by rewrite Hk.
Qed.

Lemma set_inv_reads done hi :
  set_inv done hi →
  read_prop hi this "_S" = Ok S
  ∧ read_path hi this ["_config"; "component"] = Ok c
  ∧ read_path hi this ["_config"; "module"] = Ok m
  ∧ read_prop hi data "functions" = Ok (VRef fl).
Proof.
  intros (_ & Hold & _).
  destruct Hid as (HS & Hcfg & Htl & Hcl & Hc & Hm & _).
  destruct Hfn as (Hf & _ & Hdl & Hft & Hfc & Hfd & _).
  fold h0 in HS, Hcfg, Htl, Hcl, Hc, Hm, Hf, Hdl.
  assert (∀ l k, l < length h0 → l ≠ fl →
    read_prop hi (VRef l) k = read_prop h0 (VRef l) k) as Hr.
  { intros l k ??. apply read_prop_agree. intros ? [= <-]. by apply Hold. }
  unfold this, data. cbn [read_path].
  rewrite !Hr by done. rewrite HS, Hcfg, Hf.
  rewrite !Hr by done. by rewrite Hc, Hm.
Qed.

Lemma set_inv_entry done hi k :
  set_inv done hi → k ∉ done →
  read_prop hi (VRef fl) k = Ok (default VUndef (lookup_prop k (oprops fobj))).
Proof.
  intros (_ & _ & psi & Hfl & _ & Hrest & _) Hk.
  rewrite (read_prop_ref _ _ _ _ Hfl). cbn [oprops]. by rewrite Hrest.
Qed.

(** One literal entry is turned into an instance. *)
Lemma set_child_ok done hi k x :
  set_inv done hi → k ∉ done →
  lookup_prop k (oprops fobj) = Some x →
  k ≠ EmptyString → valid h0 x →
  instanceof_Function h0 x = false →
  ∃ h', set_child this data k (set_heap st0 hi) = (set_heap st0 h', Ok tt)
  ∧ set_inv (done ++ [k]) h'.
Proof.
  intros Hinv Hk Hx Hne Hvx Hlit.
  destruct (set_inv_reads _ _ Hinv) as (RS & Rc & Rm & Rf).
  pose proof Hinv as (Hlen & Hold & psi & Hfl & Hkeys & Hrest & Hdone).
  destruct Hid as (_ & _ & Htl & Hcl & _ & _ & Tc & Tm).
  destruct Hfn as (_ & Hfl0 & Hdl & Hft & Hfc & Hfd & Hnd & Hall).
  fold h0 in Htl, Hcl, Hfl0, Hdl.
  assert (fl < length h0) as Hfllt by by eapply lookup_lt_Some.
  assert (read_path hi data ["functions"; k] = Ok x) as Rx.
  { cbn [read_path]. by rewrite Rf, (set_inv_entry done), Hx. }
  assert (truthy (VStr k) = true) as Tk.
  { cbn. apply negb_true_iff, String.eqb_neq. done. }
  destruct (F_new_spec (set_heap st0 hi) S c m (VStr k) Tc Tm Tk)
    as (L & l & Enew & Hl & Hinst).
  cbn [st_heap set_heap] in Enew, Hl, Hinst.
  pose proof (instanceof_valid _ _ Hinst) as Hlv. cbn in Hlv.
  destruct (F_set_spec (set_heap st0 (hi ++ L)) l x Hinst)
    as (h2 & Eset & Hlen2 & Hfr2 & Hinst2).
  cbn [st_heap set_heap] in Eset, Hlen2, Hfr2.
  assert (h2 !! fl = Some (Obj (okind fobj) psi)) as Hfl2.
  { rewrite Hfr2; [|lia|rewrite length_app; lia]. by rewrite lookup_app_l by lia. }
  set (h3 := <[fl := Obj (okind fobj) (update_prop k (VRef l) psi)]> h2).
  exists h3. split.
  - unfold set_child.
    eapply bind_ok; [by rewrite get_path_run; cbn [st_heap set_heap]; rewrite Rx|].
    eapply bind_ok; [reflexivity|]. cbn beta. cbn [st_heap set_heap].
    rewrite (set_inv_instanceof _ _ _ Hinv Hvx), Hlit.
    eapply bind_ok; [by rewrite get_prop_run; cbn [st_heap set_heap]; rewrite RS|].
    eapply bind_ok; [by rewrite get_path_run; cbn [st_heap set_heap]; rewrite Rc|].
    eapply bind_ok; [by rewrite get_path_run; cbn [st_heap set_heap]; rewrite Rm|].
    eapply bind_ok; [exact Enew|]. cbn beta.
    rewrite set_heap_set_heap.
    assert (read_prop (hi ++ L) data "functions" = Ok (VRef fl)) as Rf'.
    { unfold data. rewrite read_prop_old by (cbn; lia). exact Rf. }
    eapply bind_ok; [by rewrite get_prop_run; cbn [st_heap set_heap]; rewrite Rf'|].
    eapply bind_ok.
    { rewrite get_path_run. cbn [st_heap set_heap read_path]. rewrite Rf'.
      rewrite read_prop_old by (cbn; lia).
      by rewrite (set_inv_entry done), Hx. }
    eapply bind_ok; [exact Eset|]. cbn beta. rewrite set_heap_set_heap.
    rewrite (set_prop_run _ fl (Obj (okind fobj) psi)) by done. reflexivity.
  - assert (∀ l', l' < length hi → l' ≠ fl → h3 !! l' = hi !! l') as Hfr3.
    { intros l' Hl' Hne'. unfold h3. rewrite list_lookup_insert_ne by done.
      rewrite Hfr2; [|lia|rewrite length_app; lia]. by rewrite lookup_app_l. }
    split; [unfold h3; rewrite length_insert; rewrite length_app in Hlen2; lia|].
    split; [intros l' Hl' Hne'; rewrite Hfr3 by (done || lia); by apply Hold|].
    exists (update_prop k (VRef l) psi). split.
    { unfold h3. rewrite list_lookup_insert_eq; [done|].
      by eapply lookup_lt_Some. }
    split.
    { rewrite keys_update_in; [done|]. rewrite Hkeys.
      by eapply lookup_prop_Some_key. }
    split.
    { intros k' Hk'. rewrite not_elem_of_app, not_elem_of_cons in Hk'.
      destruct Hk' as (Hk' & Hk'' & _).
      rewrite lookup_update_ne by done. by apply Hrest. }
    intros k' [Hin | ->%list_elem_of_singleton]%elem_of_app.
    + destruct (Hdone k' Hin) as (x' & v' & Hx' & Hv' & [l1 [-> [Hl1 Hi1]]] & Hm').
      exists x', (VRef l1). split; [done|]. split.
      { rewrite lookup_update_ne; [done|]. by intros ->. }
      split; [|done]. exists l1. split; [done|]. split; [done|].
      pose proof (instanceof_valid _ _ Hi1) as Hv1. cbn in Hv1.
      rewrite <- Hi1. apply instanceof_agree. intros ? [= <-].
      apply Hfr3; lia.
    + exists x, (VRef l). split; [done|]. split; [apply lookup_update_eq|].
      split.
      * exists l. split; [done|]. split; [lia|].
        rewrite <- Hinst2. apply instanceof_agree. intros ? [= <-].
        unfold h3. apply list_lookup_insert_ne. lia.
      * by eexists _, _, _, _.
Qed.

(** A run of literal entries. *)
Lemma set_children_ok ks done hi :
  set_inv done hi → NoDup ks → (∀ k, k ∈ ks → k ∉ done) →
  (∀ k, k ∈ ks →
   ∃ x, lookup_prop k (oprops fobj) = Some x
  ∧ k ≠ EmptyString ∧ valid h0 x
  ∧ instanceof_Function h0 x = false) →
  ∃ h', for_each ks (set_child this data) (set_heap st0 hi)
  = (set_heap st0 h', Ok tt)
  ∧ set_inv (done ++ ks) h'.
Proof.
  revert done hi. induction ks as [|k ks IH]; intros done hi Hinv Hnd Hdis Hlit.
  - exists hi. by rewrite app_nil_r.
  - apply NoDup_cons in Hnd as [Hk Hnd].
    destruct (Hlit k) as (x & Hx & Hne & Hvx & Hlx); [apply list_elem_of_here|].
    destruct (set_child_ok done hi k x) as (h1 & E1 & Hinv1); auto.
    { apply Hdis, list_elem_of_here. }
    destruct (IH (done ++ [k]) h1) as (h' & E' & Hinv'); auto.
    { intros k' Hin [Hd | ->%list_elem_of_singleton]%elem_of_app; [|done].
      by apply (Hdis k'); [apply list_elem_of_further|]. }
    { intros k' Hin. apply Hlit. by apply list_elem_of_further. }
    exists h'. split; [|by rewrite <- app_assoc in Hinv'].
    cbn [for_each]. eapply bind_ok; [exact E1|exact E'].
Qed.

(** An entry that holds an instance stops the loop. *)
Lemma set_child_throws done hi k x :
  set_inv done hi → k ∉ done →
  lookup_prop k (oprops fobj) = Some x →
  instanceof_Function h0 x = true →
  set_child this data k (set_heap st0 hi)
  = (set_heap st0 hi, Throw (SError msg_set_instance)).
Proof.
  intros Hinv Hk Hx Hix.
  destruct (set_inv_reads _ _ Hinv) as (RS & Rc & Rm & Rf).
  pose proof Hinv as (Hlen & Hold & psi & Hfl & Hkeys & Hrest & Hdone).
  unfold set_child.
  eapply bind_ok.
  { rewrite get_path_run. cbn [st_heap set_heap read_path].
    by rewrite Rf, (set_inv_entry done), Hx. }
  eapply bind_ok; [reflexivity|]. cbn beta.
  cbn [st_heap set_heap from_option id].
  rewrite (set_inv_instanceof _ _ _ Hinv (instanceof_valid _ _ Hix)), Hix.
  reflexivity.
Qed.

(** All entries are literals: the whole of [set]. *)
Lemma set_ok :
  Forall (λ p, instanceof_Function h0 p.2 = false) (oprops fobj) →
  ∃ h' psi,
  set this data st0 = (set_heap st0 h', Ok this)
  ∧ length h0 ≤ length h'
  ∧ (∀ l, l < length h0 → l ≠ fl → l ≠ tl → h' !! l = h0 !! l)
  ∧ h' !! fl = Some (Obj (okind fobj) psi)
  ∧ prop_keys psi = prop_keys (oprops fobj)
  ∧ ∀ k x, (k, x) ∈ oprops fobj →
  ∃ v', lookup_prop k psi = Some v'
  ∧ new_instance (length h0) h' v'
  ∧ materialised k x v'.
Proof.
  intros Hlit.
  pose proof Hfn as (Hf & Hfl0 & Hdl & Hft & Hfc & Hfd & Hnd & Hall).
  pose proof Hid as (_ & _ & Htl & _).
  fold h0 in Hf, Hfl0, Hdl, Hall, Htl.
  destruct (set_children_ok (prop_keys (oprops fobj)) [] h0)
    as (h1 & E1 & Hinv1); auto using set_inv_start.
  { intros k _. apply not_elem_of_nil. }
  { intros k [[k' x] [-> Hin]]%list_elem_of_fmap. cbn.
    rewrite Forall_forall in Hall, Hlit.
    destruct (Hall _ Hin) as [??]. exists x.
    split; [by apply lookup_prop_NoDup|]. split; [done|]. split; [done|].
    by apply (Hlit _ Hin). }
  cbn [app] in Hinv1.
  pose proof Hinv1 as (Hlen1 & Hold1 & psi & Hfl1 & Hkeys & Hrest & Hdone).
  destruct (assign_props_frame (set_heap st0 h1) tl data)
    as (h' & E2 & Hlen2 & Hfr2 & Hk2).
  { cbn. lia. }
  cbn [st_heap set_heap] in Hlen2, Hfr2. rewrite set_heap_set_heap in E2.
  exists h', psi. split; [|split; [|split; [|split; [|split]]]].
  - unfold set.
    eapply bind_ok; [by rewrite get_prop_run; fold h0; unfold data; rewrite Hf|].
    eapply bind_ok; [reflexivity|]. cbn beta. fold h0.
    cbn [for_in_keys]. rewrite Hfl0.
    rewrite set_heap_id in E1.
    eapply bind_ok; [exact E1|]. exact E2.
  - lia.
  - intros l Hl Hlf Hlt. rewrite Hfr2 by done. by apply Hold1.
  - by rewrite Hfr2.
  - done.
  - intros k x Hin.
    destruct (Hdone k) as (x' & v' & Hx' & Hv' & [l1 [-> [Hl1 Hi1]]] & Hm').
    { apply list_elem_of_fmap. by exists (k, x). }
    rewrite (lookup_prop_NoDup _ _ _ Hnd Hin) in Hx'. injection Hx' as <-.
    exists (VRef l1). split; [done|]. split; [|done].
    exists l1. split; [done|]. split; [done|].
    rewrite <- Hi1. apply instanceof_agree. intros ? [= <-].
    apply Hfr2. lia.
Qed.

End set_children.

Section set_claims.
Context `{FunctionLaws}.


(** C10: [set(data)] works on the caller's own document: after a call
    on literals the [functions] property of [data] is still the same
    map object, and under every name that object now holds a Function
    instance created by the call, not the literal that was there. *)
Theorem set_replaces_literals_in_its_argument
  st tl cl dl fl S c m fobj :
  identity_at (st_heap st) tl cl S c m →
  functions_at (st_heap st) tl cl dl fl fobj →
  dl ≠ tl →
  Forall (λ p, instanceof_Function (st_heap st) p.2 = false) (oprops fobj) →
  ∃ st',
    set (VRef tl) (VRef dl) st = (st', Ok (VRef tl))
    ∧ read_prop (st_heap st') (VRef dl) "functions" = Ok (VRef fl)
    ∧ ∀ k x, (k, x) ∈ oprops fobj →
        ∃ v', read_prop (st_heap st') (VRef fl) k = Ok v'
              ∧ v' ≠ x
              ∧ new_instance (length (st_heap st)) (st_heap st') v'.
Proof.
  intros Hid Hfn Hdt Hlit.
  destruct (set_ok st tl cl dl fl S c m fobj Hid Hfn Hlit)
    as (h' & psi & E & Hlen & Hold & Hfl & Hkeys & Hall).
  destruct Hfn as (Hf & Hfl0 & Hdl & Hft & Hfc & Hfd & Hnd & Hval).
  exists (set_heap st h'). split; [done|]. cbn [st_heap set_heap]. split.
  - rewrite <- Hf. apply read_prop_agree. intros ? [= <-]. by apply Hold.
  - intros k x Hin. destruct (Hall k x Hin) as (v' & Hv' & Hnew & _).
    exists v'. split; [|split; [|done]].
    + by rewrite (read_prop_ref _ _ _ _ Hfl); cbn [oprops]; rewrite Hv'.
    + destruct Hnew as (l & -> & Hl & _). intros <-.
      rewrite Forall_forall in Hval. destruct (Hval _ Hin) as [_ Hv].
      cbn in Hv. lia.
Qed.
End set_claims.

(** ** Snapshots *)

Lemma tree_ind' (P : tree → Prop) :
  P TUndef → P TNull → (∀ b, P (TBool b)) → (∀ n, P (TNum n)) →
  (∀ s, P (TStr s)) →
  (∀ k ps, Forall (λ p, P p.2) ps → P (TObj k ps)) →
  ∀ t, P t.
Proof.
  intros HU HN HB HZ HS HO.
  fix IH 1. intros [| | | | |k ps];
    [apply HU|apply HN|apply HB|apply HZ|apply HS|].
  apply HO. induction ps as [|[key t] ps IHps]; constructor;
    [apply IH|apply IHps].
Qed.

Section snapshot_lemmas.
Implicit Types (h : heap) (v : value) (t : tree).

Lemma snapshot_ref f h l :
  snapshot (S f) h (VRef l)
  = o ← h !! l;
  ps ← mapM (λ p : string * value, t ← snapshot f h p.2; Some (p.1, t)) (oprops o);
  Some (TObj (okind o) ps).
Proof. reflexivity. Qed.

Lemma snapshot_prim f h v :
  (∀ l, v ≠ VRef l) → snapshot f h v = snapshot 0 h v.
Proof. destruct v, f; try done. intros Hv. by destruct (Hv l). Qed.

Lemma snapshot_mono f f' h v t :
  f ≤ f' → snapshot f h v = Some t → snapshot f' h v = Some t.
Proof.
  revert f' v t. induction f as [|f IH]; intros f' v t Hle.
  - destruct v; try done; by destruct f'.
  - destruct f' as [|f']; [lia|].
    destruct v; try done. rewrite !snapshot_ref.
    destruct (h !! l) as [o|]; [|done]. cbn.
    destruct (mapM _ (oprops o)) as [ps|] eqn:E; [|done]. cbn. intros [= <-].
    apply mapM_Some in E.
    assert (mapM (λ p : string * value, t ← snapshot f' h p.2; Some (p.1, t))
      (oprops o) = Some ps) as ->; [|done].
    apply mapM_Some. eapply Forall2_impl; [exact E|].
    intros [k x] [k' t']. cbn.
    destruct (snapshot f h x) eqn:Ex; [|done]. cbn.
    by rewrite (IH f' x _ ltac:(lia) Ex).
Qed.

(** A snapshot only reads the objects it goes through: a heap that has
    the same objects at the locations [P], which refer to one another
    only, gives the same snapshot. *)
Lemma snapshot_agree (P : loc → Prop) f h h' v t :
  (∀ l o, P l → h !! l = Some o →
  h' !! l = Some o
  ∧ Forall (λ p, match p.2 with VRef l' => P l' | _ => True end) (oprops o)) →
  match v with VRef l => P l | _ => True end →
  snapshot f h v = Some t → snapshot f h' v = Some t.
Proof.
  intros HP. revert v t. induction f as [|f IH]; intros v t Hv.
  - by destruct v.
  - destruct v; try done. rewrite !snapshot_ref.
    destruct (h !! l) as [o|] eqn:Ho; [|done]. cbn.
    destruct (HP l o Hv Ho) as [-> Hall]. cbn.
    destruct (mapM _ (oprops o)) as [ps|] eqn:E; [|done]. cbn. intros [= <-].
    apply mapM_Some in E.
    assert (mapM (λ p : string * value, t ← snapshot f h' p.2; Some (p.1, t))
      (oprops o) = Some ps) as ->; [|done].
    apply mapM_Some.
    induction E as [|[k x] [k' t'] xs ts Hx E IHE]; [constructor|].
    apply Forall_cons in Hall as [Hx' Hall]. constructor; [|by apply IHE].
    cbn in *. destruct (snapshot f h x) eqn:Ex; [|done].
    by rewrite (IH x _ Hx' Ex).
Qed.

(** The first [n] objects, when they refer to one another only. *)
Lemma snapshot_below n f h h' v t :
  closed_below n h → (∀ l, l < n → h' !! l = h !! l) →
  within 0 n v →
  snapshot f h v = Some t → snapshot f h' v = Some t.
Proof.
  intros Hc Hag Hv. apply (snapshot_agree (λ l, l < n)).
  - intros l o Hl Ho. split; [by rewrite Hag|].
    eapply Forall_impl; [exact (Hc l o Hl Ho)|].
    intros [k x]. destruct x; cbn; try done. lia.
  - destruct v; cbn in *; try done. lia.
Qed.

(** The objects from [n] on, when they refer to one another only. *)
Lemma snapshot_above n f h h' v t :
  (∀ l o, n ≤ l → h !! l = Some o →
  h' !! l = Some o ∧ Forall (λ p, within n (length h) p.2) (oprops o)) →
  within n (length h) v →
  snapshot f h v = Some t → snapshot f h' v = Some t.
Proof.
  intros Hag Hv. apply (snapshot_agree (λ l, n ≤ l)).
  - intros l o Hl Ho. destruct (Hag l o Hl Ho) as [-> Hall]. split; [done|].
    eapply Forall_impl; [exact Hall|].
    intros [k x]. destruct x; cbn; try done. lia.
  - destruct v; cbn in *; try done. lia.
Qed.
End snapshot_lemmas.

(** ** [alloc_tree]: copies are laid out in new objects *)

Section alloc_lemmas.
Implicit Types (h : heap) (v : value) (t : tree).

Lemma alloc_tree_obj k ps h :
  alloc_tree (TObj k ps) h
  = let '(h1, vs) := alloc_props ps h in (h1 ++ [Obj k vs], VRef (length h1)).
Proof.
  cbn [alloc_tree].
  assert (∀ h,
    (fix go (ps : list (string * tree)) (h : heap) :=
    match ps with
    | [] => (h, [])
    | (key, t') :: ps' =>
    let '(h1, v) := alloc_tree t' h in
    let '(h2, vs) := go ps' h1 in (h2, (key, v) :: vs)
    end) ps h = alloc_props ps h) as ->; [|done].
  induction ps as [|[key t] ps IH]; intros h'; [done|].
  cbn [alloc_props]. destruct (alloc_tree t h') as [h1 v]. by rewrite IH.
Qed.

Lemma within_weaken a b a' b' v : a' ≤ a → b ≤ b' → within a b v → within a' b' v.
Proof. destruct v; cbn; try done. lia. Qed.

Lemma placed_weaken a b a' b' t v h h' :
  a' ≤ a → b ≤ b' → (∀ l, a ≤ l < b → h' !! l = h !! l) →
  placed a b t v h → placed a' b' t v h'.
Proof.
  intros Ha Hb Hag [Hw Hs]. split; [by eapply within_weaken|].
  intros h'' Hag'. apply Hs. intros l Hl. rewrite <- Hag by done.
  apply Hag'. lia.
Qed.

Lemma laid_out_agree h h' a b ps vs :
  (∀ l, a ≤ l < b → h' !! l = h !! l) →
  laid_out h a b ps vs → laid_out h' a b ps vs.
Proof.
  intros Hag Hl. induction Hl as [|a a' b k t v ps vs Ha Hp Hl IH].
  - constructor.
  - assert (a' ≤ b) as Hb by (clear -Hl; induction Hl; lia).
    econstructor; [exact Ha| |].
    + eapply placed_weaken; [..|exact Hp]; [lia|lia|].
      intros l Hl'. apply Hag. lia.
    + apply IH. intros l Hl'. apply Hag. lia.
Qed.

Lemma laid_out_le h a b ps vs : laid_out h a b ps vs → a ≤ b.
Proof. induction 1; lia. Qed.

Lemma laid_out_keys h a b ps vs : laid_out h a b ps vs → prop_keys vs = prop_keys ps.
Proof. induction 1; cbn; [done|]. by f_equal. Qed.

(** The snapshot of the new parent [Obj k vs], once its children are
    laid out below it. *)
Lemma laid_out_snapshot h a b ps vs :
  laid_out h a b ps vs →
  mapM (λ p : string * value,
  t ← snapshot (foldr (λ p d, Nat.max (tree_depth p.2) d) 0 ps) h p.2;
  Some (p.1, t)) vs = Some ps.
Proof.
  intros Hl. apply mapM_Some.
  induction Hl as [|a a' b k t v ps vs Ha [Hw Hs] Hl IH]; [constructor|].
  cbn [foldr]. constructor.
  - cbn. rewrite (snapshot_mono (tree_depth t) _ h v t); [done|lia|].
    by apply Hs.
  - eapply Forall2_impl; [exact IH|]. intros [k1 x] [k2 t2]. cbn.
    destruct (snapshot _ h x) eqn:E; [|done]. cbn.
    erewrite (snapshot_mono _ _ h x); [done| |exact E]. lia.
Qed.

Lemma alloc_tree_spec t : ∀ h h' v,
  alloc_tree t h = (h', v) →
  ∃ L, h' = h ++ L
   ∧ self_contained (length h) L
   ∧ tree_depth t ≤ length L
   ∧ placed (length h) (length h') t v h'.
Proof.
  induction t as [| | | | |k ps IH] using tree_ind'; intros h h' v;
    try (intros [= <- <-]; exists []; rewrite app_nil_r;
    split; [done|]; split; [constructor|]; split; [done|];
    split; [done|]; by intros).
  rewrite alloc_tree_obj.
  destruct (alloc_props ps h) as [h1 vs] eqn:E. intros [= <- <-].
  assert (∃ L1, h1 = h ++ L1
    ∧ self_contained (length h) L1
    ∧ foldr (λ p d, Nat.max (tree_depth p.2) d) 0 ps ≤ length L1
    ∧ laid_out h1 (length h) (length h1) ps vs
    ∧ Forall (λ p, within (length h) (length h1) p.2) vs)
    as (L1 & -> & Hsc & Hd & Hl & Hw).
  { clear k. revert h h1 vs E.
    induction ps as [|[key t] ps IHps]; intros h h1 vs.
    - intros [= <- <-]. exists []. rewrite app_nil_r.
      repeat split; try constructor.
    - apply Forall_cons in IH as [IHt IH]. cbn [snd] in IHt.
      cbn [alloc_props].
      destruct (alloc_tree t h) as [h2 v] eqn:Et.
      destruct (alloc_props ps h2) as [h3 vs'] eqn:Ep. intros [= <- <-].
      destruct (IHt _ _ _ Et) as (L & -> & Hsc & Hd & Hp).
      destruct (IHps IH _ _ _ Ep) as (L' & -> & Hsc' & Hd' & Hl' & Hw').
      exists (L ++ L'). rewrite !length_app in *.
      split; [by rewrite app_assoc|]. split; [|split; [|split]].
      + unfold self_contained in *. rewrite length_app.
        apply Forall_app. split.
        * eapply Forall_impl; [exact Hsc|]. intros o Ho.
          eapply Forall_impl; [exact Ho|]. intros p. apply within_weaken; lia.
        * eapply Forall_impl; [exact Hsc'|]. intros o Ho.
          eapply Forall_impl; [exact Ho|]. intros p. apply within_weaken; lia.
      + cbn [foldr snd]. lia.
      + econstructor; [| |exact Hl']; [lia|].
        eapply placed_weaken; [..|exact Hp]; [lia|lia|].
        intros l Hl. apply lookup_app_l. rewrite length_app. lia.
      + constructor.
        * destruct Hp as [Hp _]. revert Hp. apply within_weaken; lia.
        * eapply Forall_impl; [exact Hw'|]. intros p. apply within_weaken; lia. }
  exists (L1 ++ [Obj k vs]). rewrite !length_app in *. cbn [length].
  split; [by rewrite app_assoc|]. split; [|split; [|split]].
  - unfold self_contained in *. rewrite length_app. cbn [length].
    apply Forall_app. split.
    + eapply Forall_impl; [exact Hsc|]. intros o Ho.
      eapply Forall_impl; [exact Ho|]. intros p. apply within_weaken; lia.
    + constructor; [|constructor]. cbn.
      eapply Forall_impl; [exact Hw|]. intros p. apply within_weaken; lia.
  - cbn [tree_depth]. lia.
  - cbn. lia.
  - intros h' Hag. cbn [tree_depth]. rewrite snapshot_ref.
    rewrite Hag by lia.
    rewrite lookup_app_r by (rewrite length_app; lia).
    rewrite length_app, Nat.sub_diag. cbn.
    rewrite (laid_out_snapshot h' (length h) (length h + length L1) ps vs); [done|].
    eapply laid_out_agree; [|exact Hl].
    intros l Hl'. rewrite Hag by lia. apply lookup_app_l. rewrite length_app. lia.
Qed.
End alloc_lemmas.

(** ** Snapshots of property lists *)

Section snap_props_lemmas.
Implicit Types (h : heap) (vs : list (string * value)) (ps : list (string * tree)).

Lemma mapM_snap_props f h vs ps :
  mapM (λ p : string * value, t ← snapshot f h p.2; Some (p.1, t)) vs = Some ps
  ↔ snap_props f h vs ps.
Proof.
  rewrite mapM_Some. unfold snap_props. split; intros HF.
  - eapply Forall2_impl; [exact HF|]. intros [k v] [k' t]. cbn.
    destruct (snapshot f h v); cbn; [|done]. by intros [= -> ->].
  - eapply Forall2_impl; [exact HF|]. intros [k v] [k' t]. cbn.
    by intros [-> ->].
Qed.

Lemma snapshot_obj f h l k ps :
  snapshot (S f) h (VRef l) = Some (TObj k ps)
  ↔ ∃ o, h !! l = Some o ∧ okind o = k ∧ snap_props f h (oprops o) ps.
Proof.
  rewrite snapshot_ref. split.
  - destruct (h !! l) as [o|]; [|done]. cbn.
    destruct (mapM _ (oprops o)) as [ps'|] eqn:E; [|done]. cbn.
    intros [= <- <-]. exists o. by rewrite <- mapM_snap_props.
  - intros (o & -> & <- & Hs). cbn.
    apply mapM_snap_props in Hs. by rewrite Hs.
Qed.

Lemma snapshot_obj_inv f h v k ps :
  snapshot f h v = Some (TObj k ps) →
  ∃ f' l o, f = S f' ∧ v = VRef l ∧ h !! l = Some o ∧ okind o = k
  ∧ snap_props f' h (oprops o) ps.
Proof.
  destruct v; try (by destruct f). destruct f as [|f']; [done|].
  intros (o & ? & ? & ?)%snapshot_obj. by exists f', l, o.
Qed.

Lemma snap_props_keys f h vs ps : snap_props f h vs ps → prop_keys vs = prop_keys ps.
Proof.
  induction 1 as [|[k v] [k' t] vs ps [Hk _] _ IH]; [done|].
  unfold prop_keys in *. cbn in *. by f_equal.
Qed.

Lemma snap_props_lookup f h vs ps k v :
  snap_props f h vs ps → lookup_prop k vs = Some v →
  ∃ t, lookup_prop k ps = Some t ∧ snapshot f h v = Some t.
Proof.
  induction 1 as [|[k1 v1] [k2 t2] vs ps [Hk Hs] _ IH]; cbn in *; [done|].
  subst k2. destruct (String.eqb k k1); [|done].
  intros [= <-]. by exists t2.
Qed.

Lemma snap_props_elem f h vs ps k v :
  snap_props f h vs ps → (k, v) ∈ vs → ∃ t, (k, t) ∈ ps ∧ snapshot f h v = Some t.
Proof.
  induction 1 as [|[k1 v1] [k2 t2] vs ps [Hk Hs] _ IH]; cbn in *.
  - by intros ?%elem_of_nil.
  - subst k2. intros [[= -> ->]|Hin]%elem_of_cons.
    + exists t2. split; [apply list_elem_of_here|done].
    + destruct (IH Hin) as (t & ? & ?). exists t.
      split; [by apply list_elem_of_further|done].
Qed.

Lemma snap_props_delete f h vs ps k :
  snap_props f h vs ps → snap_props f h (delete_prop k vs) (delete_prop k ps).
Proof.
  induction 1 as [|[k1 v1] [k2 t2] vs ps [Hk Hs] _ IH]; cbn in *; [constructor|].
  subst k2. destruct (String.eqb k k1); [done|]. by constructor.
Qed.

Lemma snap_props_mono f f' h vs ps :
  f ≤ f' → snap_props f h vs ps → snap_props f' h vs ps.
Proof.
  intros Hle HF. eapply Forall2_impl; [exact HF|].
  intros [k v] [k' t] [? ?]. split; [done|]. by eapply snapshot_mono.
Qed.
End snap_props_lemmas.

(** ** [_.cloneDeep] *)

Section clone_lemmas.
Implicit Types (h : heap) (v : value) (t : tree).

Lemma alloc_props_spec ps : ∀ h h1 vs,
  alloc_props ps h = (h1, vs) →
  ∃ L1, h1 = h ++ L1
  ∧ self_contained (length h) L1
  ∧ foldr (λ p d, Nat.max (tree_depth p.2) d) 0 ps ≤ length L1
  ∧ laid_out h1 (length h) (length h1) ps vs.
Proof.
  induction ps as [|[key t] ps IHps]; intros h h1 vs.
  - intros [= <- <-]. exists []. rewrite app_nil_r.
    repeat split; constructor.
  - cbn [alloc_props].
    destruct (alloc_tree t h) as [h2 v] eqn:Et.
    destruct (alloc_props ps h2) as [h3 vs'] eqn:Ep. intros [= <- <-].
    destruct (alloc_tree_spec _ _ _ _ Et) as (L & -> & Hsc & Hd & Hp).
    destruct (IHps _ _ _ Ep) as (L' & -> & Hsc' & Hd' & Hl').
    exists (L ++ L'). rewrite !length_app in *.
    split; [by rewrite app_assoc|]. split; [|split].
    + unfold self_contained in *. rewrite length_app.
      apply Forall_app. split.
      * eapply Forall_impl; [exact Hsc|]. intros o Ho.
        eapply Forall_impl; [exact Ho|]. intros p. apply within_weaken; lia.
      * eapply Forall_impl; [exact Hsc'|]. intros o Ho.
        eapply Forall_impl; [exact Ho|]. intros p. apply within_weaken; lia.
    + cbn [foldr snd]. lia.
    + econstructor; [| |exact Hl']; [lia|].
      eapply placed_weaken; [..|exact Hp]; [lia|lia|].
      intros l Hl. apply lookup_app_l. rewrite length_app. lia.
Qed.

Lemma laid_out_within h a b ps vs :
  laid_out h a b ps vs → Forall (λ p, within a b p.2) vs.
Proof.
  induction 1 as [|a a' b k t v ps vs Ha [Hw _] Hl IH]; constructor.
  - cbn. apply laid_out_le in Hl. revert Hw. apply within_weaken; lia.
  - eapply Forall_impl; [exact IH|]. intros p. apply within_weaken; lia.
Qed.

(** The clone of an object: its children are laid out in new objects,
    the clone itself comes last. *)
Lemma cloneDeep_obj st v k ps :
  snapshot (length (st_heap st)) (st_heap st) v = Some (TObj k ps) →
  ∃ L1 vs,
  cloneDeep v st
  = (set_heap st (st_heap st ++ L1 ++ [Obj k vs]),
   Ok (VRef (length (st_heap st) + length L1)))
  ∧ self_contained (length (st_heap st)) (L1 ++ [Obj k vs])
  ∧ foldr (λ p d, Nat.max (tree_depth p.2) d) 0 ps ≤ length L1
  ∧ laid_out (st_heap st ++ L1 ++ [Obj k vs]) (length (st_heap st))
  (length (st_heap st) + length L1) ps vs.
Proof.
  intros Hs. unfold cloneDeep. rewrite Hs, alloc_tree_obj.
  destruct (alloc_props ps (st_heap st)) as [h1 vs] eqn:E.
  destruct (alloc_props_spec _ _ _ _ E) as (L1 & -> & Hsc & Hd & Hl).
  exists L1, vs. rewrite length_app in *.
  split; [by rewrite <- app_assoc|]. split; [|split; [done|]].
  - unfold self_contained in *. rewrite length_app. cbn [length].
    apply Forall_app. split.
    + eapply Forall_impl; [exact Hsc|]. intros o Ho.
      eapply Forall_impl; [exact Ho|]. intros p. apply within_weaken; lia.
    + constructor; [|constructor]. cbn.
      eapply Forall_impl; [exact (laid_out_within _ _ _ _ _ Hl)|].
      intros p. apply within_weaken; lia.
  - eapply laid_out_agree; [|exact Hl]. intros l Hl'.
    rewrite app_assoc. apply lookup_app_l. rewrite length_app. lia.
Qed.

(** The roots keep their snapshots in any heap that has the same
    objects where they are laid out. *)
Lemma laid_out_stable h h' a b ps vs f :
  laid_out h a b ps vs →
  (∀ l, a ≤ l < b → h' !! l = h !! l) →
  foldr (λ p d, Nat.max (tree_depth p.2) d) 0 ps ≤ f →
  snap_props f h' vs ps.
Proof.
  intros Hl. revert f. induction Hl as [|a a' b k t v ps vs Ha [Hw Hs] Hl IH];
    intros f Hag Hf; [constructor|].
  pose proof (laid_out_le _ _ _ _ _ Hl). cbn [foldr snd] in Hf.
  constructor.
  - split; [done|]. cbn. apply (snapshot_mono (tree_depth t)); [lia|].
    apply Hs. intros l Hl'. apply Hag. lia.
  - apply IH; [|lia]. intros l Hl'. apply Hag. lia.
Qed.

(** The same when one root, the object at [l0], has been rewritten
    and now has the snapshot [t0]. *)
Lemma laid_out_update h h' a b ps vs f k0 l0 t0 :
  laid_out h a b ps vs →
  lookup_prop k0 vs = Some (VRef l0) →
  (∀ l, a ≤ l < b → l ≠ l0 → h' !! l = h !! l) →
  foldr (λ p d, Nat.max (tree_depth p.2) d) 0 ps ≤ f →
  snapshot f h' (VRef l0) = Some t0 →
  snap_props f h' vs (update_prop k0 t0 ps).
Proof.
  intros Hl. revert f. induction Hl as [|a a' b k t v ps vs Ha [Hw Hs] Hl IH];
    intros f Hk0 Hag Hf H0; [done|].
  pose proof (laid_out_le _ _ _ _ _ Hl). cbn [foldr snd] in Hf.
  cbn [lookup_prop update_prop] in *.
  destruct (String.eqb k0 k) eqn:Ek.
  - injection Hk0 as ->. apply String.eqb_eq in Ek as ->. cbn in Hw.
    constructor; [done|].
    apply (laid_out_stable h _ a' b); [done| |lia].
    intros l Hl'. apply Hag; lia.
  - pose proof (laid_out_within _ _ _ _ _ Hl) as Hwt.
    apply lookup_prop_elem in Hk0 as Hin.
    rewrite Forall_forall in Hwt. specialize (Hwt _ Hin). cbn in Hwt.
    constructor.
    + split; [done|]. cbn. apply (snapshot_mono (tree_depth t)); [lia|].
      apply Hs. intros l Hl'. apply Hag; lia.
    + apply IH; [done| |lia|done]. intros l Hl' ?. apply Hag; [lia|done].
Qed.
End clone_lemmas.

(** ** [get] *)

Lemma read_prop_ref_inv h l k l' :
  read_prop h (VRef l) k = Ok (VRef l') →
  ∃ o, h !! l = Some o ∧ lookup_prop k (oprops o) = Some (VRef l').
Proof.
  cbn. destruct (h !! l) as [o|]; [|done].
  destruct (lookup_prop k (oprops o)) eqn:E; cbn; [|done].
  intros [= ->]. by exists o.
Qed.

Lemma laid_out_lookup h a b ps vs k t :
  laid_out h a b ps vs → lookup_prop k ps = Some t →
  ∃ v a' b', lookup_prop k vs = Some v ∧ placed a' b' t v h ∧ a ≤ a' ∧ b' ≤ b.
Proof.
  induction 1 as [|a a' b k1 t1 v1 ps vs Ha Hp Hl IH]; cbn; [done|].
  pose proof (laid_out_le _ _ _ _ _ Hl).
  destruct (String.eqb k k1).
  - intros [= <-]. exists v1, a, a'. split; [done|]. split; [done|lia].
  - intros Hk. destruct (IH Hk) as (v & a1 & b1 & ? & ? & ? & ?).
    exists v, a1, b1. split; [done|]. split; [done|lia].
Qed.

Lemma Forall2_of_lookup (vs : list (string * value)) (ps : list (string * tree))
    (Q : value → tree → Prop) :
  prop_keys vs = prop_keys ps → NoDup (prop_keys vs) →
  (∀ k, k ∈ prop_keys vs →
        ∃ v t, lookup_prop k vs = Some v ∧ lookup_prop k ps = Some t ∧ Q v t) →
  Forall2 (λ p q, p.1 = q.1 ∧ Q p.2 q.2) vs ps.
Proof.
  revert ps. induction vs as [|[k v] vs IH]; intros [|[k' t] ps]; try done.
  unfold prop_keys. cbn. intros [= <- Hk] [Hnotin Hnd]%NoDup_cons Hall.
  constructor.
  - split; [done|]. cbn.
    destruct (Hall k) as (v' & t' & Hv & Ht & HQ); [apply list_elem_of_here|].
    rewrite String.eqb_refl in Hv, Ht. by simplify_eq.
  - apply IH; [done|done|]. intros k1 Hin.
    destruct (Hall k1) as (v' & t' & Hv & Ht & HQ); [by apply list_elem_of_further|].
    assert (String.eqb k1 k = false) as Hne.
    { apply String.eqb_neq. by intros ->. }
    rewrite Hne in Hv, Ht. by exists v', t'.
Qed.


Section get_lemmas.
Context `{FunctionLaws}.
Context (st : state) (n : nat) (tl fl : loc) (fobj : object).
Context (ko : kind) (ps : list (string * tree)).
Context (Hm : module_at n (st_heap st) tl fl fobj).
Context (HT : snapshot (length (st_heap st)) (st_heap st) (VRef tl)
  = Some (TObj ko ps)).

Let h := st_heap st.
Let this := VRef tl.

(** What the snapshot says about the entity and its children. *)
Lemma entity_shape :
  ∃ f1 ot fps,
  length h = S (S f1)
  ∧ h !! tl = Some ot ∧ okind ot = ko
  ∧ snap_props (S f1) h (oprops ot) ps
  ∧ lookup_prop "functions" (oprops ot) = Some (VRef fl)
  ∧ lookup_prop "functions" ps = Some (TObj (okind fobj) fps)
  ∧ snap_props f1 h (oprops fobj) fps
  ∧ fl < n.
Proof.
  destruct Hm as (Hn & Htl & Hc & Hf & Hfl & Hnd & Hinst). fold h in Hn, Hc, Hf, Hfl.
  apply snapshot_obj_inv in HT as (f0 & l & ot & Hlen & [= <-] & Hot & Hko & Hsp).
  fold h in Hlen, Hot, Hsp.
  apply read_prop_ref_inv in Hf as (ot' & Hot' & Hlf). rewrite Hot in Hot'.
  injection Hot' as <-.
  destruct (snap_props_lookup _ _ _ _ _ _ Hsp Hlf) as (tf & Htf & Hsf).
  destruct f0 as [|f1]; [done|].
  rewrite snapshot_ref, Hfl in Hsf. cbn in Hsf.
  destruct (mapM _ (oprops fobj)) as [fps|] eqn:E; [|done]. cbn in Hsf.
  injection Hsf as <-. apply mapM_snap_props in E.
  exists f1, ot, fps. repeat split; try done.
  specialize (Hc tl ot Htl Hot). rewrite Forall_forall in Hc.
  apply lookup_prop_elem in Hlf. specialize (Hc _ Hlf). cbn in Hc. lia.
Qed.

Lemma update_prop_Forall {A} (P : string * A → Prop) k (v : A) ps0 :
  Forall P ps0 → P (k, v) → Forall P (update_prop k v ps0).
Proof.
  intros HF HP. induction HF as [|[k' v'] ps0 Hp HF IH]; cbn.
  - by constructor.
  - destruct (String.eqb k k'); by constructor.
Qed.

Context (f1 : nat) (fps : list (string * tree)).
Context (Hlen : length h = S (S f1)).
Context (Hfps : snap_props f1 h (oprops fobj) fps).
Context (Hfl : fl < n).

(** The heap after the clone. *)
Context (L1 : list object) (vs : list (string * value)) (fl' : loc).
Let h1 := h ++ L1 ++ [Obj ko vs].
Let c1 := length h + length L1.
Context (Hvf : lookup_prop "functions" vs = Some (VRef fl')).
Context (Hfl' : length h ≤ fl' < c1).

Local Abbreviation get_inv :=
  (get_inv h h1 c1 fl' (okind fobj) (prop_keys (oprops fobj)) fps).

Lemma length_h1 : length h1 = S c1.
Proof. unfold h1, c1. rewrite !length_app. cbn. lia. Qed.

Lemma lookup_h1_root : h1 !! c1 = Some (Obj ko vs).
Proof.
  unfold h1, c1. rewrite lookup_app_r by lia.
  rewrite lookup_app_r by lia.
  replace (length h + length L1 - length h - length L1) with 0 by lia. done.
Qed.

Lemma get_inv_old done hi l :
  get_inv done hi → l < length h → hi !! l = h !! l.
Proof.
  intros (_ & Hag & _) Hl. rewrite Hag; [|rewrite length_h1; unfold c1; lia|lia].
  unfold h1. by rewrite lookup_app_l.
Qed.

Lemma get_inv_reads done hi k :
  get_inv done hi →
  read_prop hi (VRef c1) "functions" = Ok (VRef fl')
  ∧ read_path hi this ["functions"; k]
  = Ok (default VUndef (lookup_prop k (oprops fobj))).
Proof.
  intros Hinv. pose proof Hinv as (Hl1 & Hag & _).
  destruct Hm as (Hn & Htl & Hc & Hf & Hfo & Hnd & Hinst).
  fold h in Hn, Hc, Hf, Hfo. split.
  - rewrite (read_prop_ref _ _ (Obj ko vs)); [by cbn; rewrite Hvf|].
    rewrite Hag; [apply lookup_h1_root|rewrite length_h1; lia|lia].
  - cbn [read_path]. unfold this.
    rewrite (read_prop_agree h hi); [|intros ? [= <-]; apply (get_inv_old done); [done|lia]].
    rewrite Hf.
    rewrite (read_prop_agree h hi); [|intros ? [= <-]; apply (get_inv_old done); [done|lia]].
    by rewrite (read_prop_ref _ _ _ _ Hfo).
Qed.

Lemma get_child_ok done hi k ck tk :
  get_inv done hi → k ∉ done →
  lookup_prop k (oprops fobj) = Some ck →
  lookup_prop k fps = Some tk →
  snapshot f1 h ck = Some tk →
  ∃ h', get_child this (VRef c1) k (set_heap st hi) = (set_heap st h', Ok tt)
  ∧ get_inv (done ++ [k]) h'.
Proof.
  intros Hinv Hk Hck Htk Hsk.
  destruct (get_inv_reads done hi k Hinv) as [Rt Rc]. rewrite Hck in Rc. cbn [from_option id] in Rc.
  pose proof Hinv as (Hl1 & Hag & Hnew & psi & Hpsi & Hkeys & Hwpsi & Hdone).
  destruct Hm as (Hn & Htl & Hc & Hf & Hfo & Hnd & Hinst).
  fold h in Hn, Hc, Hf, Hfo, Hinst.
  pose proof (length_h1) as Hlh1.
  assert ((k, ck) ∈ oprops fobj) as Hin by by apply lookup_prop_elem.
  assert (instanceof_Function h ck = true) as Hick.
  { rewrite Forall_forall in Hinst. by apply (Hinst _ Hin). }
  assert (within 0 n ck) as Hwck.
  { specialize (Hc fl fobj Hfl Hfo). rewrite Forall_forall in Hc.
    by apply (Hc _ Hin). }
  assert (instanceof_Function hi ck = true) as Hick'.
  { rewrite <- Hick. apply instanceof_agree. intros l ->. cbn in Hwck.
    apply (get_inv_old done); [done|lia]. }
  assert (snapshot (length hi) hi ck = Some tk) as Hsk'.
  { apply (snapshot_below n _ h); [done| |done|].
    - intros l Hl. apply (get_inv_old done); [done|lia].
    - apply (snapshot_mono f1); [lia|done]. }
  destruct (F_get_ok (set_heap st hi) ck tk Hick' Hsk')
    as (L & d & Eget & Hsc & Hwd & Hsd).
  cbn [st_heap set_heap] in Eget, Hsc, Hwd, Hsd.
  assert (fl' < length hi) as Hfl'hi by (unfold c1 in *; lia).
  assert ((hi ++ L) !! fl' = Some (Obj (okind fobj) psi)) as Hpsi'.
  { by rewrite lookup_app_l. }
  set (hi' := <[fl' := Obj (okind fobj) (update_prop k d psi)]> (hi ++ L)).
  assert (length hi' = length hi + length L) as Hlhi'.
  { unfold hi'. by rewrite length_insert, length_app. }
  assert (∀ l, l ≠ fl' → hi' !! l = (hi ++ L) !! l) as Hhi'.
  { intros l Hl. unfold hi'. by rewrite list_lookup_insert_ne. }
  exists hi'. split.
  - unfold get_child.
    eapply bind_ok; [by rewrite get_prop_run; cbn [st_heap set_heap]; rewrite Rt|].
    eapply bind_ok; [by rewrite get_path_run; cbn [st_heap set_heap]; rewrite Rc|].
    eapply bind_ok.
    { unfold invoke. eapply bind_ok; [reflexivity|]. cbn beta.
      cbn [st_heap set_heap]. rewrite Hick'. exact Eget. }
    rewrite set_heap_set_heap.
    by rewrite (set_prop_run _ fl' (Obj (okind fobj) psi)).
  - split; [lia|]. split; [|split].
    + intros l Hl Hne. rewrite Hhi' by done. rewrite lookup_app_l by lia.
      by apply Hag.
    + intros l o Hl Ho. rewrite Hhi' in Ho by lia. rewrite Hlhi'.
      destruct (decide (l < length hi)) as [Hlt|Hge].
      * rewrite lookup_app_l in Ho by done.
        eapply Forall_impl; [exact (Hnew l o Hl Ho)|].
        intros p. apply within_weaken; lia.
      * rewrite lookup_app_r in Ho by lia.
        apply list_elem_of_lookup_2 in Ho. unfold self_contained in Hsc.
        rewrite Forall_forall in Hsc.
        eapply Forall_impl; [exact (Hsc _ Ho)|].
        intros p. apply within_weaken; lia.
    + exists (update_prop k d psi). split; [|split; [|split]].
      * unfold hi'. rewrite list_lookup_insert_eq; [done|].
        rewrite length_app. lia.
      * rewrite keys_update_in; [done|]. rewrite Hkeys.
        by eapply lookup_prop_Some_key.
      * rewrite Hlhi'. apply update_prop_Forall.
        -- eapply Forall_impl; [exact Hwpsi|]. intros p. apply within_weaken; lia.
        -- cbn. revert Hwd. apply within_weaken; lia.
      * intros k' [Hin' | ->%list_elem_of_singleton]%elem_of_app.
        -- destruct (Hdone k' Hin') as (d' & tk' & Hd' & Htk' & Hwd' & Hsd').
          exists d', tk'. split; [|split; [done|split]].
          ++ rewrite lookup_update_ne; [done|]. by intros ->.
          ++ rewrite Hlhi'. revert Hwd'. apply within_weaken; lia.
          ++ apply (snapshot_mono (length hi - length h1)); [lia|].
            apply (snapshot_above (length h1) _ hi); [|done|done].
            intros l o Hl Ho. split; [|exact (Hnew l o Hl Ho)].
            rewrite Hhi' by lia. rewrite lookup_app_l; [done|].
            by eapply lookup_lt_Some.
        -- exists d, tk. split; [apply lookup_update_eq|]. split; [done|]. split.
          ++ rewrite Hlhi'. revert Hwd. apply within_weaken; lia.
          ++ apply (snapshot_mono (length L)); [lia|].
            apply (snapshot_above (length hi) _ (hi ++ L)); [| |done].
            ** intros l o Hl Ho. split; [by rewrite Hhi' by lia|].
              rewrite lookup_app_r in Ho by lia.
              apply list_elem_of_lookup_2 in Ho. unfold self_contained in Hsc.
              rewrite Forall_forall in Hsc. rewrite length_app.
              exact (Hsc _ Ho).
            ** rewrite length_app. exact Hwd.
Qed.

Lemma get_children_ok ks done hi :
  get_inv done hi → NoDup ks → (∀ k, k ∈ ks → k ∉ done) →
  (∀ k, k ∈ ks → k ∈ prop_keys (oprops fobj)) →
  ∃ h', for_each ks (get_child this (VRef c1)) (set_heap st hi)
  = (set_heap st h', Ok tt)
  ∧ get_inv (done ++ ks) h'.
Proof.
  revert done hi. induction ks as [|k ks IH]; intros done hi Hinv Hnd Hdis Hks.
  - exists hi. by rewrite app_nil_r.
  - apply NoDup_cons in Hnd as [Hk Hnd].
    destruct (lookup_prop_key k (oprops fobj)) as [ck Hck];
      [apply Hks, list_elem_of_here|].
    destruct (snap_props_lookup _ _ _ _ _ _ Hfps Hck) as (tk & Htk & Hsk).
    destruct (get_child_ok done hi k ck tk) as (h2 & E2 & Hinv2); auto.
    { apply Hdis, list_elem_of_here. }
    destruct (IH (done ++ [k]) h2) as (h' & E' & Hinv'); auto.
    { intros k' Hin [Hd | ->%list_elem_of_singleton]%elem_of_app; [|done].
      by apply (Hdis k'); [apply list_elem_of_further|]. }
    { intros k' Hin. apply Hks. by apply list_elem_of_further. }
    exists h'. split; [|by rewrite <- app_assoc in Hinv'].
    cbn [for_each]. eapply bind_ok; [exact E2|exact E'].
Qed.

Lemma delete_prop_Forall {A} (P : string * A → Prop) k ps0 :
  Forall P ps0 → Forall P (delete_prop k ps0).
Proof.
  intros HF. induction HF as [|[k' v'] ps0 Hp HF IH]; cbn; [done|].
  destruct (String.eqb k k'); [done|]. by constructor.
Qed.

Context (o' : object).
Context (Hsc1 : self_contained (length h) (L1 ++ [Obj ko vs])).
Context (Hlaid : laid_out h1 (length h) c1 ps vs).
Context (Hd1 : foldr (λ p d, Nat.max (tree_depth p.2) d) 0 ps ≤ length L1).
Context (Hpsf : lookup_prop "functions" ps = Some (TObj (okind fobj) fps)).
Context (Ho' : h1 !! fl' = Some o').
Context (Hko' : okind o' = okind fobj).
Context (Hkeys' : prop_keys (oprops o') = prop_keys (oprops fobj)).

Lemma clone_region l o :
  length h ≤ l → h1 !! l = Some o →
  Forall (λ p, within (length h) (length h1) p.2) (oprops o).
Proof.
  intros Hl Ho. unfold h1 in Ho. rewrite lookup_app_r in Ho by done.
  apply list_elem_of_lookup_2 in Ho. unfold self_contained in Hsc1.
  rewrite Forall_forall in Hsc1. unfold h1. rewrite length_app.
  exact (Hsc1 _ Ho).
Qed.

Lemma get_inv_start : get_inv [] h1.
Proof.
  split; [done|]. split; [done|]. split.
  { intros l o Hl Ho. apply lookup_lt_Some in Ho. lia. }
  exists (oprops o'). split; [|split; [done|split]].
  - rewrite Ho'. destruct o'. cbn in *. by rewrite Hko'.
  - apply (clone_region fl'); [lia|done].
  - by intros k ?%elem_of_nil.
Qed.

Lemma heap_split (hf : heap) :
  length h ≤ length hf → (∀ l, l < length h → hf !! l = h !! l) →
  hf = h ++ drop (length h) hf.
Proof.
  intros Hle Hag. rewrite <- (take_drop (length h) hf) at 1. f_equal.
  apply list_eq. intros i. destruct (decide (i < length h)) as [Hi|Hi].
  - rewrite lookup_take_lt by done. by apply Hag.
  - rewrite lookup_take_ge by lia. symmetry. apply lookup_ge_None. lia.
Qed.

Lemma get_finish hf :
  get_inv (prop_keys (oprops fobj)) hf →
  ∃ L,
  exportClassData (VRef c1) (set_heap st hf)
  = (set_heap st (h ++ L), Ok (VRef c1))
  ∧ self_contained (length h) L
  ∧ within (length h) (length h + length L) (VRef c1)
  ∧ snapshot (length L) (h ++ L) (VRef c1) = Some (get_tree (TObj ko ps)).
Proof.
  intros Hinv.
  pose proof Hinv as (Hl1 & Hag & Hnew & psi & Hpsi & Hkeys & Hwpsi & Hdone).
  destruct Hm as (Hn & Htl & Hc & Hf & Hfo & Hnd & Hinst).
  pose proof length_h1 as Hlh1.
  assert (hf !! c1 = Some (Obj ko vs)) as Hroot.
  { rewrite Hag; [apply lookup_h1_root|lia|lia]. }
  set (root := Obj ko (delete_prop "_config" (delete_prop "_S" vs))).
  set (hF := <[c1 := root]> hf).
  assert (length hF = length hf) as HlF by (unfold hF; by rewrite length_insert).
  assert (∀ l, l ≠ c1 → hF !! l = hf !! l) as HhF.
  { intros l Hl. unfold hF. by rewrite list_lookup_insert_ne. }
  assert (hF !! c1 = Some root) as HrootF.
  { unfold hF. rewrite list_lookup_insert_eq; [done|lia]. }
  assert (hF = h ++ drop (length h) hF) as HF.
  { apply heap_split; [unfold c1 in *; lia|].
    intros l Hl. rewrite HhF by (unfold c1; lia).
    apply (get_inv_old _ _ _ Hinv Hl). }
  assert (length (drop (length h) hF) = length hF - length h) as HlL
    by apply length_drop.
  exists (drop (length h) hF). rewrite <- HF. split; [|split; [|split]].
  - unfold exportClassData.
    eapply bind_ok.
    { unfold del_prop. cbn [st_heap set_heap]. rewrite Hroot. reflexivity. }
    eapply bind_ok.
    { unfold del_prop. cbn [st_heap set_heap].
      rewrite list_lookup_insert_eq by lia. reflexivity. }
    cbn [okind oprops]. rewrite !set_heap_set_heap, list_insert_insert_eq.
    reflexivity.
  - unfold self_contained. apply Forall_lookup. intros i o Hi.
    rewrite lookup_drop in Hi. rewrite HlL.
    replace (length h + (length hF - length h)) with (length hF)
      by (unfold c1 in *; lia).
    destruct (decide (length h + i = c1)) as [Hc1|Hc1].
    + rewrite Hc1, HrootF in Hi. injection Hi as <-. unfold root. cbn [oprops].
      do 2 apply delete_prop_Forall.
      eapply Forall_impl; [apply (clone_region c1 _ ltac:(unfold c1; lia) lookup_h1_root)|].
      intros p. apply within_weaken; lia.
    + rewrite HhF in Hi by done.
      destruct (decide (length h + i = fl')) as [Hfl'i|Hfl'i].
      * rewrite Hfl'i, Hpsi in Hi. injection Hi as <-. cbn [oprops].
        eapply Forall_impl; [exact Hwpsi|]. intros p. apply within_weaken; lia.
      * destruct (decide (length h + i < length h1)) as [Hlt|Hge].
        -- rewrite Hag in Hi by done.
          eapply Forall_impl; [apply (clone_region (length h + i) o ltac:(lia) Hi)|].
          intros p. apply within_weaken; lia.
        -- eapply Forall_impl; [apply (Hnew (length h + i) o ltac:(lia) Hi)|].
          intros p. apply within_weaken; lia.
  - cbn. unfold c1 in *. lia.
  - rewrite HlL.
    assert (∃ F, length hF - length h = S (S F)
      ∧ length hf - length h1 ≤ F
      ∧ foldr (λ p d, Nat.max (tree_depth p.2) d) 0 ps ≤ S F)
      as (F & -> & HF1 & HF2).
    { exists (length hF - length h - 2). unfold c1 in *. lia. }
    cbn [get_tree]. unfold get_functions. rewrite Hpsf.
    apply snapshot_obj. exists root. split; [done|]. split; [done|].
    unfold root. cbn [oprops]. do 2 apply snap_props_delete.
    apply (laid_out_update h1 hF (length h) c1 ps vs (S F) "functions" fl');
      [done|done| |done|].
    { intros l Hl Hne. rewrite HhF by lia. apply Hag; lia. }
    apply snapshot_obj. exists (Obj (okind fobj) psi).
    split; [by rewrite HhF by lia|]. split; [done|]. cbn [oprops].
    unfold snap_props. apply Forall2_fmap_r.
    assert (prop_keys fps = prop_keys (oprops fobj)) as Hkfps.
    { symmetry. by eapply snap_props_keys. }
    eapply Forall2_impl.
    { apply (Forall2_of_lookup psi fps
        (λ d tk, snapshot F hF d = Some (F_get_spec tk)));
        [by rewrite Hkeys, Hkfps|by rewrite Hkeys|].
      intros k Hk. rewrite Hkeys in Hk.
      destruct (Hdone k Hk) as (d & tk & Hd & Htk & Hwd & Hsd).
      exists d, tk. split; [done|]. split; [done|].
      apply (snapshot_mono (length hf - length h1)); [done|].
      apply (snapshot_above (length h1) _ hf); [|done|done].
      intros l o Hl Ho. split; [|exact (Hnew l o Hl Ho)].
      rewrite HhF by lia. done. }
    intros [k d] [k' tk]. cbn. done.
Qed.
End get_lemmas.

Section get_ok.
Context `{FunctionLaws}.

(** [get] is a projection of the snapshot of the entity, delivered in
    new objects that refer to one another only. *)
Lemma get_ok st n tl fl fobj t :
  module_at n (st_heap st) tl fl fobj →
  snapshot (length (st_heap st)) (st_heap st) (VRef tl) = Some t →
  ∃ L d,
  get (VRef tl) st = (set_heap st (st_heap st ++ L), Ok d)
  ∧ self_contained (length (st_heap st)) L
  ∧ within (length (st_heap st)) (length (st_heap st) + length L) d
  ∧ snapshot (length L) (st_heap st ++ L) d = Some (get_tree t).
Proof.
  intros Hm HT.
  assert (∃ ko ps, t = TObj ko ps) as (ko & ps & ->).
  { destruct (length (st_heap st)); [done|]. rewrite snapshot_ref in HT.
    destruct (st_heap st !! tl); [|done]. cbn in HT.
    destruct (mapM _ _); [|done]. cbn in HT. injection HT as <-. eauto. }
  destruct (entity_shape st n tl fl fobj ko ps Hm HT)
    as (f1 & ot & fps & Hlen & Hot & Hko & Hsp & Hlf & Hpsf & Hfps & Hfl).
  destruct (cloneDeep_obj st (VRef tl) ko ps HT)
    as (L1 & vs & Eclone & Hsc1 & Hd1 & Hlaid).
  set (h := st_heap st) in *.
  set (h1 := h ++ L1 ++ [Obj ko vs]) in *.
  set (c1 := length h + length L1) in *.
  destruct (laid_out_lookup _ _ _ _ _ _ _ Hlaid Hpsf)
    as (vf & a' & b' & Hvf & [Hwf Hsf] & Ha' & Hb').
  specialize (Hsf h1 (λ _ _, eq_refl)).
  apply snapshot_obj_inv in Hsf as (f' & fl' & o' & _ & -> & Ho' & Hko' & Hsp').
  cbn in Hwf.
  assert (length h ≤ fl' < c1) as Hfl'b by lia.
  assert (prop_keys (oprops o') = prop_keys (oprops fobj)) as Hkeys'.
  { rewrite (snap_props_keys _ _ _ _ Hsp'). symmetry. by eapply snap_props_keys. }
  pose proof Hm as (Hn & Htl & Hc & Hf & Hfo & Hnd & Hinst).
  fold h in Hn, Hc, Hf, Hfo.
  pose proof (get_inv_start st n fl fobj ko ps f1 fps Hlen Hfl L1 vs fl' Hfl'b
    o' Hsc1 Hd1 Ho' Hko' Hkeys') as Hinv0.
  destruct (get_children_ok st n tl fl fobj ko Hm f1 fps Hlen Hfps Hfl L1 vs fl'
    Hvf Hfl'b (prop_keys (oprops fobj)) [] h1 Hinv0 Hnd)
    as (hf & Eloop & Hinvf).
  { intros k _. apply not_elem_of_nil. }
  { done. }
  cbn [app] in Hinvf.
  destruct (get_finish st n tl fl fobj ko ps Hm f1 fps Hlen Hfps Hfl L1 vs fl'
    Hvf Hfl'b Hsc1 Hlaid Hd1 Hpsf hf Hinvf)
    as (L & Eexp & HscL & HwL & HsL).
  exists L, (VRef c1). split; [|done].
  subst h1. unfold get. eapply bind_ok; [exact Eclone|].
  eapply bind_ok.
  { rewrite get_prop_run. cbn [st_heap set_heap].
    rewrite read_prop_old by (cbn; fold h; lia). fold h. by rewrite Hf. }
  eapply bind_ok; [reflexivity|]. cbn beta. cbn [st_heap set_heap for_in_keys].
  rewrite lookup_app_l by (fold h; lia). fold h. rewrite Hfo.
  eapply bind_ok; [exact Eloop|]. exact Eexp.
Qed.
End get_ok.

Section get_claims.
Context `{FunctionLaws}.

End get_claims.

(** ** The sample Function class keeps the contract *)

Section sample_laws.
Import Sample.

Lemma sample_new_spec st S c m f :
  truthy c = true → truthy m = true → truthy f = true →
  ∃ L l,
  function_new S c m f st = (set_heap st (st_heap st ++ L), Ok (VRef l))
  ∧ length (st_heap st) ≤ l
  ∧ instanceof_Function (st_heap st ++ L) (VRef l) = true.
Proof.
  intros Tc Tm Tf. destruct st as [h fs con].
  exists [Obj KFunction [("_S", S); ("_config", VRef (length h + 1)); ("name", f)];
    Obj KObject [("component", c); ("module", m); ("function", f)]],
    (length h + 0).
  split; [|split; [cbn; lia|]].
  - rewrite <- (app_nil_r h) at 1. unfold function_new.
    repeat mstep. reflexivity.
  - cbn. rewrite lookup_app_r by lia.
    by replace (length h + 0 - length h) with 0 by lia.
Qed.

Lemma sample_set_spec st l x :
  instanceof_Function (st_heap st) (VRef l) = true →
  ∃ h',
  function_set (VRef l) x st = (set_heap st h', Ok (VRef l))
  ∧ length (st_heap st) ≤ length h'
  ∧ (∀ l', l' ≠ l → l' < length (st_heap st) → h' !! l' = st_heap st !! l')
  ∧ instanceof_Function h' (VRef l) = true.
Proof.
  intros Hi. pose proof (instanceof_valid _ _ Hi) as Hl. cbn in Hl.
  destruct (assign_props_frame st l x Hl) as (h' & E & Hlen & Hfr & Hk).
  exists h'. split; [done|]. split; [lia|]. split; [by intros; apply Hfr|].
  cbn in *. destruct (h' !! l), (st_heap st !! l); cbn in Hk; try done.
  injection Hk as Hk. by rewrite Hk.
Qed.

Lemma sample_get_ok st child t :
  instanceof_Function (st_heap st) child = true →
  snapshot (length (st_heap st)) (st_heap st) child = Some t →
  ∃ L d,
  function_get child st = (set_heap st (st_heap st ++ L), Ok d)
  ∧ self_contained (length (st_heap st)) L
  ∧ within (length (st_heap st)) (length (st_heap st) + length L) d
  ∧ snapshot (length L) (st_heap st ++ L) d = Some (function_get_tree t).
Proof.
  intros Hi HT.
  assert (∃ ko ps, t = TObj ko ps) as (ko & ps & ->).
  { destruct child; try done. destruct (length (st_heap st)); [done|].
    rewrite snapshot_ref in HT. destruct (st_heap st !! l); [|done]. cbn in HT.
    destruct (mapM _ _); [|done]. cbn in HT. injection HT as <-. eauto. }
  destruct (cloneDeep_obj st child ko ps HT) as (L1 & vs & Eclone & Hsc1 & Hd1 & Hlaid).
  set (h := st_heap st) in *.
  set (root := Obj ko (delete_prop "_config" (delete_prop "_S" vs))).
  exists (L1 ++ [root]), (VRef (length h + length L1)).
  assert (<[length h + length L1 := root]> (h ++ L1 ++ [Obj ko vs]) = h ++ L1 ++ [root])
    as Hins.
  { rewrite insert_app_r.  f_equal.
    replace (length L1) with (length L1 + 0) by lia. by rewrite insert_app_r. }
  split; [|split; [|split]].
  - unfold function_get. eapply bind_ok; [exact Eclone|].
    unfold exportClassData.
    eapply bind_ok.
    { unfold del_prop. cbn [st_heap set_heap].
      rewrite lookup_app_r by lia. rewrite lookup_app_r by lia.
      replace (length h + length L1 - length h - length L1) with 0 by lia.
      reflexivity. }
    eapply bind_ok.
    { unfold del_prop. cbn [st_heap set_heap].
      rewrite list_lookup_insert_eq by (rewrite !length_app; cbn; lia).
      reflexivity. }
    cbn [okind oprops]. rewrite !set_heap_set_heap, list_insert_insert_eq.
    unfold mret, M_ret. f_equal. f_equal. exact Hins.
  - unfold self_contained in *. rewrite length_app in *. cbn [length] in *.
    apply Forall_app in Hsc1 as [HL1 Hroot]. apply Forall_app. split; [done|].
    apply Forall_cons in Hroot as [Hroot _]. constructor; [|constructor].
    unfold root. cbn [oprops] in *.
    assert (∀ k (P : string * value → Prop) ps0,
      Forall P ps0 → Forall P (delete_prop k ps0)) as Hdel.
    { intros k P ps0 HF. induction HF as [|[k' v'] ps0 Hp HF IH]; cbn; [done|].
      destruct (String.eqb k k'); [done|]. by constructor. }
    by do 2 apply Hdel.
  - cbn. rewrite length_app. cbn. lia.
  - rewrite length_app. cbn [length]. rewrite Nat.add_1_r.
    cbn [function_get_tree]. apply snapshot_obj. exists root.
    split.
    { rewrite lookup_app_r by lia. rewrite lookup_app_r by lia.
      by replace (length h + length L1 - length h - length L1) with 0 by lia. }
    split; [done|]. unfold root. cbn [oprops]. do 2 apply snap_props_delete.
    apply (laid_out_stable (h ++ L1 ++ [Obj ko vs]) _ (length h)
      (length h + length L1)); [done| |done].
    intros l Hl. rewrite !app_assoc.
    rewrite !(lookup_app_l (_ ++ _)); [done|rewrite length_app; lia..].
Qed.

Global Instance sample_function_laws : FunctionLaws := {|
  F_new_spec := sample_new_spec;
  F_set_spec := sample_set_spec;
  F_get_spec := function_get_tree;
  F_get_ok := sample_get_ok
  |}.
End sample_laws.

(** ** The claims on the sample project *)

Lemma closed_below_Forall (h : heap) :
  Forall (λ o, Forall (λ p, within 0 (length h) p.2) (oprops o)) h →
  closed_below (length h) h.
Proof.
  intros HF l o _ Ho. rewrite Forall_forall in HF.
  apply HF. by eapply list_elem_of_lookup_2.
Qed.

Lemma sample_identity :
  identity_at (st_heap SampleStates.before_set) 3 4 (VRef 0)
    (VStr "users") (VStr "profile").
Proof. repeat split; cbn; lia. Qed.

Lemma sample_functions :
  functions_at (st_heap SampleStates.before_set) 3 4 10 11
    SampleStates.functions_of_literal.
Proof.
  repeat split; try (cbn; lia); try done.
  - apply (bool_decide_unpack _). by vm_compute.
  - repeat constructor; cbn; (done || lia).
Qed.


Lemma set_replaces_literals_in_its_argument_witness :
  ∃ st',
    set (VRef 3) (VRef 10) SampleStates.before_set = (st', Ok (VRef 3))
    ∧ read_prop (st_heap st') (VRef 10) "functions" = Ok (VRef 11)
    ∧ ∀ k x, (k, x) ∈ oprops SampleStates.functions_of_literal →
        ∃ v', read_prop (st_heap st') (VRef 11) k = Ok v'
              ∧ v' ≠ x
              ∧ new_instance (length (st_heap SampleStates.before_set))
                  (st_heap st') v'.
Proof.
  apply (set_replaces_literals_in_its_argument
    SampleStates.before_set 3 4 10 11 (VRef 0) (VStr "users") (VStr "profile")
    SampleStates.functions_of_literal).
  - exact sample_identity.
  - exact sample_functions.
  - lia.
  - repeat constructor.
Defined.

Lemma sample_module :
  module_at (length (st_heap SampleStates.after_set)) (st_heap SampleStates.after_set)
    3 11 SampleStates.functions_after_set.
Proof.
  split; [done|]. split; [cbn; lia|]. split; [|split; [done|split; [done|split]]].
  - apply closed_below_Forall. apply (bool_decide_unpack _). by vm_compute.
  - apply (bool_decide_unpack _). by vm_compute.
  - repeat constructor.
Qed.


Lemma load_fails_and_leaves_state_witness :
  (truthy VUndef = false →
   load (VRef 3) SampleStates.rootless
   = (SampleStates.rootless, Throw (SError msg_load_no_project)))
  ∧ (truthy (VStr "/proj") = true →
     load (VRef 3) SampleStates.constructed_state
     = (SampleStates.constructed_state,
        Throw (SError (msg_load_not_found +:+ "users/profile")))).
Proof.
  split.
  - apply (load_fails_and_leaves_state SampleStates.rootless (VRef 3) VUndef).
    reflexivity.
  - intros T.
    apply (proj2 (load_fails_and_leaves_state SampleStates.constructed_state
      (VRef 3) (VStr "/proj") eq_refl)
      "/proj/users/profile" (VStr "users/profile") T);
      [reflexivity|reflexivity|by vm_compute].
Defined.

(** ** A newly constructed entity *)

Lemma closed_below_app (h L : heap) :
  closed_below (length h) h →
  Forall (λ o, Forall (λ p, within 0 (length h + length L) p.2) (oprops o)) L →
  closed_below (length (h ++ L)) (h ++ L).
Proof.
  intros Hc HL l o _ Ho. rewrite length_app.
  destruct (decide (l < length h)) as [Hl|Hl].
  - rewrite lookup_app_l in Ho by done.
    eapply Forall_impl; [exact (Hc l o Hl Ho)|]. intros p. apply within_weaken; lia.
  - rewrite lookup_app_r in Ho by lia. apply list_elem_of_lookup_2 in Ho.
    rewrite Forall_forall in HL. by apply HL.
Qed.

Lemma snap_props_strings f h (vs : list (string * string)) :
  snap_props f h (map (λ p, (p.1, VStr p.2)) vs) (map (λ p, (p.1, TStr p.2)) vs).
Proof. induction vs as [|[k s] vs IH]; constructor; [by destruct f|done]. Qed.

Lemma snapshot_new f f' h L i k vs ps :
  f = S f' → L !! i = Some (Obj k vs) → snap_props f' (h ++ L) vs ps →
  snapshot f (h ++ L) (VRef (length h + i)) = Some (TObj k ps).
Proof.
  intros -> Ho Hs. apply snapshot_obj. exists (Obj k vs). by rewrite lookup_ext.
Qed.

Section defaults.
Context (package_version : string) `{SUtils} `{FunctionLaws}.

(** The [_config] object holds strings only. *)
Lemma config_props_strings cn mn pp :
  ∃ ss, config_props (VStr cn) (VStr mn) pp = map (λ p, (p.1, VStr p.2)) ss.
Proof.
  unfold config_props.
  destruct pp as [| | | |root|];
    try by exists [("component", cn); ("module", mn);
    ("sPath", buildSPath (VStr cn) (VStr mn))].
  destruct (truthy (VStr root) && _).
  - by eexists [("component", cn); ("module", mn);
      ("sPath", buildSPath (VStr cn) (VStr mn)); ("fullPath", _)].
  - by exists [("component", cn); ("module", mn);
      ("sPath", buildSPath (VStr cn) (VStr mn))].
Qed.

Lemma constructed_snapshot h S pp cn mn tS :
  valid h S → closed_below (length h) h →
  snapshot (length h) h S = Some tS →
  ∃ t,
  snapshot (length (h ++ constructed package_version S (VStr cn) (VStr mn) pp (length h)))
  (h ++ constructed package_version S (VStr cn) (VStr mn) pp (length h))
  (VRef (length h))
  = Some t
  ∧ get_tree t = default_document package_version mn.
Proof.
  intros HS Hc HtS.
  destruct (config_props_strings cn mn pp) as [ss Hss].
  set (L := constructed package_version S (VStr cn) (VStr mn) pp (length h)).
  exists (TObj KModule
    (("_S", tS) :: ("_config", TObj KObject (map (λ p, (p.1, TStr p.2)) ss))
    :: match default_document package_version mn with
    | TObj _ ps => ps | _ => [] end)).
  split; [|reflexivity].
  rewrite length_app. replace (length L) with 7 by done.
  replace (VRef (length h)) with (VRef (length h + 0)) by (f_equal; lia).
  eapply (snapshot_new _ (length h + 6)); [lia|reflexivity|]. cbn [oprops].
  repeat constructor; cbn [fst snd];
    try (rewrite snapshot_prim by done; reflexivity).
  - apply (snapshot_below (length h) _ h); [done| |by destruct S; cbn in *; try lia|].
    + intros l Hl. by apply lookup_app_l.
    + apply (snapshot_mono (length h)); [lia|done].
  - eapply (snapshot_new _ (length h + 5)); [lia|reflexivity|]. cbn [oprops].
    rewrite Hss. apply snap_props_strings.
  - eapply (snapshot_new _ (length h + 5)); [lia|reflexivity|]. constructor.
  - eapply (snapshot_new _ (length h + 5)); [lia|reflexivity|]. constructor.
  - eapply (snapshot_new _ (length h + 5)); [lia|reflexivity|]. cbn [oprops].
    repeat constructor; cbn [fst snd].
    + eapply (snapshot_new _ (length h + 4)); [lia|reflexivity|]. constructor.
    + eapply (snapshot_new _ (length h + 4)); [lia|reflexivity|]. constructor.
Qed.

Lemma constructed_module h S pp cn mn :
  valid h S → closed_below (length h) h →
  module_at (length (h ++ constructed package_version S (VStr cn) (VStr mn) pp (length h)))
  (h ++ constructed package_version S (VStr cn) (VStr mn) pp (length h))
  (length h) (length h + 3) (Obj KObject []).
Proof.
  intros HS Hc.
  destruct (config_props_strings cn mn pp) as [ss Hss].
  split; [done|]. split; [rewrite length_app; cbn; lia|].
  split; [|split; [|split; [|split]]].
  - apply closed_below_app; [done|]. unfold constructed. rewrite Hss.
    cbn [length].
    assert (within 0 (length h + 7) S) by (destruct S; cbn in *; lia).
    repeat constructor; cbn [snd within]; try lia; try done.
    apply Forall_fmap, Forall_forall. by intros.
  - replace (VRef (length h)) with (VRef (length h + 0)) by (f_equal; lia).
    unfold read_prop. by rewrite lookup_ext.
  - by rewrite lookup_ext.
  - constructor.
  - constructor.
Qed.

(** C6: for every valid identity (a component and a module name), a
    newly constructed entity holds exactly the defaults the constructor
    declares, and [get()] yields them: the name is the module name of
    the identity (the generated fallback [module + shortId] stands
    behind it and is not reached, construction failing without a module
    name), version 0.0.1, the profile, location, author and description
    defaults, runtime nodejs, an empty [custom], an empty [functions],
    and a [cloudFormation] of empty resources and no statements. *)
Theorem constructed_entity_holds_defaults h fs con S pp cl cn mn tS :
  cl < length h →
  context_at h S pp →
  closed_below (length h) h →
  snapshot (length h) h S = Some tS →
  read_prop h (VRef cl) "component" = Ok (VStr cn) →
  read_prop h (VRef cl) "module" = Ok (VStr mn) →
  cn ≠ EmptyString → mn ≠ EmptyString →
  ∃ st1 o L d,
    constructor package_version S (VRef cl) (State h fs con)
    = (st1, Ok (VRef (length h)))
    ∧ st_heap st1 !! length h = Some o
    ∧ oprops o = default_props package_version S (VStr mn) (length h)
    ∧ get (VRef (length h)) st1 = (set_heap st1 (st_heap st1 ++ L), Ok d)
    ∧ snapshot (length L) (st_heap st1 ++ L) d
      = Some (default_document package_version mn)
    ∧ to_json (default_document package_version mn)
      = Some (default_json package_version mn).
Proof.
  intros Hcl Hctx Hc HtS Rc Rm Hcn Hmn.
  assert (truthy (VStr cn) = true) as Tc
    by (cbn; by apply negb_true_iff, String.eqb_neq).
  assert (truthy (VStr mn) = true) as Tm
    by (cbn; by apply negb_true_iff, String.eqb_neq).
  pose proof (constructor_run package_version h fs con S pp cl _ _ Hcl Hctx Rc Rm Tc Tm)
    as E.
  pose proof Hctx as [HS _].
  destruct (constructed_snapshot h S pp cn mn tS HS Hc HtS) as (t & Ht & Hget).
  set (st1 := State (h ++ constructed package_version S (VStr cn) (VStr mn) pp (length h))
    fs con) in *.
  destruct (get_ok st1 _ (length h) (length h + 3) (Obj KObject []) t
    (constructed_module h S pp cn mn HS Hc) Ht)
    as (L & d & Eget & _ & _ & Hs).
  exists st1, (Obj KModule (default_props package_version S (VStr mn) (length h))), L, d.
  split; [done|]. split.
  { cbn. replace (length h) with (length h + 0) at 1 by lia. by rewrite lookup_ext. }
  split; [done|]. split; [done|]. split; [by rewrite <- Hget|reflexivity].
Qed.
End defaults.

Lemma constructed_entity_holds_defaults_witness :
  ∃ st1 o L d,
    constructor Sample.version (VRef 0) (VRef 2) (Sample.start Sample.config_both)
    = (st1, Ok (VRef 3))
    ∧ st_heap st1 !! 3 = Some o
    ∧ oprops o = default_props Sample.version (VRef 0) (VStr "profile") 3
    ∧ get (VRef 3) st1 = (set_heap st1 (st_heap st1 ++ L), Ok d)
    ∧ snapshot (length L) (st_heap st1 ++ L) d
      = Some (default_document Sample.version "profile")
    ∧ to_json (default_document Sample.version "profile")
      = Some (default_json Sample.version "profile").
Proof.
  apply (constructed_entity_holds_defaults Sample.version
    (Sample.project_heap ++ Sample.config_both) Sample.project_fs []
    (VRef 0) (VStr "/proj") 2 "users" "profile"
    (TObj KObject [("config", TObj KObject [("projectPath", TStr "/proj")])])).
  - cbn. lia.
  - apply sample_context.
  - apply closed_below_Forall. apply (bool_decide_unpack _). by vm_compute.
  - reflexivity.
  - reflexivity.
  - reflexivity.
  - done.
  - done.
Defined.

(** ** [save] *)

Section more_prop_lemmas.
Context {A : Type}.
Implicit Types (ps : list (string * A)) (k : string) (v : A).

Lemma lookup_delete_ne k k' ps :
  k ≠ k' → lookup_prop k (delete_prop k' ps) = lookup_prop k ps.
Proof.
  intros Hne. induction ps as [|[k1 v1] ps IH]; cbn; [done|].
  destruct (String.eqb k' k1) eqn:E; cbn.
  - apply String.eqb_eq in E as <-.
    by apply String.eqb_neq in Hne as ->.
  - by rewrite IH.
Qed.

Lemma elem_of_delete_prop k k' v ps : (k, v) ∈ delete_prop k' ps → (k, v) ∈ ps.
Proof.
  induction ps as [|[k1 v1] ps IH]; cbn; [done|].
  destruct (String.eqb k' k1).
  - intros ?. by apply list_elem_of_further, IH.
  - intros [->|Hin]%elem_of_cons; [apply list_elem_of_here|].
    by apply list_elem_of_further, IH.
Qed.

End more_prop_lemmas.

Section json_lemmas.

Lemma to_json_obj k ps : ∃ j, to_json (TObj k ps) = Some j.
Proof. destruct k; cbn; eauto. Qed.

End json_lemmas.

Section depth_lemmas.
Implicit Types (h : heap) (v : value) (t : tree).

Lemma tree_depth_elem k ps key x :
  (key, x) ∈ ps → tree_depth x < tree_depth (TObj k ps).
Proof.
  cbn [tree_depth]. induction ps as [|[k' y] ps IH]; [by intros ?%elem_of_nil|].
  intros [[= <- <-]|Hin]%elem_of_cons; cbn [foldr snd].
  - lia.
  - specialize (IH Hin). lia.
Qed.

Lemma snapshot_unique f f' h v t t' :
  snapshot f h v = Some t → snapshot f' h v = Some t' → t = t'.
Proof.
  intros E E'.
  apply (snapshot_mono f (f `max` f')) in E; [|lia].
  apply (snapshot_mono f' (f `max` f')) in E'; [|lia]. congruence.
Qed.

Lemma snap_props_impl f h h' vs (ps : list (string * tree)) :
  snap_props f h vs ps →
  (∀ k v t, (k, t) ∈ ps → snapshot f h v = Some t → snapshot f h' v = Some t) →
  snap_props f h' vs ps.
Proof.
  induction 1 as [|[k1 v1] [k2 t2] vs ps [Hk Hs] _ IH]; intros Himp; [constructor|].
  cbn in *. constructor.
  - split; [done|]. apply (Himp k2); [apply list_elem_of_here|done].
  - apply IH. intros k v t Hin. apply (Himp k). by apply list_elem_of_further.
Qed.

Lemma snap_props_lookup_r f h vs (ps : list (string * tree)) k t :
  snap_props f h vs ps → lookup_prop k ps = Some t →
  ∃ v, lookup_prop k vs = Some v ∧ snapshot f h v = Some t.
Proof.
  induction 1 as [|[k1 v1] [k2 t2] vs ps [Hk Hs] _ IH]; cbn in *; [done|].
  subst k2. destruct (String.eqb k k1); [|done].
  intros [= <-]. by exists v1.
Qed.

(** Overwriting the object at [l] leaves the snapshots that are
    shallower than that of [l]: they cannot go through it. *)
Lemma snapshot_shallow h l o' fT T :
  snapshot fT h (VRef l) = Some T →
  ∀ f v t, snapshot f h v = Some t → tree_depth t < tree_depth T →
   snapshot f (<[l := o']> h) v = Some t.
Proof.
  intros HT. induction f as [|f IH]; intros v t Hs Hd.
  - by destruct v.
  - destruct v as [| | | | |l0]; try done.
    destruct (decide (l0 = l)) as [->|Hne].
    { rewrite (snapshot_unique _ _ _ _ _ _ Hs HT) in Hd. lia. }
    pose proof Hs as Hs'. rewrite snapshot_ref in Hs'.
    destruct (h !! l0) as [o|] eqn:Ho; [|done]. cbn in Hs'.
    destruct (mapM _ (oprops o)) as [ps|] eqn:E; [|done]. cbn in Hs'.
    injection Hs' as <-. apply mapM_snap_props in E.
    apply snapshot_obj. exists o.
    split; [by rewrite list_lookup_insert_ne|]. split; [done|].
    apply (snap_props_impl _ h); [done|].
    intros k v t Hin Hv. apply IH; [done|].
    pose proof (tree_depth_elem (okind o) ps k t Hin). lia.
Qed.

(** [delete v[key]] on the root of a snapshot. *)
Lemma snapshot_delete_root f h l o k ps key :
  h !! l = Some o → snapshot f h (VRef l) = Some (TObj k ps) →
  snapshot f (<[l := Obj (okind o) (delete_prop key (oprops o))]> h) (VRef l)
  = Some (TObj k (delete_prop key ps)).
Proof.
  intros Ho HT. destruct f as [|f]; [done|].
  pose proof HT as (o1 & Ho1 & Hk & Hsp)%snapshot_obj.
  rewrite Ho in Ho1. injection Ho1 as <-.
  apply snapshot_obj. eexists.
  split; [apply list_lookup_insert_eq; by eapply lookup_lt_Some|].
  split; [done|]. cbn [oprops].
  apply (snap_props_impl _ h); [by apply snap_props_delete|].
  intros k' v t Hin Hs. eapply snapshot_shallow; [exact HT|exact Hs|].
  apply (tree_depth_elem k _ k'). by eapply elem_of_delete_prop.
Qed.
End depth_lemmas.

Section frames.
Implicit Types (st : state) (v : value).

Lemma bind_inv {A B} (m : M A) (f : A → M B) st st' b :
  (m ≫= f) st = (st', Ok b) →
  ∃ st1 a, m st = (st1, Ok a) ∧ f a st1 = (st', Ok b).
Proof. unfold mbind, M_bind. destruct (m st) as [st1 [a|e]]; [eauto|done]. Qed.

Lemma keeps_bind {A B} (m : M A) (f : A → M B) :
  keeps_heap m → (∀ a, keeps_heap (f a)) → keeps_heap (m ≫= f).
Proof.
  intros Hm Hf st st' r. unfold mbind, M_bind.
  destruct (m st) as [st1 [a|e]] eqn:E.
  - intros E'. destruct (Hm _ _ _ E) as [<- <-]. by eapply Hf.
  - intros [= <- <-]. by eapply Hm.
Qed.

Lemma keeps_ret {A} (a : A) : keeps_heap (mret a).
Proof. by intros st st' r [= <- <-]. Qed.

Lemma keeps_throw {A} e : keeps_heap (@throw A e).
Proof. by intros st st' r [= <- <-]. Qed.

Lemma keeps_get_prop v k : keeps_heap (get_prop v k).
Proof. by intros st st' r [= <- <-]. Qed.

Lemma keeps_get_path v ks : keeps_heap (get_path v ks).
Proof. intros st st' r. rewrite get_path_run. by intros [= <- <-]. Qed.

Lemma keeps_path_join vs : keeps_heap (path_join vs).
Proof.
  unfold path_join. destruct (string_args vs); [apply keeps_ret|apply keeps_throw].
Qed.

Lemma keeps_path_join_str vs : keeps_heap (path_join_str vs).
Proof.
  apply keeps_bind; [apply keeps_path_join|]. intros []; apply keeps_ret.
Qed.

Lemma keeps_fileExistsSync p : keeps_heap (fileExistsSync p).
Proof. by intros st st' r [= <- <-]. Qed.

Lemma keeps_mkdirSync v : keeps_heap (mkdirSync v).
Proof.
  intros st st' r. unfold mkdirSync.
  repeat case_match; by intros [= <- <-].
Qed.

Lemma keeps_writeFile p j : keeps_heap (writeFile p j).
Proof.
  intros st st' r. unfold writeFile.
  repeat case_match; by intros [= <- <-].
Qed.

Lemma keeps_JSON_stringify v : keeps_heap (JSON_stringify v).
Proof.
  intros st st' r. unfold JSON_stringify.
  repeat case_match; by intros [= <- <-].
Qed.

Lemma keeps_Object_keys v : keeps_heap (Object_keys v).
Proof.
  intros st st' r. unfold Object_keys.
  repeat case_match; by intros [= <- <-].
Qed.

Lemma keeps_extends {A} (m : M A) : keeps_heap m → extends_heap m.
Proof.
  intros Hm st st' a E. exists []. rewrite app_nil_r. by eapply Hm.
Qed.

Lemma extends_bind {A B} (m : M A) (f : A → M B) :
  extends_heap m → (∀ a, extends_heap (f a)) → extends_heap (m ≫= f).
Proof.
  intros Hm Hf st st' b (st1 & a & E1 & E2)%bind_inv.
  destruct (Hm _ _ _ E1) as [L1 H1]. destruct (Hf _ _ _ _ E2) as [L2 H2].
  exists (L1 ++ L2). by rewrite H2, H1, app_assoc.
Qed.

Lemma extends_for_each {A} (ks : list A) (body : A → M unit) :
  (∀ k, extends_heap (body k)) → extends_heap (for_each ks body).
Proof.
  intros Hb. induction ks as [|k ks IH]; cbn [for_each].
  - apply keeps_extends, keeps_ret.
  - apply extends_bind; [apply Hb|]. by intros _.
Qed.

End frames.

Section save.
Context `{SUtils} `{FunctionLaws} `{!FunctionStoreLaws}.

Lemma save_scaffold_keeps this : keeps_heap (save_scaffold this).
Proof.
  unfold save_scaffold, _create.
  apply keeps_bind; [apply keeps_get_path|]. intros pp.
  destruct (negb (truthy pp)); [apply keeps_throw|].
  apply keeps_bind; [apply keeps_get_path|]. intros fp.
  apply keeps_bind; [apply keeps_path_join_str|]. intros p.
  apply keeps_bind; [apply keeps_fileExistsSync|]. intros ex.
  destruct (negb ex); [|apply keeps_ret].
  apply keeps_bind; [apply keeps_get_path|]. intros fp'.
  apply keeps_bind; [apply keeps_mkdirSync|]. intros _.
  apply keeps_bind; [apply keeps_path_join_str|]. intros p'.
  apply keeps_writeFile.
Qed.

Lemma save_nested_extends this options : extends_heap (save_nested this options).
Proof.
  unfold save_nested.
  apply extends_bind.
  { destruct (truthy options); apply keeps_extends;
      [apply keeps_get_prop|apply keeps_ret]. }
  intros deep. destruct (truthy deep); [|apply keeps_extends, keeps_ret].
  apply extends_bind; [apply keeps_extends, keeps_get_prop|]. intros fns.
  apply extends_bind; [apply keeps_extends, keeps_Object_keys|]. intros keys.
  apply extends_for_each. intros f.
  apply extends_bind; [apply keeps_extends, keeps_get_path|]. intros child.
  apply extends_bind; [|intros _; apply keeps_extends, keeps_ret].
  intros st st' r. unfold invoke, mbind, M_bind, get_heap.
  destruct (instanceof_Function (st_heap st) child) eqn:Hi; [|done].
  by apply F_save_frame.
Qed.

(** An entity stays what it is when objects are added to the heap. *)
Lemma module_at_app n h L tl fl fobj :
  module_at n h tl fl fobj → module_at n (h ++ L) tl fl fobj.
Proof.
  intros (Hn & Htl & Hc & Hf & Hfo & Hnd & Hinst).
  assert (∀ l, l < length h → (h ++ L) !! l = h !! l) as Hold
    by (intros l Hl; by apply lookup_app_l).
  split; [rewrite length_app; lia|]. split; [done|].
  split; [|split; [|split; [|split]]].
  - intros l o Hl Ho. rewrite Hold in Ho by lia. by apply (Hc l o).
  - rewrite <- Hf. apply read_prop_agree. intros ? [= <-]. apply Hold. lia.
  - rewrite Hold; [done|]. by eapply lookup_lt_Some.
  - done.
  - rewrite Forall_forall in Hinst. apply Forall_forall. intros p Hp.
    rewrite <- (Hinst p Hp). apply instanceof_agree. intros l Hl.
    apply Hold. pose proof (instanceof_valid _ _ (Hinst p Hp)) as Hv.
    rewrite Hl in Hv. exact Hv.
Qed.

Lemma snapshot_app n h L v t :
  closed_below n h → n ≤ length h → within 0 n v →
  snapshot (length h) h v = Some t →
  snapshot (length (h ++ L)) (h ++ L) v = Some t.
Proof.
  intros Hc Hn Hv Hs.
  apply (snapshot_below n _ h); [done| |done|].
  - intros l Hl. apply lookup_app_l. lia.
  - apply (snapshot_mono (length h)); [rewrite length_app; lia|done].
Qed.

(** The third step of [save] writes what [get] returns, less its
    [functions]. *)
Lemma save_write_run st n tl fl fobj k ps cl fp :
  module_at n (st_heap st) tl fl fobj →
  snapshot (length (st_heap st)) (st_heap st) (VRef tl) = Some (TObj k ps) →
  read_prop (st_heap st) (VRef tl) "_config" = Ok (VRef cl) →
  read_prop (st_heap st) (VRef cl) "fullPath" = Ok (VStr fp) →
  ∃ L d gps j h',
    get (VRef tl) st = (set_heap st (st_heap st ++ L), Ok d)
    ∧ snapshot (length L) (st_heap st ++ L) d = Some (TObj k gps)
    ∧ get_tree (TObj k ps) = TObj k gps
    ∧ to_json (TObj k (delete_prop "functions" gps)) = Some j
    ∧ save_write (VRef tl) st
      = writeFile (descriptor_path fp) j (State h' (st_fs st) (st_console st))
    ∧ length h' = length (st_heap st ++ L)
    ∧ (∀ l, l < length (st_heap st) → h' !! l = st_heap st !! l).
Proof.
  intros Hm HT Hcfg Hfp.
  destruct (get_ok st n tl fl fobj _ Hm HT) as (L & d & E & Hsc & Hwd & Hs).
  destruct (entity_shape st n tl fl fobj k ps Hm HT)
    as (f1 & ot & fps & Hlen & Hot & Hko & Hsp & Hlf & Hpsf & Hfps & Hfl).
  set (h := st_heap st) in *.
  set (gps := delete_prop "_config" (delete_prop "_S" (get_functions ps))).
  assert (get_tree (TObj k ps) = TObj k gps) as Hgt by reflexivity.
  rewrite Hgt in Hs.
  pose proof Hs as (f' & ld & o & HL & -> & Ho & Hk & Hspd)%snapshot_obj_inv.
  cbn in Hwd.
  assert (∃ kf gfs, lookup_prop "functions" gps = Some (TObj kf gfs))
    as (kf & gfs & Hgf).
  { subst gps. rewrite !lookup_delete_ne by done.
    unfold get_functions. rewrite Hpsf, lookup_update_eq. eauto. }
  destruct (snap_props_lookup_r _ _ _ _ _ _ Hspd Hgf) as (vf & Hvf & Hsf).
  apply snapshot_obj_inv in Hsf as (_ & lf & _ & _ & -> & _).
  destruct (to_json_obj k (delete_prop "functions" gps)) as [j Hj].
  set (o3 := Obj (okind o) (delete_prop "functions" (oprops o))).
  set (h3 := <[ld := o3]> (h ++ L)).
  assert (∀ l, l < length h → h3 !! l = h !! l) as Hold.
  { intros l Hl. subst h3. rewrite list_lookup_insert_ne by lia.
    by apply lookup_app_l. }
  assert (tl < length h) as Htl by (destruct Hm as (? & ? & _); lia).
  assert (cl < length h) as Hcl.
  { destruct (h !! cl) eqn:Ecl; [by eapply lookup_lt_Some|].
    cbn in Hfp. by rewrite Ecl in Hfp. }
  exists L, (VRef ld), gps, j, h3.
  split; [done|]. split; [done|]. split; [done|]. split; [done|].
  split; [|split; [by subst h3; rewrite length_insert|done]].
  unfold save_write. eapply bind_ok; [exact E|].
  eapply bind_ok.
  { rewrite get_prop_run. cbn [st_heap set_heap].
    by rewrite (read_prop_ref _ _ _ _ Ho), Hvf. }
  cbn [default from_option id truthy].
  eapply bind_ok.
  { unfold del_prop. cbn [st_heap set_heap]. by rewrite Ho. }
  fold o3. fold h3.
  eapply bind_ok.
  { rewrite get_path_run. cbn [read_path st_heap set_heap].
    rewrite (read_prop_agree h h3) by (intros ? [= <-]; by apply Hold).
    rewrite Hcfg.
    rewrite (read_prop_agree h h3) by (intros ? [= <-]; by apply Hold).
    by rewrite Hfp. }
  eapply bind_ok; [reflexivity|].
  eapply bind_ok.
  { unfold JSON_stringify. cbn [st_heap set_heap].
    assert (snapshot (length h3) h3 (VRef ld)
      = Some (TObj k (delete_prop "functions" gps))) as ->.
    { apply (snapshot_mono (length L)).
      - subst h3. rewrite length_insert, length_app. lia.
      - by apply snapshot_delete_root. }
    by rewrite Hj. }
  reflexivity.
Qed.


End save.

(** ** The sample Function class persists and restores *)

Section path_lemmas.
Implicit Types (a b c x y : string) (xs : list string).

Lemma string_app_assoc a b c : (a +:+ b) +:+ c = a +:+ (b +:+ c).
Proof.
  induction a as [|ch a IH]; [done|].
  change (String ch ((a +:+ b) +:+ c) = String ch (a +:+ b +:+ c)).
  by rewrite IH.
Qed.

Lemma string_app_nonempty_l a b : a ≠ EmptyString → a +:+ b ≠ EmptyString.
Proof. by destruct a. Qed.

Lemma join_segments_snoc xs y :
  xs ≠ [] → join_segments (xs ++ [y]) = join_segments xs +:+ "/" +:+ y.
Proof.
  induction xs as [|x [|x' xs] IH]; [done|done|]. intros _.
  change (join_segments ((x :: x' :: xs) ++ [y]))
    with (x +:+ "/" +:+ join_segments ((x' :: xs) ++ [y])).
  rewrite IH by done.
  change (join_segments (x :: x' :: xs))
    with (x +:+ "/" +:+ join_segments (x' :: xs)).
  by rewrite !string_app_assoc.
Qed.

Lemma join_segments_nonempty x xs :
  x ≠ EmptyString → join_segments (x :: xs) ≠ EmptyString.
Proof. intros Hx. destruct xs; [done|]. by apply string_app_nonempty_l. Qed.

(** The descriptor of a function, from the directory of the function
    and from the directory of its module. *)
Lemma function_path_eq root p1 p2 f :
  root ≠ EmptyString → f ≠ EmptyString →
  join_segments
  (filter (λ s, s ≠ EmptyString)
   [join_segments (filter (λ s, s ≠ EmptyString) [root; p1; p2; f]);
  "s-function.json"])
  = function_descriptor_path
  (join_segments (filter (λ s, s ≠ EmptyString) [root; p1; p2])) f.
Proof.
  intros Hr Hf. unfold function_descriptor_path.
  set (ne := λ s : string, s ≠ EmptyString).
  assert (filter ne [root; p1; p2; f] = filter ne [root; p1; p2] ++ [f]) as ->.
  { change [root; p1; p2; f] with ([root; p1; p2] ++ [f]).
    rewrite filter_app. f_equal. by rewrite filter_cons_True. }
  assert (∃ A, filter ne [root; p1; p2] = root :: A) as [A ->].
  { rewrite filter_cons_True by done. eauto. }
  rewrite join_segments_snoc by done.
  set (J := join_segments (root :: A)).
  assert (J ≠ EmptyString) as HJ by by apply join_segments_nonempty.
  rewrite (filter_cons_True ne (J +:+ "/" +:+ f))
    by by apply string_app_nonempty_l.
  rewrite (filter_cons_True ne J) by done.
  rewrite (filter_cons_True ne f) by done.
  rewrite !(filter_cons_True ne "s-function.json") by done.
  rewrite !filter_nil. cbn [join_segments]. by rewrite !string_app_assoc.
Qed.
End path_lemmas.

Lemma heap_extension (h h' : heap) :
  length h ≤ length h' → (∀ l, l < length h → h' !! l = h !! l) →
  h' = h ++ drop (length h) h'.
Proof.
  intros Hlen Hag. rewrite <- (take_drop (length h) h') at 1. f_equal.
  apply list_eq. intros i. destruct (decide (i < length h)) as [Hi|Hi].
  - rewrite lookup_take_lt by done. by apply Hag.
  - rewrite lookup_take_ge by lia. symmetry. apply lookup_ge_None_2. lia.
Qed.

Section sample_store_laws.
Import Sample.

Lemma keeps_function_path this : keeps_heap (function_path this).
Proof.
  unfold function_path.
  repeat (apply keeps_bind; [apply keeps_get_path|intros ?]).
  apply keeps_path_join.
Qed.

Lemma sample_save_frame st child st' r :
  instanceof_Function (st_heap st) child = true →
  function_save child st = (st', Ok r) → ∃ L, st_heap st' = st_heap st ++ L.
Proof.
  intros Hi E. unfold function_save in E.
  apply bind_inv in E as (s1 & fp & E1 & E).
  apply keeps_function_path in E1 as [H1 _].
  apply bind_inv in E as (s2 & p & E2 & E).
  apply keeps_path_join_str in E2 as [H2 _].
  apply bind_inv in E as (s3 & ex & E3 & E).
  apply keeps_fileExistsSync in E3 as [H3 _].
  apply bind_inv in E as (s4 & [] & E4 & E).
  assert (st_heap s4 = st_heap s3) as H4.
  { destruct (negb ex);
      [by apply keeps_mkdirSync in E4 as [? _]|by apply keeps_ret in E4 as [? _]]. }
  apply bind_inv in E as (s5 & clone & E5 & E).
  apply bind_inv in E as (s6 & text & E6 & E).
  apply keeps_JSON_stringify in E6 as [H6 _].
  apply bind_inv in E as (s7 & [] & E7 & E).
  apply keeps_writeFile in E7 as [H7 _].
  injection E as <- _.
  assert (st_heap s4 = st_heap st) as H04 by congruence.
  destruct (snapshot (length (st_heap s4)) (st_heap s4) child) as [t|] eqn:Et.
  - destruct (sample_get_ok s4 child t) as (L & d & Eg & _);
      [by rewrite H04|done|].
    rewrite Eg in E5. injection E5 as <- <-. exists L.
    rewrite H7, H6. cbn. by rewrite H04.
  - unfold function_get, cloneDeep, mbind, M_bind in E5. by rewrite Et in E5.
Qed.

Lemma sample_open_spec st S root c m f :
  context_at (st_heap st) S (VStr root) → root ≠ EmptyString →
  truthy c = true → truthy m = true → f ≠ EmptyString →
  is_file (st_fs st) (function_descriptor_path (module_path root c m) f) = true →
  ∃ L l,
  (func ← function_new S c m (VStr f); function_load func) st
  = (set_heap st (st_heap st ++ L), Ok (VRef l))
  ∧ length (st_heap st) ≤ l
  ∧ instanceof_Function (st_heap st ++ L) (VRef l) = true.
Proof.
  intros (HS & cfg & Rcfg & Hcfg & Rpp & _) Hroot Tc Tm Hf Hfile.
  destruct st as [h fs con]. cbn [st_heap st_fs] in *.
  assert (truthy (VStr f) = true) as Tf
    by (cbn; by apply negb_true_iff, String.eqb_neq).
  set (L0 := [Obj KFunction [("_S", S); ("_config", VRef (length h + 1));
    ("name", VStr f)];
    Obj KObject [("component", c); ("module", m); ("function", VStr f)]]).
  assert (function_new S c m (VStr f) (State h fs con)
    = (State (h ++ L0) fs con, Ok (VRef (length h + 0)))) as Enew.
  { rewrite <- (app_nil_r h) at 1. unfold function_new.
    repeat mstep. reflexivity. }
  set (parse := parseSPath (VStr (buildSPath c m))).
  assert (function_path (VRef (length h + 0)) (State (h ++ L0) fs con)
    = (State (h ++ L0) fs con,
    Ok (VStr (join_segments
    (filter (λ s, s ≠ EmptyString)
    [root; parse.1; parse.2; f]))))) as Epath.
  { unfold function_path. repeat mstep. reflexivity. }
  unfold is_file in Hfile.
  destruct (fs !! function_descriptor_path (module_path root c m) f)
    as [[j|]|] eqn:Efile; try done.
  unfold module_path in Efile. fold parse in Efile.
  rewrite <- function_path_eq in Efile by done.
  destruct (alloc_tree (of_json j) (h ++ L0)) as [h1 v] eqn:Ealloc.
  destruct (alloc_tree_spec _ _ _ _ Ealloc) as (L1 & -> & _).
  destruct (assign_props_frame (State ((h ++ L0) ++ L1) fs con) (length h + 0) v)
    as (h2 & Eas & Hlen & Hfr & Hk).
  { cbn. rewrite !length_app. cbn. lia. }
  cbn [st_heap set_heap] in *.
  assert (h2 = h ++ drop (length h) h2) as Hext.
  { apply heap_extension.
    - rewrite Hlen, !length_app. lia.
    - intros l Hl. rewrite Hfr by lia. rewrite <- app_assoc. by apply lookup_app_l. }
  exists (drop (length h) h2), (length h + 0).
  split; [|split; [lia|]].
  - eapply bind_ok; [exact Enew|]. unfold function_load.
    eapply bind_ok; [exact Epath|].
    eapply bind_ok; [reflexivity|].
    eapply bind_ok.
    { unfold readAndParseJsonSync. cbn [st_fs st_heap]. rewrite Efile, Ealloc.
      reflexivity. }
    unfold set_heap. cbn [st_heap st_fs st_console].
    rewrite Eas. unfold set_heap. cbn. by rewrite <- Hext.
  - rewrite <- Hext. cbn [instanceof_Function].
    rewrite <- app_assoc, lookup_ext in Hk. cbn in Hk.
    destruct (h2 !! (length h + 0)) as [o|]; [|done]. cbn in Hk.
    injection Hk as Hk. by rewrite Hk.
Qed.

Global Instance sample_store_laws : FunctionStoreLaws := {|
  F_save_frame := sample_save_frame;
  F_open_spec := sample_open_spec
  |}.
End sample_store_laws.

Lemma sample_module_before_save :
  module_at (length (st_heap SampleStates.after_set))
    (st_heap SampleSaves.before_save) 3 11 SampleStates.functions_after_set.
Proof. apply module_at_app, sample_module. Qed.


(** ** [getPopulated]: validation *)

Section populate_checks.
Context `{SUtils}.
Implicit Types (st : state) (w : world) (h : heap).

(** A property that reads truthy is read off an object that is there,
    or off a primitive: it reads the same in a heap that has grown. *)
Lemma read_prop_truthy_stable h h' v k x :
  read_prop h v k = Ok x → truthy x = true →
  (∀ l, l < length h → h' !! l = h !! l) →
  read_prop h' v k = Ok x.
Proof.
  intros Hr Tx Hag. rewrite <- Hr. apply read_prop_agree. intros l ->.
  apply Hag. cbn in Hr. destruct (h !! l) eqn:E; [by eapply lookup_lt_Some|].
  injection Hr as <-. done.
Qed.

Lemma prepare_without_options st this options :
  truthy options = false →
  ∃ st', getPopulated_prepare this options st = (st', Throw (SError msg_stage_region)).
Proof.
  intros To. unfold getPopulated_prepare. rewrite To.
  destruct st as [h fs con]. rewrite <- (app_nil_r h). eexists.
  repeat mstep. reflexivity.
Qed.

Lemma prepare_without_stage st this options stage :
  truthy options = true →
  read_prop (st_heap st) options "stage" = Ok stage → truthy stage = false →
  getPopulated_prepare this options st = (st, Throw (SError msg_stage_region)).
Proof.
  intros To Hs Ts. unfold getPopulated_prepare. rewrite To, ret_bind.
  eapply bind_ok; [by rewrite get_prop_run, Hs|]. by rewrite Ts.
Qed.

Lemma prepare_without_region st this options stage region :
  truthy options = true →
  read_prop (st_heap st) options "stage" = Ok stage → truthy stage = true →
  read_prop (st_heap st) options "region" = Ok region → truthy region = false →
  getPopulated_prepare this options st = (st, Throw (SError msg_stage_region)).
Proof.
  intros To Hs Ts Hr Tr. unfold getPopulated_prepare. rewrite To, ret_bind.
  eapply bind_ok; [by rewrite get_prop_run, Hs|]. rewrite Ts. cbn [negb].
  eapply bind_ok; [by rewrite get_prop_run, Hr|]. by rewrite Tr.
Qed.

Lemma prepare_without_root st this options stage region pp :
  truthy options = true →
  read_prop (st_heap st) options "stage" = Ok stage → truthy stage = true →
  read_prop (st_heap st) options "region" = Ok region → truthy region = true →
  read_path (st_heap st) this ["_S"; "config"; "projectPath"] = Ok pp →
  truthy pp = false →
  getPopulated_prepare this options st
  = (st, Throw (SError msg_populate_no_project)).
Proof.
  intros To Hs Ts Hr Tr Hpp Tpp. unfold getPopulated_prepare. rewrite To, ret_bind.
  eapply bind_ok; [by rewrite get_prop_run, Hs|]. rewrite Ts. cbn [negb].
  eapply bind_ok; [by rewrite get_prop_run, Hr|]. rewrite Tr. cbn [negb].
  eapply bind_ok; [by rewrite get_path_run, Hpp|]. by rewrite Tpp.
Qed.

Lemma prepare_ok st tl k ps options stage region pp :
  truthy options = true →
  read_prop (st_heap st) options "stage" = Ok stage → truthy stage = true →
  read_prop (st_heap st) options "region" = Ok region → truthy region = true →
  read_path (st_heap st) (VRef tl) ["_S"; "config"; "projectPath"] = Ok pp →
  truthy pp = true →
  snapshot (length (st_heap st)) (st_heap st) (VRef tl) = Some (TObj k ps) →
  ∃ st' clone S,
  getPopulated_prepare (VRef tl) options st
  = (st', Ok (options, clone, S, stage, region)).
Proof.
  intros To Hs Ts Hr Tr Hpp Tpp HT.
  destruct (cloneDeep_obj st (VRef tl) k ps HT) as (L1 & vs & Eclone & _).
  set (h := st_heap st) in *.
  set (c := length h + length L1) in *.
  set (h1 := h ++ L1 ++ [Obj k vs]) in *.
  assert (h1 !! c = Some (Obj k vs)) as Hc.
  { subst h1 c. rewrite app_assoc, lookup_app_r by (rewrite length_app; lia).
    rewrite length_app. by replace (length h + length L1 - _) with 0 by lia. }
  assert (∀ l, l < length h → h1 !! l = h !! l) as Hold
    by (intros l Hl; by apply lookup_app_l).
  (* the reads that follow the copy, in any heap that kept what was there *)
  assert (∀ st2, (∀ l, l < length h → st_heap st2 !! l = h !! l) →
    ∃ S,
    (S ← get_prop (VRef tl) "_S";
    stage ← get_prop options "stage";
    region ← get_prop options "region";
    mret (options, VRef c, S, stage, region)) st2
    = (st2, Ok (options, VRef c, S, stage, region))) as Hrest.
  { intros st2 Hag.
    destruct (read_prop_total (st_heap st2) (VRef tl) "_S") as [S HS]; [done..|].
    exists S.
    eapply bind_ok; [by rewrite get_prop_run, HS|].
    eapply bind_ok.
    { rewrite get_prop_run. by rewrite (read_prop_truthy_stable h _ _ _ _ Hs Ts Hag). }
    eapply bind_ok.
    { rewrite get_prop_run. by rewrite (read_prop_truthy_stable h _ _ _ _ Hr Tr Hag). }
    reflexivity. }
  unfold getPopulated_prepare. rewrite To.
  destruct (truthy (default VUndef (lookup_prop "functions" vs))) eqn:Tcf.
  - set (h2 := <[c := Obj k (update_prop "functions" (VRef (length h1)) vs)]>
      (h1 ++ [Obj KObject []])).
    destruct (Hrest (set_heap st h2)) as [S ES].
    { intros l Hl. cbn [st_heap set_heap]. subst h2.
      rewrite list_lookup_insert_ne by (subst c; lia).
      rewrite lookup_app_l by (subst h1; rewrite length_app; lia). by apply Hold. }
    exists (set_heap st h2), (VRef c), S.
    rewrite ret_bind.
    eapply bind_ok; [rewrite get_prop_run; fold h; by rewrite Hs|]. rewrite Ts. cbn [negb].
    eapply bind_ok; [rewrite get_prop_run; fold h; by rewrite Hr|]. rewrite Tr. cbn [negb].
    eapply bind_ok; [rewrite get_path_run; fold h; by rewrite Hpp|]. rewrite Tpp. cbn [negb].
    eapply bind_ok; [exact Eclone|].
    eapply bind_ok.
    { rewrite get_prop_run. cbn [st_heap set_heap]. fold h1.
      by rewrite (read_prop_ref _ _ _ _ Hc). }
    cbn [oprops]. rewrite Tcf.
    eapply bind_ok; [|exact ES].
    eapply bind_ok; [reflexivity|]. cbn [st_heap set_heap]. fold h1.
    rewrite (set_prop_run _ c (Obj k vs)).
    2:{ cbn [st_heap set_heap]. rewrite lookup_app_l; [exact Hc|].
      by eapply lookup_lt_Some. }
    by rewrite !set_heap_set_heap.
  - destruct (Hrest (set_heap st h1)) as [S ES]; [done|].
    exists (set_heap st h1), (VRef c), S.
    rewrite ret_bind.
    eapply bind_ok; [rewrite get_prop_run; fold h; by rewrite Hs|]. rewrite Ts. cbn [negb].
    eapply bind_ok; [rewrite get_prop_run; fold h; by rewrite Hr|]. rewrite Tr. cbn [negb].
    eapply bind_ok; [rewrite get_path_run; fold h; by rewrite Hpp|]. rewrite Tpp. cbn [negb].
    eapply bind_ok; [exact Eclone|].
    eapply bind_ok.
    { rewrite get_prop_run. cbn [st_heap set_heap]. fold h1.
      by rewrite (read_prop_ref _ _ _ _ Hc). }
    cbn [oprops]. rewrite Tcf.
    eapply bind_ok; [reflexivity|]. exact ES.
Qed.

Lemma getPopulated_throws populate_turns this options w st' e :
  getPopulated_prepare this options (w_state w) = (st', Throw e) →
  getPopulated populate_turns this options w = (set_state w st', Throw e).
Proof.
  intros E. unfold getPopulated, mbind, W_bind, liftM. by rewrite E.
Qed.

Lemma then_calls p cb w :
  ∃ w' d, then_ p cb w = (w', Ok d) ∧ w_calls w' = w_calls w.
Proof.
  unfold then_, mbind, W_bind, new_promise, register. cbn.
  destruct (_ !! p) as [[[o|] rs]|]; eauto.
Qed.

Lemma async_calls turns work w :
  ∃ w' p, async turns work w = (w', Ok p) ∧ w_calls w' = w_calls w.
Proof.
  unfold async. destruct (work (w_state w)) as [st r].
  destruct turns as [|n]; [|eauto].
  eexists _, _. split; [done|]. unfold settle.
  by destruct (_ !! _) as [[[o|] rs]|].
Qed.

Lemma getPopulated_proceeds populate_turns this options w st' clone S stage region :
  getPopulated_prepare this options (w_state w)
  = (st', Ok (options, clone, S, stage, region)) →
  ∃ w' p,
  getPopulated populate_turns this options w = (w', Ok p)
  ∧ w_calls w' = w_calls w ++ [Populate S clone stage region].
Proof.
  intros E. unfold getPopulated.
  unfold mbind at 1. unfold W_bind, liftM. rewrite E.
  unfold mbind at 1. unfold W_bind, new_var.
  unfold mbind at 1. unfold W_bind, add_call.
  set (w1 := World _ _ _ _ _ _ _).
  destruct (async_calls populate_turns (populate S clone stage region) w1)
    as (w2 & p & E2 & C2).
  unfold mbind at 1. unfold W_bind. rewrite E2.
  unfold mbind at 1. unfold W_bind.
  lazymatch goal with
    | |- context [then_ p ?cb w2] =>
    destruct (then_calls p cb w2) as (w3 & p1 & E3 & C3)
    end.
  rewrite E3.
  lazymatch goal with
    | |- context [then_ p1 ?cb w3] =>
    destruct (then_calls p1 cb w3) as (w4 & p2 & E4 & C4)
    end.
  exists w4, p2. split; [done|]. by rewrite C4, C3, C2.
Qed.

(** C8: [getPopulated(options)] fails with a ServerlessError whenever
    [options.stage] or [options.region] is absent (or reads falsy, be it
    that no options were given at all), and whenever the context of the
    entity has no project root; in both cases the Populator is not called.
    With stage, region and project root present it calls the Populator,
    with the copy of the entity, the stage and the region, and returns a
    promise. *)
Theorem getPopulated_requires_stage_region_and_root
  populate_turns w tl k ps options pp :
  read_path (st_heap (w_state w)) (VRef tl) ["_S"; "config"; "projectPath"] = Ok pp →
  snapshot (length (st_heap (w_state w))) (st_heap (w_state w)) (VRef tl)
  = Some (TObj k ps) →
  let stage := option_read (st_heap (w_state w)) options "stage" in
  let region := option_read (st_heap (w_state w)) options "region" in
  (truthy stage = false ∨ truthy region = false →
   ∃ w', getPopulated populate_turns (VRef tl) options w
       = (w', Throw (SError msg_stage_region))
       ∧ w_calls w' = w_calls w)
  ∧ (truthy stage = true → truthy region = true → truthy pp = false →
   ∃ w', getPopulated populate_turns (VRef tl) options w
         = (w', Throw (SError msg_populate_no_project))
         ∧ w_calls w' = w_calls w)
  ∧ (truthy stage = true → truthy region = true → truthy pp = true →
   ∃ w' p clone S,
     getPopulated populate_turns (VRef tl) options w = (w', Ok p)
     ∧ w_calls w' = w_calls w ++ [Populate S clone stage region]).
Proof.
  intros Hpp HT stage region. subst stage region. unfold option_read.
  destruct (truthy options) eqn:To.
  - assert (options ≠ VUndef ∧ options ≠ VNull) as [Hu Hn]
      by (split; intros ->; done).
    destruct (read_prop_total (st_heap (w_state w)) options "stage" Hu Hn)
      as [stage Hs].
    destruct (read_prop_total (st_heap (w_state w)) options "region" Hu Hn)
      as [region Hr].
    rewrite Hs, Hr. split; [|split].
    + intros Hor. exists (set_state w (w_state w)). split; [|done].
      apply getPopulated_throws.
      destruct (truthy stage) eqn:Ts.
      * destruct Hor as [|Tr]; [done|]. by eapply prepare_without_region.
      * by eapply prepare_without_stage.
    + intros Ts Tr Tpp. exists (set_state w (w_state w)). split; [|done].
      apply getPopulated_throws. by eapply prepare_without_root.
    + intros Ts Tr Tpp.
      destruct (prepare_ok (w_state w) tl k ps options stage region pp
        To Hs Ts Hr Tr Hpp Tpp HT) as (st' & clone & S & E).
      destruct (getPopulated_proceeds populate_turns _ _ _ _ _ _ _ _ E)
        as (w' & p & E' & C).
      by exists w', p, clone, S.
  - split; [|split]; [|done..]. intros _.
    destruct (prepare_without_options (w_state w) (VRef tl) options To) as [st' E].
    exists (set_state w st'). split; [|done]. by apply getPopulated_throws.
Qed.
End populate_checks.

Lemma getPopulated_requires_stage_region_and_root_witness :
  (truthy (VStr "dev") = false ∨ truthy (VStr "us-east-1") = false →
   ∃ w', getPopulated 1 (VRef 3) (VRef SamplePopulate.options_loc)
           SamplePopulate.start
         = (w', Throw (SError msg_stage_region))
         ∧ w_calls w' = w_calls SamplePopulate.start)
  ∧ (truthy (VStr "dev") = true → truthy (VStr "us-east-1") = true →
     truthy (VStr "/proj") = false →
     ∃ w', getPopulated 1 (VRef 3) (VRef SamplePopulate.options_loc)
             SamplePopulate.start
           = (w', Throw (SError msg_populate_no_project))
           ∧ w_calls w' = w_calls SamplePopulate.start)
  ∧ (truthy (VStr "dev") = true → truthy (VStr "us-east-1") = true →
     truthy (VStr "/proj") = true →
     ∃ w' p clone S,
       getPopulated 1 (VRef 3) (VRef SamplePopulate.options_loc)
         SamplePopulate.start = (w', Ok p)
       ∧ w_calls w'
         = w_calls SamplePopulate.start
           ++ [Populate S clone (VStr "dev") (VStr "us-east-1")]).
Proof.
  apply (getPopulated_requires_stage_region_and_root 1 SamplePopulate.start 3
    KModule SampleSaves.entity_fields
    (VRef SamplePopulate.options_loc) (VStr "/proj")).
  - reflexivity.
  - by vm_compute.
Defined.
Example getPopulated_without_options :
  (getPopulated 1 (VRef 3) VUndef SamplePopulate.start).2
  = Throw (SError msg_stage_region).
Proof. by vm_compute. Qed.

Example getPopulated_without_region :
  (getPopulated 1 (VRef 3) (VRef SamplePopulate.options_loc)
     SamplePopulate.start_without_region).2
  = Throw (SError msg_stage_region).
Proof. by vm_compute. Qed.

Example getPopulated_without_root :
  (getPopulated 1 (VRef 3) (VRef SamplePopulate.options_loc_rootless)
     SamplePopulate.start_rootless).2
  = Throw (SError msg_populate_no_project).
Proof. by vm_compute. Qed.

(** ** [getPopulated]: the children are not waited for *)

(** C1 does not hold of the code: the second callback returns the copy
    as soon as the first one has asked the children for their populated
    form, and nothing waits for their answers. On the entity
    users/profile with the children [create] and [list], called with a
    stage and a region, under a set project root: when the promises of
    the children take a turn of the loop, the caller is given a
    document whose [functions] map is empty, and the populated children
    are put into that same document only afterwards; when their
    promises are settled as they are returned, the caller is given both
    children. Which of the two a caller gets is a matter of timing. *)
Theorem getPopulated_returns_before_children :
  for_in_keys (st_heap (w_state SamplePopulate.start))
    (VRef 11) = ["create"; "list"]
  ∧ read_prop (st_heap (w_state SamplePopulate.start)) (VRef 3) "functions"
    = Ok (VRef 11)
  ∧ (populated_for_caller 1 (λ _, 1) 100 (VRef 3)
       (VRef SamplePopulate.options_loc) SamplePopulate.start).1
    = SamplePopulate.late
  ∧ step (λ _, 1) SamplePopulate.late = None
  ∧ SamplePopulate.received_functions SamplePopulate.late
    = [Some (TObj KObject [])]
  ∧ SamplePopulate.final_functions SamplePopulate.late
    = [c ← SamplePopulate.child_populated "create";
       l ← SamplePopulate.child_populated "list";
       Some (TObj KObject [("create", c); ("list", l)])]
  ∧ (populated_for_caller 1 (λ _, 0) 100 (VRef 3)
       (VRef SamplePopulate.options_loc) SamplePopulate.start).1
    = SamplePopulate.early
  ∧ step (λ _, 0) SamplePopulate.early = None
  ∧ SamplePopulate.received_functions SamplePopulate.early
    = [c ← SamplePopulate.child_populated "create";
       l ← SamplePopulate.child_populated "list";
       Some (TObj KObject [("create", c); ("list", l)])]
  ∧ is_Some (SamplePopulate.child_populated "create")
  ∧ is_Some (SamplePopulate.child_populated "list").
Proof.
  repeat split; try (by vm_compute).
  - vm_compute. eauto.
  - vm_compute. eauto.
Qed.

(** ** [load] after [save] *)

Section load_lemmas.
Implicit Types (h : heap) (st : state).

Lemma writeFile_inv st st' p j :
  writeFile p j st = (st', Ok tt) →
  st_fs st' !! p = Some (NFile j) ∧ st_heap st' = st_heap st.
Proof.
  unfold writeFile. repeat case_match; intros [= <-]; try done;
    cbn; by rewrite lookup_insert_eq.
Qed.

Lemma keys_update_prop {A} k f (v : A) ps :
  k ∈ prop_keys (update_prop f v ps) ↔ k = f ∨ k ∈ prop_keys ps.
Proof.
  induction ps as [|[k1 v1] ps IH]; cbn.
  - rewrite list_elem_of_singleton. split; [auto|]. intros [|?%elem_of_nil]; done.
  - destruct (String.eqb f k1) eqn:E; cbn.
    + apply String.eqb_eq in E as <-. rewrite !elem_of_cons. tauto.
    + rewrite !elem_of_cons, IH. tauto.
Qed.

Lemma context_at_agree h h' S pp :
  context_at h S pp → length h ≤ length h' →
  (∀ l, l < length h → h' !! l = h !! l) →
  context_at h' S pp.
Proof.
  intros (HS & cfg & R1 & Hcfg & R2 & Hpp) Hlen Hag.
  split; [destruct S; cbn in *; try done; lia|].
  exists cfg. split; [|split; [destruct cfg; cbn in *; try done; lia|split; [|done]]].
  - rewrite <- R1. apply read_prop_agree. intros l ->. by apply Hag.
  - rewrite <- R2. apply read_prop_agree. intros l ->. by apply Hag.
Qed.

(** The parsed document: its fields are laid out before its root. *)
Lemma readAndParseJsonSync_obj st p qs :
  st_fs st !! p = Some (NFile (JObj qs)) →
  ∃ L1 vs,
    readAndParseJsonSync p st
    = (set_heap st (st_heap st ++ L1 ++ [Obj KObject vs]),
       Ok (VRef (length (st_heap st) + length L1)))
    ∧ foldr (λ p d, Nat.max (tree_depth p.2) d) 0
        (map (λ q : string * json, (q.1, of_json q.2)) qs) ≤ length L1
    ∧ laid_out (st_heap st ++ L1 ++ [Obj KObject vs]) (length (st_heap st))
        (length (st_heap st) + length L1)
        (map (λ q : string * json, (q.1, of_json q.2)) qs) vs.
Proof.
  intros Hf. unfold readAndParseJsonSync. rewrite Hf.
  cbn [of_json]. rewrite alloc_tree_obj.
  destruct (alloc_props _ (st_heap st)) as [h1 vs] eqn:E.
  destruct (alloc_props_spec _ _ _ _ E) as (L1 & -> & _ & Hd & Hl).
  exists L1, vs. rewrite length_app in *.
  split; [by rewrite <- app_assoc|]. split; [done|].
  eapply laid_out_agree; [|exact Hl]. intros l Hl'.
  rewrite app_assoc. apply lookup_app_l. rewrite length_app. lia.
Qed.

(** [_.assign(target, source)], field by field. *)
Lemma assign_loop_spec ls src l ks : ∀ st o,
  st_heap st !! ls = Some src → l ≠ ls → st_heap st !! l = Some o →
  ∃ psf,
    for_each ks (λ k, x ← get_prop (VRef ls) k; set_prop (VRef l) k x) st
    = (set_heap st (<[l := Obj (okind o) psf]> (st_heap st)), Ok tt)
    ∧ (∀ k, k ∈ ks →
            lookup_prop k psf = Some (default VUndef (lookup_prop k (oprops src))))
    ∧ (∀ k, k ∉ ks → lookup_prop k psf = lookup_prop k (oprops o)).
Proof.
  induction ks as [|k ks IH]; intros st o Hsrc Hne Ho.
  - exists (oprops o). split; [|split; [by intros k ?%elem_of_nil|done]].
    cbn. unfold mret, M_ret. f_equal. destruct st as [h fs con]. unfold set_heap.
    cbn in *. f_equal. symmetry. destruct o. by apply list_insert_id.
  - set (x := default VUndef (lookup_prop k (oprops src))).
    set (o1 := Obj (okind o) (update_prop k x (oprops o))).
    set (st1 := set_heap st (<[l := o1]> (st_heap st))).
    destruct (IH st1 o1) as (psf & E & Hin & Hout).
    { cbn. by rewrite list_lookup_insert_ne. }
    { done. }
    { cbn. apply list_lookup_insert_eq. by eapply lookup_lt_Some. }
    exists psf. split; [|split].
    + cbn [for_each]. eapply bind_ok.
      { eapply bind_ok; [by rewrite get_prop_run, (read_prop_ref _ _ _ _ Hsrc)|].
        by apply set_prop_run. }
      fold x o1 st1. rewrite E. subst st1. cbn.
      by rewrite set_heap_set_heap, list_insert_insert_eq.
    + intros k' Hk'. destruct (decide (k' ∈ ks)) as [Hks|Hks]; [by apply Hin|].
      apply elem_of_cons in Hk' as [->|]; [|done].
      rewrite Hout by done. cbn. apply lookup_update_eq.
    + intros k' Hk'. apply not_elem_of_cons in Hk' as [Hne' Hks].
      rewrite Hout by done. cbn. by apply lookup_update_ne.
Qed.

Lemma assign_props_spec st ls src l o :
  st_heap st !! ls = Some src → l ≠ ls → st_heap st !! l = Some o →
  ∃ psf,
    assign_props (VRef l) (VRef ls) st
    = (set_heap st (<[l := Obj (okind o) psf]> (st_heap st)), Ok (VRef l))
    ∧ (∀ k v, lookup_prop k (oprops src) = Some v → lookup_prop k psf = Some v)
    ∧ (∀ k, k ∉ prop_keys (oprops src) →
            lookup_prop k psf = lookup_prop k (oprops o)).
Proof.
  intros Hsrc Hne Ho.
  destruct (assign_loop_spec ls src l (prop_keys (oprops src)) st o Hsrc Hne Ho)
    as (psf & E & Hin & Hout).
  exists psf. split; [|split; [|done]].
  - unfold assign_props. eapply bind_ok; [reflexivity|]. cbn beta.
    cbn [for_in_keys]. rewrite Hsrc.
    eapply bind_ok; [exact E|]. reflexivity.
  - intros k v Hk. rewrite Hin by by eapply lookup_prop_Some_key. by rewrite Hk.
Qed.
End load_lemmas.
Section load_children.
Context `{SUtils} `{FunctionLaws} `{!FunctionStoreLaws}.
(** [hb] is the heap when [load] is called, [h0] the heap when its loop
    starts: the parsed document is at [lm], its new [functions] map at
    [le]. *)
Context (hb h0 : heap) (fs : gmap string node) (con : list string).
Context (e cl lm le : loc) (S c m : value) (root fp : string).
Context (vsm : list (string * value)).
Context (Hb : ∀ l, l < length hb → h0 !! l = hb !! l).
Context (Hlen : length hb ≤ length h0).
Context (He : e < length hb) (Hcl : cl < length hb).
Context (Hlm : length hb ≤ lm < length h0) (Hle : length hb ≤ le < length h0).
Context (Hne : lm ≠ le).
Context (HS : read_prop hb (VRef e) "_S" = Ok S).
Context (Hctx : context_at hb S (VStr root)) (Hroot : root ≠ EmptyString).
Context (Hcfg : read_prop hb (VRef e) "_config" = Ok (VRef cl)).
Context (Hc : read_prop hb (VRef cl) "component" = Ok c) (Tc : truthy c = true).
Context (Hm : read_prop hb (VRef cl) "module" = Ok m) (Tm : truthy m = true).
Context (Hfp : fp = module_path root c m).
Context (Hdoc : h0 !! lm = Some (Obj KObject vsm)).
Context (Hfns : lookup_prop "functions" vsm = Some (VRef le)).

Local Abbreviation load_inv := (load_inv h0 le fs fp).

Lemma load_inv_old done hi l :
  load_inv done hi → l < length hb → hi !! l = hb !! l.
Proof. intros (_ & Hold & _) Hl. rewrite Hold by lia. by apply Hb. Qed.

Lemma load_child_ok done hi f :
  load_inv done hi → f ≠ EmptyString →
  ∃ hi',
    load_child (VRef e) (VRef lm) (VStr fp) f (State hi fs con)
    = (State hi' fs con, Ok tt)
    ∧ load_inv (done ++ [f]) hi'.
Proof.
  intros Hinv Hf. pose proof Hinv as (Hlen' & Hold & psi & Hpsi & Hkeys).
  set (q := function_descriptor_path fp f).
  assert (∀ st, fileExistsSync q st = (st, Ok (is_file (st_fs st) q))) as Eex
    by done.
  destruct (is_file fs q) eqn:Efile.
  - assert (context_at hi S (VStr root)) as Hctx'.
    { apply (context_at_agree hb); [done|lia|].
      intros l Hl. by eapply load_inv_old. }
    destruct (F_open_spec (State hi fs con) S root c m f Hctx' Hroot Tc Tm Hf)
      as (L & l & Eopen & Hl & Hi).
    { cbn [st_fs]. by rewrite <- Hfp. }
    cbn [st_heap set_heap] in *. unfold set_heap in Eopen. cbn in Eopen.
    set (hi' := <[le := Obj KObject (update_prop f (VRef l) psi)]> (hi ++ L)).
    exists hi'. split.
    + unfold load_child.
      eapply bind_ok; [reflexivity|]. eapply bind_ok; [apply Eex|].
      cbn [st_fs]. fold q. rewrite Efile. cbn [negb].
      eapply bind_ok.
      { rewrite get_prop_run. cbn [st_heap].
        rewrite (read_prop_agree hb hi)
          by (intros ? [= <-]; by eapply load_inv_old). by rewrite HS. }
      eapply bind_ok.
      { rewrite get_path_run. cbn [st_heap read_path].
        rewrite (read_prop_agree hb hi)
          by (intros ? [= <-]; by eapply load_inv_old). rewrite Hcfg.
        rewrite (read_prop_agree hb hi)
          by (intros ? [= <-]; by eapply load_inv_old). by rewrite Hc. }
      eapply bind_ok.
      { rewrite get_path_run. cbn [st_heap read_path].
        rewrite (read_prop_agree hb hi)
          by (intros ? [= <-]; by eapply load_inv_old). rewrite Hcfg.
        rewrite (read_prop_agree hb hi)
          by (intros ? [= <-]; by eapply load_inv_old). by rewrite Hm. }
      rewrite <- bind_assoc. eapply bind_ok; [exact Eopen|].
      eapply bind_ok.
      { rewrite get_prop_run. cbn [st_heap].
        rewrite (read_prop_ref _ _ (Obj KObject vsm)).
        - cbn [oprops]. by rewrite Hfns.
        - rewrite lookup_app_l by lia. rewrite Hold by lia. done. }
      cbn [default from_option id].
      rewrite (set_prop_run _ le (Obj KObject psi)).
      2:{ cbn [st_heap]. rewrite lookup_app_l; [done|]. by eapply lookup_lt_Some. }
      reflexivity.
    + split; [|split].
      * subst hi'. rewrite length_insert, length_app. lia.
      * intros l' Hl' Hne'. subst hi'. rewrite list_lookup_insert_ne by done.
        rewrite lookup_app_l by lia. by apply Hold.
      * eexists. split.
        { subst hi'. apply list_lookup_insert_eq. rewrite length_app. lia. }
        intros k. rewrite keys_update_prop, Hkeys, elem_of_app, list_elem_of_singleton.
        split.
        { intros [-> | [? ?]]; [by split; [right|]|by split; [left|]]. }
        { intros [[? | ->] ?]; [by right|by left]. }
  - exists hi. split.
    + unfold load_child.
      eapply bind_ok; [reflexivity|]. eapply bind_ok; [apply Eex|].
      cbn [st_fs]. fold q. by rewrite Efile.
    + split; [done|]. split; [done|]. exists psi. split; [done|].
      intros k. rewrite Hkeys, elem_of_app, list_elem_of_singleton.
      split; [intros [? ?]; by split; [left|]|].
      intros [[? | ->] Hk]; [done|]. fold q in Hk. congruence.
Qed.

Lemma load_children_ok ks : ∀ done hi,
  load_inv done hi → Forall (λ f, f ≠ EmptyString) ks →
  ∃ hf,
    for_each ks (load_child (VRef e) (VRef lm) (VStr fp)) (State hi fs con)
    = (State hf fs con, Ok tt)
    ∧ load_inv (done ++ ks) hf.
Proof.
  induction ks as [|f ks IH]; intros done hi Hinv Hks.
  - exists hi. by rewrite app_nil_r.
  - apply Forall_cons in Hks as [Hf Hks].
    destruct (load_child_ok done hi f Hinv Hf) as (hi' & E1 & Hinv').
    destruct (IH (done ++ [f]) hi' Hinv' Hks) as (hf & E2 & Hinvf).
    exists hf. split.
    + cbn [for_each]. eapply bind_ok; [exact E1|]. exact E2.
    + by rewrite <- app_assoc in Hinvf.
Qed.
End load_children.
Section round_trip.
Context `{SUtils} `{FunctionLaws} `{!FunctionStoreLaws}.

(** A field that JSON can hold is found again in the parsed text. *)
Lemma json_field_lookup key x jx (ps : list (string * tree)) :
  lookup_prop key ps = Some x → to_json x = Some jx →
  lookup_prop key
    (map (λ q : string * json, (q.1, of_json q.2))
       (omap (λ p : string * tree, j ← to_json p.2; Some (p.1, j)) ps))
  = Some (of_json jx).
Proof.
  intros Hl Hj. induction ps as [|[k1 t1] ps IH]; [done|]. cbn in *.
  destruct (String.eqb key k1) eqn:E.
  - injection Hl as ->. rewrite Hj. cbn. by rewrite E.
  - destruct (to_json t1); cbn; [rewrite E|]; by apply IH.
Qed.

Lemma lookup_depth key x (ts : list (string * tree)) :
  lookup_prop key ts = Some x →
  tree_depth x ≤ foldr (λ p d, Nat.max (tree_depth p.2) d) 0 ts.
Proof.
  intros Hl%lookup_prop_elem.
  pose proof (tree_depth_elem KObject ts key x Hl) as Hd. cbn in Hd. lia.
Qed.

(** [load] of an entity whose descriptor holds the object [qs] and
    whose directory lists [es]. *)
Lemma load_run st e cl S c m root fp qs es :
  read_prop (st_heap st) (VRef e) "_S" = Ok S →
  context_at (st_heap st) S (VStr root) → root ≠ EmptyString →
  read_prop (st_heap st) (VRef e) "_config" = Ok (VRef cl) →
  read_prop (st_heap st) (VRef cl) "component" = Ok c → truthy c = true →
  read_prop (st_heap st) (VRef cl) "module" = Ok m → truthy m = true →
  read_prop (st_heap st) (VRef cl) "fullPath" = Ok (VStr fp) →
  fp = module_path root c m →
  st_fs st !! descriptor_path fp = Some (NFile (JObj qs)) →
  st_fs st !! fp = Some (NDir es) →
  Forall (λ f, f ≠ EmptyString) es →
  ∃ hf fl fobj,
    load (VRef e) st = (set_heap st hf, Ok (VRef e))
    ∧ (∀ key x,
         lookup_prop key (map (λ q : string * json, (q.1, of_json q.2)) qs)
         = Some x →
         key ≠ "functions" →
         ∃ v, read_prop hf (VRef e) key = Ok v
              ∧ snapshot (length hf) hf v = Some x)
    ∧ read_prop hf (VRef e) "functions" = Ok (VRef fl)
    ∧ hf !! fl = Some fobj
    ∧ (∀ f, f ∈ prop_keys (oprops fobj)
            ↔ f ∈ es ∧ is_file (st_fs st) (function_descriptor_path fp f) = true)
    ∧ (∀ key, key ∉ prop_keys qs → key ≠ "functions" →
              read_prop hf (VRef e) key = read_prop (st_heap st) (VRef e) key).
Proof.
  intros HS Hctx Hroot Hcfg Hc Tc Hm Tm Hfp Hmp Hdoc Hdir Hes.
  destruct st as [h fs con]. cbn [st_heap st_fs] in *.
  assert (cl < length h) as Hcl.
  { destruct (h !! cl) eqn:Ecl; [by eapply lookup_lt_Some|].
    cbn in Hfp. by rewrite Ecl in Hfp. }
  assert (e < length h) as He.
  { destruct (h !! e) eqn:Ee; [by eapply lookup_lt_Some|].
    cbn in Hcfg. by rewrite Ee in Hcfg. }
  destruct (lookup_lt_is_Some_2 h e He) as [o Ho].
  set (ts := map (λ q : string * json, (q.1, of_json q.2)) qs).
  destruct (readAndParseJsonSync_obj (State h fs con) _ qs Hdoc)
    as (L1 & vs & Eparse & Hd & Hlaid).
  cbn [st_heap set_heap] in *. unfold set_heap in Eparse.
  cbn [st_heap st_fs st_console] in Eparse.
  fold ts in Hd, Hlaid.
  set (lm := length h + length L1) in *.
  set (h1 := h ++ L1 ++ [Obj KObject vs]) in *.
  assert (length h1 = Datatypes.S lm) as Hlen1.
  { subst h1 lm. rewrite !length_app. cbn. lia. }
  set (le := length h1).
  set (vsm := update_prop "functions" (VRef le) vs).
  set (h0 := <[lm := Obj KObject vsm]> (h1 ++ [Obj KObject []])).
  assert (h1 !! lm = Some (Obj KObject vs)) as Hroot1.
  { subst h1 lm. rewrite app_assoc, lookup_app_r by (rewrite length_app; lia).
    rewrite length_app. by replace (length h + length L1 - _) with 0 by lia. }
  assert (length h0 = Datatypes.S le) as Hlen0.
  { subst h0 le. rewrite length_insert, length_app. cbn. lia. }
  assert (∀ l, l < length h → h0 !! l = h !! l) as Hb.
  { intros l Hl. subst h0. rewrite list_lookup_insert_ne by lia.
    rewrite lookup_app_l by lia. subst h1. by apply lookup_app_l. }
  assert (h0 !! lm = Some (Obj KObject vsm)) as Hdoc0.
  { subst h0. apply list_lookup_insert_eq. rewrite length_app. lia. }
  assert (lookup_prop "functions" vsm = Some (VRef le)) as Hfns
    by apply lookup_update_eq.
  assert (load_inv h0 le fs fp [] h0) as Hinv0.
  { split; [done|]. split; [done|]. exists []. split.
    - subst h0. rewrite list_lookup_insert_ne by lia.
      subst le. by rewrite lookup_app_r, Nat.sub_diag by lia.
    - intros f. split; [by intros ?%elem_of_nil|by intros [?%elem_of_nil _]]. }
  destruct (load_children_ok h h0 fs con e cl lm le S c m root fp vsm
    Hb ltac:(lia) He Hcl ltac:(lia) ltac:(lia) ltac:(lia)
    HS Hctx Hroot Hcfg Hc Tc Hm Tm Hmp Hdoc0 Hfns es [] h0 Hinv0 Hes)
    as (hf1 & Eloop & Hlen' & Hold & psi & Hpsi & Hkeys).
  cbn [app] in Hkeys.
  assert (hf1 !! lm = Some (Obj KObject vsm)) as Hdocf
    by (rewrite Hold by lia; done).
  assert (hf1 !! e = Some o) as Hof by (rewrite Hold, Hb by lia; done).
  destruct (assign_props_spec (State hf1 fs con) lm (Obj KObject vsm) e o
    Hdocf ltac:(lia) Hof) as (psf & Eas & Hpsf & Hkeep).
  cbn [st_heap set_heap oprops] in *. unfold set_heap in Eas.
  cbn [st_heap st_fs st_console] in Eas.
  set (hf := <[e := Obj (okind o) psf]> hf1) in *.
  assert (hf !! e = Some (Obj (okind o) psf)) as Hef.
  { subst hf. apply list_lookup_insert_eq. by eapply lookup_lt_Some. }
  exists hf, le, (Obj KObject psi).
  split; [|split; [|split; [|split; [|split]]]].
  - unfold load.
    eapply bind_ok.
    { rewrite get_path_run. cbn [st_heap read_path].
      destruct Hctx as (_ & cfg & R1 & _ & R2 & _). by rewrite HS, R1, R2. }
    assert (truthy (VStr root) = true) as ->
      by (cbn; by apply negb_true_iff, String.eqb_neq).
    cbn [negb].
    eapply bind_ok.
    { rewrite get_path_run. cbn [st_heap read_path]. by rewrite Hcfg, Hfp. }
    eapply bind_ok; [reflexivity|].
    eapply bind_ok; [reflexivity|].
    cbn [st_fs]. change (fs !! _) with (fs !! descriptor_path fp).
    rewrite Hdoc. cbn [negb].
    eapply bind_ok; [exact Eparse|].
    eapply bind_ok; [reflexivity|]. cbn [st_heap set_heap]. fold h1 le.
    eapply bind_ok.
    { rewrite (set_prop_run _ lm (Obj KObject vs)).
      - reflexivity.
      - cbn [st_heap set_heap]. rewrite lookup_app_l by lia. done. }
    cbn [okind oprops st_heap set_heap]. fold vsm h0.
    eapply bind_ok.
    { unfold readdirSync. cbn [st_fs set_heap]. by rewrite Hdir. }
    eapply bind_ok; [exact Eloop|]. exact Eas.
  - intros key x Hx Hkey. fold ts in Hx.
    destruct (laid_out_lookup _ _ _ _ _ _ _ Hlaid Hx)
      as (v & a' & b' & Hv & [Hw Hsnap] & Ha' & Hb').
    exists v. split.
    + rewrite (read_prop_ref _ _ _ _ Hef). cbn [oprops].
      rewrite (Hpsf key v); [done|]. subst vsm.
      rewrite lookup_update_ne by done. done.
    + apply (snapshot_mono (tree_depth x)).
      { pose proof (lookup_depth _ _ _ Hx).
        subst hf. rewrite length_insert. lia. }
      apply Hsnap. intros l Hl. subst hf.
      rewrite list_lookup_insert_ne by lia. rewrite Hold by lia.
      subst h0. rewrite list_lookup_insert_ne by lia.
      apply lookup_app_l. lia.
  - rewrite (read_prop_ref _ _ _ _ Hef). cbn [oprops].
    by rewrite (Hpsf "functions" (VRef le)).
  - subst hf. rewrite list_lookup_insert_ne by lia. done.
  - done.
  - intros key Hkey Hnf.
    rewrite (read_prop_ref _ _ _ _ Hef), (read_prop_ref _ _ _ _ Ho).
    cbn [oprops]. rewrite Hkeep; [done|].
    subst vsm. rewrite keys_update_prop. intros [?|Hin]; [done|].
    rewrite (laid_out_keys _ _ _ _ _ Hlaid) in Hin. subst ts.
    unfold prop_keys in Hin, Hkey. by rewrite map_map in Hin.
Qed.

Lemma load_ok st e cl S c m root fp qs es :
  read_prop (st_heap st) (VRef e) "_S" = Ok S →
  context_at (st_heap st) S (VStr root) → root ≠ EmptyString →
  read_prop (st_heap st) (VRef e) "_config" = Ok (VRef cl) →
  read_prop (st_heap st) (VRef cl) "component" = Ok c → truthy c = true →
  read_prop (st_heap st) (VRef cl) "module" = Ok m → truthy m = true →
  read_prop (st_heap st) (VRef cl) "fullPath" = Ok (VStr fp) →
  fp = module_path root c m →
  st_fs st !! descriptor_path fp = Some (NFile (JObj qs)) →
  st_fs st !! fp = Some (NDir es) →
  Forall (λ f, f ≠ EmptyString) es →
  ∃ hf fl fobj,
    load (VRef e) st = (set_heap st hf, Ok (VRef e))
    ∧ (∀ key x,
         lookup_prop key (map (λ q : string * json, (q.1, of_json q.2)) qs)
         = Some x →
         key ≠ "functions" →
         ∃ v, read_prop hf (VRef e) key = Ok v
              ∧ snapshot (length hf) hf v = Some x)
    ∧ read_prop hf (VRef e) "functions" = Ok (VRef fl)
    ∧ hf !! fl = Some fobj
    ∧ ∀ f, f ∈ prop_keys (oprops fobj)
           ↔ f ∈ es ∧ is_file (st_fs st) (function_descriptor_path fp f) = true.
Proof.
  intros HS Hctx Hroot Hcfg Hc Tc Hm Tm Hfp Hmp Hdoc Hdir Hes.
  destruct (load_run st e cl S c m root fp qs es
              HS Hctx Hroot Hcfg Hc Tc Hm Tm Hfp Hmp Hdoc Hdir Hes)
    as (hf & fl & fobj & E & Hfields & Hfns & Hfo & Hkeys & _).
  by exists hf, fl, fobj.
Qed.

End round_trip.
Section save_then_load.
Context `{SUtils} `{FunctionLaws} `{!FunctionStoreLaws}.

(** What a [save] that went through has written. *)
Lemma save_inv st st' r n tl fl fobj k ps cl fp options :
  module_at n (st_heap st) tl fl fobj →
  snapshot (length (st_heap st)) (st_heap st) (VRef tl) = Some (TObj k ps) →
  read_prop (st_heap st) (VRef tl) "_config" = Ok (VRef cl) →
  read_prop (st_heap st) (VRef cl) "fullPath" = Ok (VStr fp) →
  save (VRef tl) options st = (st', Ok r) →
  ∃ gps j,
    get_tree (TObj k ps) = TObj k gps
    ∧ to_json (TObj k (delete_prop "functions" gps)) = Some j
    ∧ st_fs st' !! descriptor_path fp = Some (NFile j)
    ∧ r = VRef tl.
Proof.
  intros Hm HT Hcfg Hfp E. unfold save in E.
  apply bind_inv in E as (st1 & [] & E1 & E).
  apply bind_inv in E as (st2 & [] & E2 & E).
  apply bind_inv in E as (st3 & [] & E3 & E).
  apply bind_inv in E as (st4 & [] & E4 & E).
  injection E as <- <-. injection E4 as <-.
  destruct (save_scaffold_keeps _ _ _ _ E1) as [Hh1 _].
  destruct (save_nested_extends _ _ _ _ _ E2) as [L2 Hh2].
  rewrite Hh1 in Hh2.
  pose proof Hm as (Hn & Htl & Hc & _).
  assert (cl < n) as Hcl.
  { apply read_prop_ref_inv in Hcfg as (ot & Hot & Hl).
    specialize (Hc tl ot Htl Hot). rewrite Forall_forall in Hc.
    apply lookup_prop_elem in Hl. specialize (Hc _ Hl). cbn in Hc. lia. }
  assert (∀ l, l < length (st_heap st) → st_heap st2 !! l = st_heap st !! l)
    as Hold by (intros l Hl; rewrite Hh2; by apply lookup_app_l).
  assert (module_at n (st_heap st2) tl fl fobj) as Hm2
    by (rewrite Hh2; by apply module_at_app).
  assert (snapshot (length (st_heap st2)) (st_heap st2) (VRef tl)
    = Some (TObj k ps)) as HT2.
  { rewrite Hh2. apply (snapshot_app n); [done|done|cbn; lia|done]. }
  destruct (save_write_run st2 n tl fl fobj k ps cl fp Hm2 HT2)
    as (L & d & gps & j & h' & _ & _ & Hgt & Hj & Erun & _).
  { rewrite <- Hcfg. apply read_prop_agree. intros ? [= <-]. apply Hold. lia. }
  { rewrite <- Hfp. apply read_prop_agree. intros ? [= <-]. apply Hold. lia. }
  rewrite Erun in E3. apply writeFile_inv in E3 as [Hfs _].
  by exists gps, j.
Qed.

(** C2, amended: after a [save()] that went through, [load()] on an
    entity of the same identity, in a state that has the files the save
    left, goes through and gives the entity every descriptor field (other
    than [functions]) of the document [get()] gave for the original,
    provided the value of the field is one that JSON can hold; the names
    of its children are the entries of the module directory that hold a
    function descriptor, whatever children the original had in memory. *)
Theorem load_after_save_restores_fields
    st st1 r n tl fl fobj ps cl fp options st2 e cl2 S c m root es :
  module_at n (st_heap st) tl fl fobj →
  snapshot (length (st_heap st)) (st_heap st) (VRef tl) = Some (TObj KModule ps) →
  read_prop (st_heap st) (VRef tl) "_config" = Ok (VRef cl) →
  read_prop (st_heap st) (VRef cl) "fullPath" = Ok (VStr fp) →
  save (VRef tl) options st = (st1, Ok r) →
  st_fs st2 = st_fs st1 →
  read_prop (st_heap st2) (VRef e) "_S" = Ok S →
  context_at (st_heap st2) S (VStr root) → root ≠ EmptyString →
  read_prop (st_heap st2) (VRef e) "_config" = Ok (VRef cl2) →
  read_prop (st_heap st2) (VRef cl2) "component" = Ok c → truthy c = true →
  read_prop (st_heap st2) (VRef cl2) "module" = Ok m → truthy m = true →
  read_prop (st_heap st2) (VRef cl2) "fullPath" = Ok (VStr fp) →
  fp = module_path root c m →
  st_fs st2 !! fp = Some (NDir es) →
  Forall (λ f, f ≠ EmptyString) es →
  ∃ gps hf fl' fobj',
    get_tree (TObj KModule ps) = TObj KModule gps
    ∧ load (VRef e) st2 = (set_heap st2 hf, Ok (VRef e))
    ∧ (∀ key x,
         key ≠ "functions" → lookup_prop key gps = Some x → representable x →
         ∃ v, read_prop hf (VRef e) key = Ok v
              ∧ snapshot (length hf) hf v = Some x)
    ∧ read_prop hf (VRef e) "functions" = Ok (VRef fl')
    ∧ hf !! fl' = Some fobj'
    ∧ ∀ f, f ∈ prop_keys (oprops fobj')
           ↔ f ∈ es ∧ is_file (st_fs st2) (function_descriptor_path fp f) = true.
Proof.
  intros Hm HT Hcfg Hfp Esave Hfs HS Hctx Hroot Hcfg2 Hc Tc Hmo Tm Hfp2 Hmp Hdir Hes.
  destruct (save_inv _ _ _ _ _ _ _ _ _ _ _ _ Hm HT Hcfg Hfp Esave)
    as (gps & j & Hgt & Hj & Hdoc & _).
  cbn in Hj. injection Hj as <-. rewrite <- Hfs in Hdoc.
  destruct (load_ok st2 e cl2 S c m root fp _ es
    HS Hctx Hroot Hcfg2 Hc Tc Hmo Tm Hfp2 Hmp Hdoc Hdir Hes)
    as (hf & fl' & fobj' & Eload & Hfields & Hfns & Hfo & Hkeys).
  exists gps, hf, fl', fobj'.
  split; [done|]. split; [done|]. split; [|done].
  intros key x Hkey Hx (jx & Hjx & Hof). apply Hfields; [|done].
  rewrite <- Hof. apply (json_field_lookup key x jx); [|done].
  by rewrite lookup_delete_ne.
Qed.
End save_then_load.

Lemma sample_context_fresh :
  context_at (st_heap SampleRoundTrip.fresh) (VRef 0) (VStr "/proj").
Proof.
  split; [cbn; lia|]. exists (VRef 1).
  split; [reflexivity|]. split; [cbn; lia|]. split; [reflexivity|eauto].
Qed.

Lemma load_after_save_restores_fields_witness :
  ∃ gps hf fl' fobj',
    get_tree (TObj KModule SampleSaves.entity_fields) = TObj KModule gps
    ∧ load (VRef SampleRoundTrip.fresh_loc) SampleRoundTrip.fresh
      = (set_heap SampleRoundTrip.fresh hf, Ok (VRef SampleRoundTrip.fresh_loc))
    ∧ (∀ key x,
         key ≠ "functions" → lookup_prop key gps = Some x → representable x →
         ∃ v, read_prop hf (VRef SampleRoundTrip.fresh_loc) key = Ok v
              ∧ snapshot (length hf) hf v = Some x)
    ∧ read_prop hf (VRef SampleRoundTrip.fresh_loc) "functions" = Ok (VRef fl')
    ∧ hf !! fl' = Some fobj'
    ∧ ∀ f, f ∈ prop_keys (oprops fobj')
           ↔ f ∈ ["s-templates.json"; "create"; "list"; "s-module.json"]
             ∧ is_file (st_fs SampleRoundTrip.fresh)
                 (function_descriptor_path "/proj/users/profile" f) = true.
Proof.
  apply (load_after_save_restores_fields
    SampleSaves.before_save SampleSaves.saved (VRef 3)
    (length (st_heap SampleStates.after_set)) 3 11
    SampleStates.functions_after_set SampleSaves.entity_fields
    4 "/proj/users/profile" (VRef SampleSaves.options_loc)
    SampleRoundTrip.fresh SampleRoundTrip.fresh_loc
    (S SampleRoundTrip.fresh_loc) (VRef 0)
    (VStr "users") (VStr "profile") "/proj").
  - exact sample_module_before_save.
  - by vm_compute.
  - reflexivity.
  - reflexivity.
  - by vm_compute.
  - reflexivity.
  - reflexivity.
  - exact sample_context_fresh.
  - done.
  - reflexivity.
  - reflexivity.
  - reflexivity.
  - reflexivity.
  - reflexivity.
  - reflexivity.
  - by vm_compute.
  - by vm_compute.
  - repeat constructor; done.
Defined.

(** The claim as it is worded does not hold: [save()] without
    [{deep: true}] writes the module document alone, so the children
    that exist in memory only are not there for a load to find, and
    JSON has no [undefined], so a field that holds it is not written.
    The entity users/profile has the children [create] and [list] and
    is given an author that is [undefined]; it is saved, a new entity
    is constructed with the same identity and loaded: every step goes
    through, and the loaded entity has no children and the default
    author. *)
Lemma save_then_load_loses_unsaved_children :
  set (VRef 3) (VRef (SampleRoundTrip.config_loc SampleStates.after_set))
    SampleRoundTrip.before_edit
  = (SampleRoundTrip.edited, Ok (VRef 3))
  ∧ save (VRef 3) VUndef SampleRoundTrip.edited
    = (SampleRoundTrip.saved_shallow, Ok (VRef 3))
  ∧ constructor Sample.version (VRef 0)
      (VRef (SampleRoundTrip.config_loc SampleRoundTrip.saved_shallow))
      (SampleRoundTrip.with_config SampleRoundTrip.saved_shallow)
    = (SampleRoundTrip.fresh_shallow, Ok (VRef SampleRoundTrip.fresh_shallow_loc))
  ∧ load (VRef SampleRoundTrip.fresh_shallow_loc) SampleRoundTrip.fresh_shallow
    = (SampleRoundTrip.loaded_shallow, Ok (VRef SampleRoundTrip.fresh_shallow_loc))
  ∧ SampleRoundTrip.child_names SampleRoundTrip.edited 3 = ["create"; "list"]
  ∧ SampleRoundTrip.child_names SampleRoundTrip.loaded_shallow
      SampleRoundTrip.fresh_shallow_loc = []
  ∧ read_prop (st_heap SampleRoundTrip.edited) (VRef 3) "author" = Ok VUndef
  ∧ read_prop (st_heap SampleRoundTrip.loaded_shallow)
      (VRef SampleRoundTrip.fresh_shallow_loc) "author" = Ok (VStr EmptyString).
Proof. repeat split; by vm_compute. Qed.

(** * Further properties of the class *)

(** ** [getTemplates] and [_create] *)

Section templates.
Implicit Types (st : state) (fp : string).

Lemma string_length_app (a b : string) :
  String.length (a +:+ b) = String.length a + String.length b.
Proof.
  induction a as [|ch a IH]; [done|].
  change (String ch a +:+ b) with (String ch (a +:+ b)). cbn. by rewrite IH.
Qed.

Lemma templates_path_eq fp :
  fp ≠ EmptyString → templates_path fp = fp +:+ "/" +:+ "s-templates.json".
Proof.
  intros Hne. unfold templates_path.
  rewrite filter_cons_True by done.
  rewrite (filter_cons_True _ "s-templates.json") by done.
  by rewrite filter_nil.
Qed.

Lemma templates_path_ne fp : templates_path fp ≠ fp.
Proof.
  destruct (decide (fp = EmptyString)) as [->|Hne].
  - unfold templates_path. rewrite filter_cons_False by (intros ?; done).
    by rewrite (filter_cons_True _ "s-templates.json") by done.
  - rewrite templates_path_eq by done. intros E.
    apply (f_equal String.length) in E.
    rewrite !string_length_app in E. cbn in E. lia.
Qed.

Lemma split_last_join (a b : string) :
  split_last b = None → split_last (a +:+ "/" +:+ b) = Some (a, b).
Proof.
  intros Hb. induction a as [|ch a IH].
  - change (EmptyString +:+ "/" +:+ b) with (String "/"%char b).
    cbn [split_last]. by rewrite Hb.
  - change (String ch a +:+ "/" +:+ b) with (String ch (a +:+ "/" +:+ b)).
    cbn [split_last]. by rewrite IH.
Qed.

Lemma templates_path_split fp :
  fp ≠ EmptyString → split_last (templates_path fp) = Some (fp, "s-templates.json").
Proof.
  intros Hne. rewrite templates_path_eq by done. by apply split_last_join.
Qed.

(** X1: [getTemplates()] never fails for a missing file: when there is
    no s-templates.json in the module directory it is fulfilled with a
    new empty object; when there is one, with the parsed document. The
    file system is not changed either way. *)
Theorem getTemplates_parses_or_gives_empty st this fp :
  read_path (st_heap st) this ["_config"; "fullPath"] = Ok (VStr fp) →
  (is_file (st_fs st) (templates_path fp) = false →
   getTemplates this st
   = (set_heap st (st_heap st ++ [Obj KObject []]),
      Ok (VRef (length (st_heap st)))))
  ∧ (∀ j, st_fs st !! templates_path fp = Some (NFile j) →
       ∃ L v,
         getTemplates this st = (set_heap st (st_heap st ++ L), Ok v)
         ∧ snapshot (length (st_heap st ++ L)) (st_heap st ++ L) v
           = Some (of_json j)).
Proof.
  intros Hfp.
  assert (∀ q, fileExistsSync q st = (st, Ok (is_file (st_fs st) q))) as Eex
    by done.
  split.
  - intros Hno. unfold getTemplates.
    eapply bind_ok; [by rewrite get_path_run, Hfp|].
    eapply bind_ok; [reflexivity|]. eapply bind_ok; [apply Eex|].
    fold (templates_path fp). by rewrite Hno.
  - intros j Hj.
    destruct (alloc_tree (of_json j) (st_heap st)) as [h1 v] eqn:Ea.
    destruct (alloc_tree_spec _ _ _ _ Ea) as (L & -> & _ & Hd & _ & Hs).
    exists L, v. split.
    + unfold getTemplates.
      eapply bind_ok; [by rewrite get_path_run, Hfp|].
      eapply bind_ok; [reflexivity|]. eapply bind_ok; [apply Eex|].
      fold (templates_path fp). unfold is_file. rewrite Hj. cbn [negb].
      unfold readAndParseJsonSync. by rewrite Hj, Ea.
    + apply (snapshot_mono (tree_depth (of_json j))).
      { rewrite length_app. lia. }
      by apply Hs.
Qed.

Lemma _create_eexist st this fp :
  read_path (st_heap st) this ["_config"; "fullPath"] = Ok (VStr fp) →
  is_Some (st_fs st !! fp) →
  _create this st = (st, Throw (FsError "EEXIST")).
Proof.
  intros Hfp [nd Hnd]. unfold _create.
  eapply bind_ok; [by rewrite get_path_run, Hfp|].
  unfold mbind, M_bind, mkdirSync. by rewrite Hnd.
Qed.

(** X2: [_create()] refuses a directory that is there ([EEXIST],
    nothing changed); in a parent directory that exists it makes the
    module directory, which then lists s-templates.json alone, and
    writes the empty templates document; nothing but the parent, the
    directory and the templates file is touched, and no object is. *)
Theorem _create_makes_directory_and_templates st this fp :
  read_path (st_heap st) this ["_config"; "fullPath"] = Ok (VStr fp) →
  (is_Some (st_fs st !! fp) →
   _create this st = (st, Throw (FsError "EEXIST")))
  ∧ (∀ d b es,
       st_fs st !! fp = None →
       split_last fp = Some (d, b) →
       st_fs st !! d = Some (NDir es) →
       st_fs st !! templates_path fp = None →
       ∃ fs',
         _create this st = (set_fs st fs', Ok tt)
         ∧ fs' !! fp = Some (NDir ["s-templates.json"])
         ∧ fs' !! templates_path fp = Some (NFile (JObj []))
         ∧ ∀ q, q ∉ touched fp ++ touched (templates_path fp) →
                fs' !! q = st_fs st !! q).
Proof.
  intros Hfp. split; [by apply _create_eexist|].
  intros d b es Hno Hsp Hd Htp.
    assert (fp ≠ EmptyString) as Hne by (intros ->; done).
    pose proof (templates_path_split fp Hne) as Hsplit.
    pose proof (templates_path_ne fp) as Hne'.
    set (fs1 := <[fp := NDir []]> (<[d := NDir (es ++ [b])]> (st_fs st))).
    assert (d ≠ templates_path fp) as Hdt.
    { intros ->. by rewrite Htp in Hd. }
    assert (fs1 !! templates_path fp = None) as Htp1.
    { subst fs1. rewrite lookup_insert_ne by done.
      by rewrite lookup_insert_ne. }
    set (fs' := <[templates_path fp := NFile (JObj [])]>
                  (<[fp := NDir ([] ++ ["s-templates.json"])]> fs1)).
    exists fs'. split; [|split; [|split]].
    + unfold _create.
      eapply bind_ok; [by rewrite get_path_run, Hfp|].
      eapply bind_ok.
      { unfold mkdirSync. by rewrite Hno, Hsp, Hd. }
      eapply bind_ok; [reflexivity|].
      fold fs1. unfold writeFile. fold (templates_path fp).
      cbn [st_fs set_fs]. rewrite Htp1, Hsplit.
      subst fs1. rewrite lookup_insert_eq. reflexivity.
    + subst fs'. rewrite lookup_insert_ne by done. by rewrite lookup_insert_eq.
    + subst fs'. by rewrite lookup_insert_eq.
    + intros q Hq. unfold touched in Hq. rewrite Hsp, Hsplit in Hq.
      rewrite !elem_of_app, !elem_of_cons in Hq.
      subst fs' fs1. rewrite !lookup_insert_ne; [done|..]; intros <-; tauto.
Qed.

(** X3: a module that has just been scaffolded has templates, and they
    are empty: [getTemplates()] after [_create()] is fulfilled with a
    new object that has no property. *)
Theorem getTemplates_after__create st st1 this fp :
  read_path (st_heap st) this ["_config"; "fullPath"] = Ok (VStr fp) →
  _create this st = (st1, Ok tt) →
  getTemplates this st1
  = (set_heap st1 (st_heap st1 ++ [Obj KObject []]),
     Ok (VRef (length (st_heap st1)))).
Proof.
  intros Hfp E. unfold _create in E.
  apply bind_inv in E as (s1 & v & E1 & E).
  rewrite get_path_run, Hfp in E1. injection E1 as <- <-.
  apply bind_inv in E as (s2 & [] & E2 & E).
  pose proof (keeps_mkdirSync _ _ _ _ E2) as [Hh2 _].
  apply bind_inv in E as (s3 & p & E3 & E).
  injection E3 as <- <-.
  apply writeFile_inv in E as [Hfile Hh].
  unfold getTemplates.
  eapply bind_ok; [by rewrite get_path_run, Hh, Hh2, Hfp|].
  eapply bind_ok; [reflexivity|]. eapply bind_ok; [reflexivity|].
  rewrite Hfile. cbn [negb]. unfold readAndParseJsonSync. rewrite Hfile.
  cbn [of_json map]. rewrite alloc_tree_obj. reflexivity.
Qed.
End templates.
(** ** [save]: refusals, what it touches, saving again *)

Section save_more.
Context `{SUtils} `{FunctionLaws} `{!FunctionStoreLaws}.
Implicit Types (st : state) (fp : string).

(** X4: [save()] is rejected, and nothing at all is changed, when the
    context has no project root (the ServerlessError of line 236) and
    when the module directory is there but holds no s-module.json: the
    scaffolding then runs and [mkdirSync] refuses with [EEXIST]. *)
Theorem save_refuses_without_writing st this options pp :
  read_path (st_heap st) this ["_S"; "config"; "projectPath"] = Ok pp →
  (truthy pp = false →
   save this options st = (st, Throw (SError msg_save_no_project)))
  ∧ (∀ fp,
       truthy pp = true →
       read_path (st_heap st) this ["_config"; "fullPath"] = Ok (VStr fp) →
       is_file (st_fs st) (descriptor_path fp) = false →
       is_Some (st_fs st !! fp) →
       save this options st = (st, Throw (FsError "EEXIST"))).
Proof.
  intros Hpp. split.
  - intros Tpp. unfold save. eapply bind_throw. unfold save_scaffold.
    eapply bind_ok; [by rewrite get_path_run, Hpp|]. by rewrite Tpp.
  - intros fp Tpp Hfp Hno Hdir. unfold save. eapply bind_throw.
    unfold save_scaffold.
    eapply bind_ok; [by rewrite get_path_run, Hpp|]. rewrite Tpp. cbn [negb].
    eapply bind_ok; [by rewrite get_path_run, Hfp|].
    eapply bind_ok; [reflexivity|].
    eapply bind_ok.
    { unfold fileExistsSync. fold (descriptor_path fp).
      fold (is_file (st_fs st) (descriptor_path fp)). by rewrite Hno. }
    cbn [negb].
    by apply (_create_eexist st this fp).
Qed.

Lemma read_prop_within n h v k x :
  closed_below n h → within 0 n v → read_prop h v k = Ok x → within 0 n x.
Proof.
  intros Hc Hv. destruct v as [| | | | |l]; cbn; try by intros [= <-].
  - destruct (string_index s k); [by intros [= <-]|].
    destruct (String.eqb k "length"); by intros [= <-].
  - destruct (h !! l) as [o|] eqn:Ho; [|by intros [= <-]].
    cbn in Hv. specialize (Hc l o ltac:(lia) Ho). rewrite Forall_forall in Hc.
    destruct (lookup_prop k (oprops o)) as [y|] eqn:Hy; cbn; intros [= <-]; [|done].
    apply lookup_prop_elem in Hy. exact (Hc _ Hy).
Qed.

Lemma read_path_below n h h' ks : ∀ v,
  closed_below n h → (∀ l, l < n → h' !! l = h !! l) → within 0 n v →
  read_path h' v ks = read_path h v ks.
Proof.
  induction ks as [|k ks IH]; intros v Hc Hag Hv; [done|]. cbn [read_path].
  assert (read_prop h' v k = read_prop h v k) as ->.
  { apply read_prop_agree. intros l ->. apply Hag. cbn in Hv. lia. }
  destruct (read_prop h v k) as [x|e] eqn:E; [|done].
  apply IH; [done..|]. by eapply read_prop_within.
Qed.

Lemma module_at_agree n h h' tl fl fobj :
  module_at n h tl fl fobj → n ≤ length h' →
  (∀ l, l < n → h' !! l = h !! l) →
  module_at n h' tl fl fobj.
Proof.
  intros (Hn & Htl & Hc & Hf & Hfo & Hnd & Hinst) Hn' Hag.
  assert (fl < n) as Hfl.
  { pose proof (read_prop_within n h (VRef tl) "functions" _ Hc
                  ltac:(cbn; lia) Hf) as Hw. cbn in Hw. lia. }
  split; [done|]. split; [done|]. split; [|split; [|split; [|split]]].
  - intros l o Hl Ho. rewrite Hag in Ho by done. by apply (Hc l o).
  - rewrite <- Hf. apply read_prop_agree. intros ? [= <-]. by apply Hag.
  - by rewrite Hag.
  - done.
  - specialize (Hc fl fobj Hfl Hfo).
    rewrite Forall_forall in Hc, Hinst. apply Forall_forall. intros p Hp.
    rewrite <- (Hinst p Hp). apply instanceof_agree. intros l Hl.
    specialize (Hc p Hp). rewrite Hl in Hc. cbn in Hc. apply Hag. lia.
Qed.

Lemma mkdirSync_frame v st st' r :
  mkdirSync v st = (st', r) →
  ∀ q, (∀ p, v = VStr p → q ∉ touched p) → st_fs st' !! q = st_fs st !! q.
Proof.
  unfold mkdirSync. destruct v as [| | | |p|]; try by intros [= <- _].
  destruct (st_fs st !! p) eqn:Ep; [by intros [= <- _]|].
  destruct (split_last p) as [[d b]|] eqn:Es; [|by intros [= <- _]].
  destruct (st_fs st !! d) as [[|es]|] eqn:Ed; try by intros [= <- _].
  intros [= <- _] q Hq. specialize (Hq p eq_refl). unfold touched in Hq.
  rewrite Es in Hq. rewrite !not_elem_of_cons in Hq. destruct Hq as (? & ? & _).
  cbn. by rewrite !lookup_insert_ne.
Qed.

Lemma writeFile_frame p j st st' r :
  writeFile p j st = (st', r) →
  ∀ q, q ∉ touched p → st_fs st' !! q = st_fs st !! q.
Proof.
  unfold writeFile, touched.
  destruct (st_fs st !! p) as [[|]|] eqn:Ep.
  - intros [= <- _] q [? _]%not_elem_of_cons. cbn. by rewrite lookup_insert_ne.
  - by intros [= <- _].
  - destruct (split_last p) as [[d b]|] eqn:Es; [|by intros [= <- _]].
    destruct (st_fs st !! d) as [[|es]|] eqn:Ed; try by intros [= <- _].
    intros [= <- _] q Hq. rewrite !not_elem_of_cons in Hq.
    destruct Hq as (? & ? & _). cbn. by rewrite !lookup_insert_ne.
Qed.

Lemma save_nested_skip this options st :
  not_deep (st_heap st) options → save_nested this options st = (st, Ok tt).
Proof.
  intros Hnd. unfold save_nested. destruct (truthy options) eqn:To.
  - destruct Hnd as [?|(d & Hd & Td)]; [congruence|].
    eapply bind_ok; [by rewrite get_prop_run, Hd|]. by rewrite Td.
  - rewrite ret_bind. by rewrite To.
Qed.

Lemma save_scaffold_frame st st1 this fp :
  read_path (st_heap st) this ["_config"; "fullPath"] = Ok (VStr fp) →
  save_scaffold this st = (st1, Ok tt) →
  (∃ pp, read_path (st_heap st) this ["_S"; "config"; "projectPath"] = Ok pp
         ∧ truthy pp = true)
  ∧ ∀ q, q ∉ touched fp ++ touched (templates_path fp) →
         st_fs st1 !! q = st_fs st !! q.
Proof.
  intros Hfp E. unfold save_scaffold in E.
  apply bind_inv in E as (s1 & pp & E1 & E).
  rewrite get_path_run in E1. injection E1 as <- Hpp.
  destruct (truthy pp) eqn:Tpp; [|done]. cbn [negb] in E.
  split; [by exists pp|].
  apply bind_inv in E as (s2 & v & E2 & E).
  rewrite get_path_run, Hfp in E2. injection E2 as <- <-.
  apply bind_inv in E as (s3 & p & E3 & E). injection E3 as <- <-.
  apply bind_inv in E as (s4 & ex & E4 & E). injection E4 as <- <-.
  destruct (negb _); [|by injection E as <-].
  unfold _create in E.
  apply bind_inv in E as (s5 & v & E5 & E).
  rewrite get_path_run, Hfp in E5. injection E5 as <- <-.
  apply bind_inv in E as (s6 & [] & E6 & E).
  apply bind_inv in E as (s7 & p' & E7 & E). injection E7 as <- <-.
  intros q Hq. rewrite not_elem_of_app in Hq. destruct Hq as [Hq1 Hq2].
  rewrite (writeFile_frame _ _ _ _ _ E) by exact Hq2.
  apply (mkdirSync_frame _ _ _ _ E6). by intros ? [= <-].
Qed.

(** What a [save()] without [deep] that went through has done. *)
Lemma save_shallow_inv st st1 r n tl fl fobj k ps cl fp options :
  module_at n (st_heap st) tl fl fobj →
  snapshot (length (st_heap st)) (st_heap st) (VRef tl) = Some (TObj k ps) →
  read_prop (st_heap st) (VRef tl) "_config" = Ok (VRef cl) →
  read_prop (st_heap st) (VRef cl) "fullPath" = Ok (VStr fp) →
  not_deep (st_heap st) options →
  save (VRef tl) options st = (st1, Ok r) →
  ∃ gps j pp,
    get_tree (TObj k ps) = TObj k gps
    ∧ to_json (TObj k (delete_prop "functions" gps)) = Some j
    ∧ st_fs st1 !! descriptor_path fp = Some (NFile j)
    ∧ length (st_heap st) ≤ length (st_heap st1)
    ∧ (∀ l, l < length (st_heap st) → st_heap st1 !! l = st_heap st !! l)
    ∧ (∀ q, q ∉ touched fp ++ touched (templates_path fp)
                ++ touched (descriptor_path fp) →
            st_fs st1 !! q = st_fs st !! q)
    ∧ read_path (st_heap st) (VRef tl) ["_S"; "config"; "projectPath"] = Ok pp
    ∧ truthy pp = true
    ∧ r = VRef tl.
Proof.
  intros Hm HT Hcfg Hfp Hnd E. unfold save in E.
  apply bind_inv in E as (s1 & [] & E1 & E).
  apply bind_inv in E as (s2 & [] & E2 & E).
  apply bind_inv in E as (s3 & [] & E3 & E).
  apply bind_inv in E as (s4 & [] & E4 & E).
  injection E as <- <-. injection E4 as <-.
  destruct (save_scaffold_keeps _ _ _ _ E1) as [Hh1 _].
  assert (read_path (st_heap st) (VRef tl) ["_config"; "fullPath"]
          = Ok (VStr fp)) as Hfp' by (cbn [read_path]; by rewrite Hcfg, Hfp).
  destruct (save_scaffold_frame _ _ _ _ Hfp' E1) as [(pp & Hpp & Tpp) Hfr1].
  rewrite save_nested_skip in E2 by (by rewrite Hh1). injection E2 as <-.
  destruct (save_write_run s1 n tl fl fobj k ps cl fp)
    as (L & d & gps & j & h' & _ & _ & Hgt & Hj & Erun & Hlen & Hold);
    [by rewrite Hh1..|].
  rewrite Erun in E3.
  pose proof (writeFile_frame _ _ _ _ _ E3) as Hfr3.
  apply writeFile_inv in E3 as [Hfs Hh3]. cbn [st_heap st_fs] in *.
  exists gps, j, pp. split; [done|]. split; [done|]. split; [done|].
  split; [rewrite Hh3, Hlen, length_app, Hh1; lia|].
  split; [intros l Hl; rewrite Hh3, <- Hh1; apply Hold; by rewrite Hh1|].
  split; [|done].
  intros q Hq. rewrite app_assoc, not_elem_of_app in Hq. destruct Hq as [Hq1 Hq2].
  rewrite Hfr3 by done. by apply Hfr1.
Qed.

(** X5: what [save()] without [deep] touches: on disk the module
    directory and the directory that lists it, the templates file and
    the descriptor, and no other path, so no file of a child; in
    memory no object that was there. *)
Theorem save_without_deep_touches_its_own_files
    st st1 r n tl fl fobj k ps cl fp options :
  module_at n (st_heap st) tl fl fobj →
  snapshot (length (st_heap st)) (st_heap st) (VRef tl) = Some (TObj k ps) →
  read_prop (st_heap st) (VRef tl) "_config" = Ok (VRef cl) →
  read_prop (st_heap st) (VRef cl) "fullPath" = Ok (VStr fp) →
  not_deep (st_heap st) options →
  save (VRef tl) options st = (st1, Ok r) →
  (∀ q, q ∉ touched fp ++ touched (templates_path fp)
            ++ touched (descriptor_path fp) →
        st_fs st1 !! q = st_fs st !! q)
  ∧ (∀ l, l < length (st_heap st) → st_heap st1 !! l = st_heap st !! l).
Proof.
  intros Hm HT Hcfg Hfp Hnd E.
  destruct (save_shallow_inv _ _ _ _ _ _ _ _ _ _ _ _ Hm HT Hcfg Hfp Hnd E)
    as (gps & j & pp & _ & _ & _ & _ & Hold & Hfr & _).
  by split.
Qed.

(** X6: saving again rewrites what is there: after a [save()] without
    [deep] that went through, a second one goes through as well,
    without scaffolding, and leaves the file system exactly as the
    first one left it. *)
Theorem save_again_leaves_the_files st st1 r n tl fl fobj k ps cl fp options :
  module_at n (st_heap st) tl fl fobj →
  snapshot (length (st_heap st)) (st_heap st) (VRef tl) = Some (TObj k ps) →
  read_prop (st_heap st) (VRef tl) "_config" = Ok (VRef cl) →
  read_prop (st_heap st) (VRef cl) "fullPath" = Ok (VStr fp) →
  valid (st_heap st) options →
  not_deep (st_heap st) options →
  save (VRef tl) options st = (st1, Ok r) →
  ∃ st2,
    save (VRef tl) options st1 = (st2, Ok (VRef tl))
    ∧ st_fs st2 = st_fs st1.
Proof.
  intros Hm HT Hcfg Hfp Hvo Hnd E.
  destruct (save_shallow_inv _ _ _ _ _ _ _ _ _ _ _ _ Hm HT Hcfg Hfp Hnd E)
    as (gps & j & pp & Hgt & Hj & Hfile & Hlen & Hold & _ & Hpp & Tpp & _).
  pose proof Hm as (Hn & Htl & Hc & _).
  assert (cl < n) as Hcl.
  { pose proof (read_prop_within n _ (VRef tl) "_config" _ Hc
                  ltac:(cbn; lia) Hcfg) as Hw. cbn in Hw. lia. }
  set (h1 := st_heap st1) in *.
  assert (∀ l, l < n → h1 !! l = st_heap st !! l) as Holdn
    by (intros l Hl; apply Hold; lia).
  assert (module_at n h1 tl fl fobj) as Hm1
    by (apply (module_at_agree n (st_heap st)); [done|lia|done]).
  assert (snapshot (length h1) h1 (VRef tl) = Some (TObj k ps)) as HT1.
  { apply (snapshot_below n _ (st_heap st)); [done|done|cbn; lia|].
    by apply (snapshot_mono (length (st_heap st))). }
  assert (read_prop h1 (VRef tl) "_config" = Ok (VRef cl)) as Hcfg1.
  { rewrite <- Hcfg. apply read_prop_agree. intros ? [= <-]. by apply Holdn. }
  assert (read_prop h1 (VRef cl) "fullPath" = Ok (VStr fp)) as Hfp1.
  { rewrite <- Hfp. apply read_prop_agree. intros ? [= <-]. by apply Holdn. }
  assert (not_deep h1 options) as Hnd1.
  { destruct Hnd as [?|(d & Hd & Td)]; [by left|]. right. exists d.
    split; [|done]. rewrite <- Hd. apply read_prop_agree. intros l ->.
    by apply Hold. }
  destruct (save_write_run st1 n tl fl fobj k ps cl fp Hm1 HT1 Hcfg1 Hfp1)
    as (L & d & gps' & j' & h' & _ & _ & Hgt' & Hj' & Erun & _).
  rewrite Hgt in Hgt'. injection Hgt' as <-. rewrite Hj in Hj'.
  injection Hj' as <-.
  eexists. split.
  - unfold save.
    eapply bind_ok.
    { unfold save_scaffold.
      eapply bind_ok.
      { rewrite get_path_run. fold h1.
        rewrite (read_path_below n (st_heap st)); [by rewrite Hpp|done..|cbn; lia]. }
      rewrite Tpp. cbn [negb].
      eapply bind_ok.
      { rewrite get_path_run. fold h1. cbn [read_path]. by rewrite Hcfg1, Hfp1. }
      eapply bind_ok; [reflexivity|]. eapply bind_ok; [reflexivity|].
      fold (descriptor_path fp). rewrite Hfile. reflexivity. }
    eapply bind_ok; [by apply save_nested_skip|].
    eapply bind_ok.
    { rewrite Erun. unfold writeFile. cbn [st_fs]. rewrite Hfile. reflexivity. }
    reflexivity.
  - cbn. by apply insert_id.
Qed.
End save_more.
(** *** On the sample project *)

Lemma getTemplates_parses_or_gives_empty_witness :
  (is_file (st_fs SampleStates.constructed_state)
     (templates_path "/proj/users/profile") = false →
   getTemplates (VRef 3) SampleStates.constructed_state
   = (set_heap SampleStates.constructed_state
        (st_heap SampleStates.constructed_state ++ [Obj KObject []]),
      Ok (VRef (length (st_heap SampleStates.constructed_state)))))
  ∧ (∀ j, st_fs SampleStates.constructed_state
          !! templates_path "/proj/users/profile" = Some (NFile j) →
       ∃ L v,
         getTemplates (VRef 3) SampleStates.constructed_state
         = (set_heap SampleStates.constructed_state
              (st_heap SampleStates.constructed_state ++ L), Ok v)
         ∧ snapshot (length (st_heap SampleStates.constructed_state ++ L))
             (st_heap SampleStates.constructed_state ++ L) v
           = Some (of_json j)).
Proof.
  apply (getTemplates_parses_or_gives_empty SampleStates.constructed_state
           (VRef 3) "/proj/users/profile").
  reflexivity.
Defined.

Lemma _create_makes_directory_and_templates_witness :
  (is_Some (st_fs SampleStates.constructed_state !! "/proj/users/profile") →
   _create (VRef 3) SampleStates.constructed_state
   = (SampleStates.constructed_state, Throw (FsError "EEXIST")))
  ∧ (∀ d b es,
       st_fs SampleStates.constructed_state !! "/proj/users/profile" = None →
       split_last "/proj/users/profile" = Some (d, b) →
       st_fs SampleStates.constructed_state !! d = Some (NDir es) →
       st_fs SampleStates.constructed_state
       !! templates_path "/proj/users/profile" = None →
       ∃ fs',
         _create (VRef 3) SampleStates.constructed_state
         = (set_fs SampleStates.constructed_state fs', Ok tt)
         ∧ fs' !! "/proj/users/profile" = Some (NDir ["s-templates.json"])
         ∧ fs' !! templates_path "/proj/users/profile" = Some (NFile (JObj []))
         ∧ ∀ q, q ∉ touched "/proj/users/profile"
                    ++ touched (templates_path "/proj/users/profile") →
                fs' !! q = st_fs SampleStates.constructed_state !! q).
Proof.
  apply (_create_makes_directory_and_templates SampleStates.constructed_state
           (VRef 3) "/proj/users/profile").
  reflexivity.
Defined.

Lemma getTemplates_after__create_witness :
  getTemplates (VRef 3) SampleScaffold.created
  = (set_heap SampleScaffold.created
       (st_heap SampleScaffold.created ++ [Obj KObject []]),
     Ok (VRef (length (st_heap SampleScaffold.created)))).
Proof.
  apply (getTemplates_after__create SampleStates.constructed_state
           SampleScaffold.created (VRef 3) "/proj/users/profile").
  - reflexivity.
  - by vm_compute.
Defined.

Lemma save_refuses_without_writing_witness :
  (truthy (VStr "/proj") = false →
   save (VRef 3) VUndef SampleScaffold.created
   = (SampleScaffold.created, Throw (SError msg_save_no_project)))
  ∧ (∀ fp,
       truthy (VStr "/proj") = true →
       read_path (st_heap SampleScaffold.created) (VRef 3)
         ["_config"; "fullPath"] = Ok (VStr fp) →
       is_file (st_fs SampleScaffold.created) (descriptor_path fp) = false →
       is_Some (st_fs SampleScaffold.created !! fp) →
       save (VRef 3) VUndef SampleScaffold.created
       = (SampleScaffold.created, Throw (FsError "EEXIST"))).
Proof.
  apply (save_refuses_without_writing SampleScaffold.created (VRef 3) VUndef
           (VStr "/proj")).
  reflexivity.
Defined.

Lemma save_without_deep_touches_its_own_files_witness :
  (∀ q, q ∉ touched "/proj/users/profile"
            ++ touched (templates_path "/proj/users/profile")
            ++ touched (descriptor_path "/proj/users/profile") →
        st_fs SampleScaffold.saved_once !! q = st_fs SampleStates.after_set !! q)
  ∧ (∀ l, l < length (st_heap SampleStates.after_set) →
          st_heap SampleScaffold.saved_once !! l
          = st_heap SampleStates.after_set !! l).
Proof.
  apply (save_without_deep_touches_its_own_files
           SampleStates.after_set SampleScaffold.saved_once (VRef 3)
           (length (st_heap SampleStates.after_set)) 3 11
           SampleStates.functions_after_set KModule SampleSaves.entity_fields
           4 "/proj/users/profile" VUndef).
  - exact sample_module.
  - by vm_compute.
  - reflexivity.
  - reflexivity.
  - by left.
  - by vm_compute.
Defined.

Lemma save_again_leaves_the_files_witness :
  ∃ st2,
    save (VRef 3) VUndef SampleScaffold.saved_once = (st2, Ok (VRef 3))
    ∧ st_fs st2 = st_fs SampleScaffold.saved_once.
Proof.
  apply (save_again_leaves_the_files
           SampleStates.after_set SampleScaffold.saved_once (VRef 3)
           (length (st_heap SampleStates.after_set)) 3 11
           SampleStates.functions_after_set KModule SampleSaves.entity_fields
           4 "/proj/users/profile" VUndef).
  - exact sample_module.
  - by vm_compute.
  - reflexivity.
  - reflexivity.
  - done.
  - by left.
  - by vm_compute.
Defined.

Section load_more.
Context `{SUtils} `{FunctionLaws} `{!FunctionStoreLaws}.

(** X7: [load] on an entity whose project has a root and whose
    directory holds a descriptor with the fields [qs] succeeds with the
    entity itself.  Afterwards every field of the descriptor other than
    [functions] is on the entity with the descriptor's value, a field
    the descriptor does not have keeps the value it had, and
    [functions] is a map whose keys are exactly the entries of the
    directory that hold an [s-function.json]: a [functions] field of
    the descriptor is not used. *)
Theorem load_takes_fields_and_children_from_disk
    st e cl S c m root fp qs es :
  read_prop (st_heap st) (VRef e) "_S" = Ok S →
  context_at (st_heap st) S (VStr root) → root ≠ EmptyString →
  read_prop (st_heap st) (VRef e) "_config" = Ok (VRef cl) →
  read_prop (st_heap st) (VRef cl) "component" = Ok c → truthy c = true →
  read_prop (st_heap st) (VRef cl) "module" = Ok m → truthy m = true →
  read_prop (st_heap st) (VRef cl) "fullPath" = Ok (VStr fp) →
  fp = module_path root c m →
  st_fs st !! descriptor_path fp = Some (NFile (JObj qs)) →
  st_fs st !! fp = Some (NDir es) →
  Forall (λ f, f ≠ EmptyString) es →
  ∃ hf fl fobj,
    load (VRef e) st = (set_heap st hf, Ok (VRef e))
    ∧ (∀ key j,
         lookup_prop key qs = Some j → key ≠ "functions" →
         ∃ v, read_prop hf (VRef e) key = Ok v
              ∧ snapshot (length hf) hf v = Some (of_json j))
    ∧ (∀ key, key ∉ prop_keys qs → key ≠ "functions" →
              read_prop hf (VRef e) key = read_prop (st_heap st) (VRef e) key)
    ∧ read_prop hf (VRef e) "functions" = Ok (VRef fl)
    ∧ hf !! fl = Some fobj
    ∧ (∀ f, f ∈ prop_keys (oprops fobj)
            ↔ f ∈ es ∧ is_file (st_fs st) (function_descriptor_path fp f) = true).
Proof.
  intros HS Hctx Hroot Hcfg Hc Tc Hm Tm Hfp Hmp Hdoc Hdir Hes.
  destruct (load_run st e cl S c m root fp qs es
              HS Hctx Hroot Hcfg Hc Tc Hm Tm Hfp Hmp Hdoc Hdir Hes)
    as (hf & fl & fobj & E & Hfields & Hfns & Hfo & Hkeys & Hkeep).
  exists hf, fl, fobj. split; [done|]. split; [|done].
  intros key j Hj Hnf. apply Hfields; [|done].
  clear -Hj. induction qs as [|[k x] qs' IH]; [done|].
  cbn [map lookup_prop fst snd] in *.
  destruct (String.eqb key k); [by simplify_eq|]. by apply IH.
Qed.
End load_more.

Lemma load_takes_fields_and_children_from_disk_witness :
  ∃ hf fl fobj,
    load (VRef SampleRoundTrip.fresh_loc) SampleRoundTrip.fresh
    = (set_heap SampleRoundTrip.fresh hf, Ok (VRef SampleRoundTrip.fresh_loc))
    ∧ (∀ key j,
         lookup_prop key SampleDescriptor.descriptor_fields = Some j →
         key ≠ "functions" →
         ∃ v, read_prop hf (VRef SampleRoundTrip.fresh_loc) key = Ok v
              ∧ snapshot (length hf) hf v = Some (of_json j))
    ∧ (∀ key, key ∉ prop_keys SampleDescriptor.descriptor_fields →
              key ≠ "functions" →
              read_prop hf (VRef SampleRoundTrip.fresh_loc) key
              = read_prop (st_heap SampleRoundTrip.fresh)
                  (VRef SampleRoundTrip.fresh_loc) key)
    ∧ read_prop hf (VRef SampleRoundTrip.fresh_loc) "functions" = Ok (VRef fl)
    ∧ hf !! fl = Some fobj
    ∧ (∀ f, f ∈ prop_keys (oprops fobj)
            ↔ f ∈ ["s-templates.json"; "create"; "list"; "s-module.json"]
              ∧ is_file (st_fs SampleRoundTrip.fresh)
                  (function_descriptor_path "/proj/users/profile" f) = true).
Proof.
  apply (load_takes_fields_and_children_from_disk
    SampleRoundTrip.fresh SampleRoundTrip.fresh_loc
    (S SampleRoundTrip.fresh_loc) (VRef 0)
    (VStr "users") (VStr "profile") "/proj" "/proj/users/profile"
    SampleDescriptor.descriptor_fields
    ["s-templates.json"; "create"; "list"; "s-module.json"]).
  - reflexivity.
  - exact sample_context_fresh.
  - done.
  - reflexivity.
  - reflexivity.
  - reflexivity.
  - reflexivity.
  - reflexivity.
  - reflexivity.
  - reflexivity.
  - by vm_compute.
  - by vm_compute.
  - repeat constructor; done.
Defined.

(** ** [set]: the merge *)

Section merge.
Implicit Types (h : heap) (st : state).

(** [_.extend(target, source)] on two distinct objects: the target
    takes the value of every key of the source, keeps its other
    properties, and no other object changes. *)
Lemma assign_merge st tl dl :
  tl < length (st_heap st) → dl < length (st_heap st) → dl ≠ tl →
  ∃ h',
    assign_props (VRef tl) (VRef dl) st = (set_heap st h', Ok (VRef tl))
    ∧ length h' = length (st_heap st)
    ∧ (∀ l, l ≠ tl → h' !! l = st_heap st !! l)
    ∧ (∀ k, k ∈ for_in_keys (st_heap st) (VRef dl) →
            read_prop h' (VRef tl) k = read_prop (st_heap st) (VRef dl) k)
    ∧ (∀ k, k ∉ for_in_keys (st_heap st) (VRef dl) →
            read_prop h' (VRef tl) k = read_prop (st_heap st) (VRef tl) k).
Proof.
  intros Htl Hdl Hne.
  destruct (lookup_lt_is_Some_2 _ _ Htl) as [tobj Ht].
  destruct (lookup_lt_is_Some_2 _ _ Hdl) as [dobj Hd].
  destruct (assign_props_spec st dl dobj tl tobj Hd ltac:(done) Ht)
    as (psf & E & Hin & Hout).
  exists (<[tl := Obj (okind tobj) psf]> (st_heap st)).
  split; [done|]. split; [by rewrite length_insert|]. split; [|split].
  - intros l Hl. by rewrite list_lookup_insert_ne.
  - intros k Hk. cbn [for_in_keys] in Hk. rewrite Hd in Hk.
    rewrite (read_prop_ref _ _ (Obj (okind tobj) psf))
      by by rewrite list_lookup_insert_eq.
    rewrite (read_prop_ref _ _ _ _ Hd). cbn [oprops].
    destruct (lookup_prop k (oprops dobj)) as [v|] eqn:Ev.
    + by rewrite (Hin _ _ Ev).
    + apply lookup_prop_key in Hk as [v Hv]. by rewrite Hv in Ev.
  - intros k Hk. cbn [for_in_keys] in Hk. rewrite Hd in Hk.
    rewrite (read_prop_ref _ _ (Obj (okind tobj) psf))
      by by rewrite list_lookup_insert_eq.
    rewrite (read_prop_ref _ _ _ _ Ht). cbn [oprops]. by rewrite Hout.
Qed.
End merge.

Section set_more.
Context `{FunctionLaws}.

(** X8: [set(data)] on literals merges shallowly. The entity ends up
    with, under every key of [data], the very value [data] holds there,
    and keeps its other properties; its [functions] is then not a copy
    but the map object of the caller's document. *)
Theorem set_takes_the_fields_of_its_argument
    st tl cl dl fl S c m fobj :
  identity_at (st_heap st) tl cl S c m →
  functions_at (st_heap st) tl cl dl fl fobj →
  dl ≠ tl →
  Forall (λ p, instanceof_Function (st_heap st) p.2 = false) (oprops fobj) →
  ∃ st',
    set (VRef tl) (VRef dl) st = (st', Ok (VRef tl))
    ∧ (∀ k, k ∈ for_in_keys (st_heap st) (VRef dl) →
            read_prop (st_heap st') (VRef tl) k
            = read_prop (st_heap st) (VRef dl) k)
    ∧ (∀ k, k ∉ for_in_keys (st_heap st) (VRef dl) →
            read_prop (st_heap st') (VRef tl) k
            = read_prop (st_heap st) (VRef tl) k)
    ∧ read_prop (st_heap st') (VRef tl) "functions" = Ok (VRef fl)
    ∧ read_prop (st_heap st') (VRef dl) "functions" = Ok (VRef fl).
Proof.
  intros Hid Hfn Hdt Hlit.
  pose proof Hfn as (Hf & Hfl0 & Hdl & Hft & Hfc & Hfd & Hnd & Hall).
  pose proof Hid as (_ & _ & Htl & _).
  destruct (set_children_ok st tl cl dl fl S c m fobj Hid Hfn
              (prop_keys (oprops fobj)) [] (st_heap st))
    as (h1 & E1 & Hinv1).
  { by apply (set_inv_start st tl cl dl fl S c m fobj). }
  { done. }
  { intros k _. apply not_elem_of_nil. }
  { intros k [[k' x] [-> Hin]]%list_elem_of_fmap. cbn.
    rewrite Forall_forall in Hall, Hlit.
    destruct (Hall _ Hin) as [??]. exists x.
    split; [by apply lookup_prop_NoDup|]. split; [done|]. split; [done|].
    by apply (Hlit _ Hin). }
  cbn [app] in Hinv1. rewrite set_heap_id in E1.
  pose proof Hinv1 as (Hlen1 & Hold1 & _).
  destruct (assign_merge (set_heap st h1) tl dl)
    as (h' & E2 & Hlen2 & Hfr2 & Hin2 & Hout2); [cbn; lia|cbn; lia|done|].
  cbn [st_heap set_heap] in Hlen2, Hfr2, Hin2, Hout2.
  rewrite set_heap_set_heap in E2.
  assert (∀ k, read_prop h1 (VRef dl) k = read_prop (st_heap st) (VRef dl) k)
    as Hd1.
  { intros k. apply read_prop_agree. intros ? [= <-]. by apply Hold1. }
  assert (∀ k, read_prop h1 (VRef tl) k = read_prop (st_heap st) (VRef tl) k)
    as Ht1.
  { intros k. apply read_prop_agree. intros ? [= <-]. by apply Hold1. }
  assert (for_in_keys h1 (VRef dl) = for_in_keys (st_heap st) (VRef dl)) as Hk1.
  { cbn [for_in_keys]. by rewrite Hold1. }
  rewrite Hk1 in Hin2, Hout2.
  assert ("functions" ∈ for_in_keys (st_heap st) (VRef dl)) as Hkf.
  { cbn [for_in_keys]. apply read_prop_ref_inv in Hf as (o & -> & Ho).
    by eapply lookup_prop_Some_key. }
  exists (set_heap st h'). cbn [st_heap set_heap].
  split; [|split; [|split; [|split]]].
  - unfold set.
    eapply bind_ok; [by rewrite get_prop_run, Hf|].
    eapply bind_ok; [reflexivity|]. cbn beta.
    cbn [for_in_keys]. rewrite Hfl0.
    eapply bind_ok; [exact E1|]. exact E2.
  - intros k Hk. by rewrite Hin2, Hd1.
  - intros k Hk. by rewrite Hout2, Ht1.
  - by rewrite Hin2, Hd1.
  - rewrite <- Hf, <- Hd1. apply read_prop_agree. intros ? [= <-]. by apply Hfr2.
Qed.

(** X9: when the [functions] of [data] has nothing to enumerate (it is
    absent, [null] or an empty map), [set(data)] constructs no child
    and cannot fail: it returns the entity, creates no object, changes
    no object but the entity, gives it the value of every key of
    [data] and leaves its other properties, its children among them
    when [data] has no [functions] key, as they were. *)
Theorem set_without_children_only_merges st tl dl fns :
  tl < length (st_heap st) → dl < length (st_heap st) → dl ≠ tl →
  read_prop (st_heap st) (VRef dl) "functions" = Ok fns →
  for_in_keys (st_heap st) fns = [] →
  ∃ h',
    set (VRef tl) (VRef dl) st = (set_heap st h', Ok (VRef tl))
    ∧ length h' = length (st_heap st)
    ∧ (∀ l, l ≠ tl → h' !! l = st_heap st !! l)
    ∧ (∀ k, k ∈ for_in_keys (st_heap st) (VRef dl) →
            read_prop h' (VRef tl) k = read_prop (st_heap st) (VRef dl) k)
    ∧ (∀ k, k ∉ for_in_keys (st_heap st) (VRef dl) →
            read_prop h' (VRef tl) k = read_prop (st_heap st) (VRef tl) k).
Proof.
  intros Htl Hdl Hne Hf Hks.
  destruct (assign_merge st tl dl Htl Hdl Hne) as (h' & E & Hrest).
  exists h'. split; [|done].
  unfold set.
  eapply bind_ok; [by rewrite get_prop_run, Hf|].
  eapply bind_ok; [reflexivity|]. cbn beta. rewrite Hks.
  eapply bind_ok; [reflexivity|]. exact E.
Qed.
End set_more.

Lemma set_takes_the_fields_of_its_argument_witness :
  ∃ st',
    set (VRef 3) (VRef 10) SampleStates.before_set = (st', Ok (VRef 3))
    ∧ (∀ k, k ∈ for_in_keys (st_heap SampleStates.before_set) (VRef 10) →
            read_prop (st_heap st') (VRef 3) k
            = read_prop (st_heap SampleStates.before_set) (VRef 10) k)
    ∧ (∀ k, k ∉ for_in_keys (st_heap SampleStates.before_set) (VRef 10) →
            read_prop (st_heap st') (VRef 3) k
            = read_prop (st_heap SampleStates.before_set) (VRef 3) k)
    ∧ read_prop (st_heap st') (VRef 3) "functions" = Ok (VRef 11)
    ∧ read_prop (st_heap st') (VRef 10) "functions" = Ok (VRef 11).
Proof.
  apply (set_takes_the_fields_of_its_argument
    SampleStates.before_set 3 4 10 11 (VRef 0) (VStr "users") (VStr "profile")
    SampleStates.functions_of_literal).
  - exact sample_identity.
  - exact sample_functions.
  - done.
  - repeat constructor.
Defined.

Lemma set_without_children_only_merges_witness :
  ∃ h',
    set (VRef 3) (VRef (SampleRoundTrip.config_loc SampleStates.after_set))
      SampleRoundTrip.before_edit
    = (set_heap SampleRoundTrip.before_edit h', Ok (VRef 3))
    ∧ length h' = length (st_heap SampleRoundTrip.before_edit)
    ∧ (∀ l, l ≠ 3 → h' !! l = st_heap SampleRoundTrip.before_edit !! l)
    ∧ (∀ k, k ∈ for_in_keys (st_heap SampleRoundTrip.before_edit)
                  (VRef (SampleRoundTrip.config_loc SampleStates.after_set)) →
            read_prop h' (VRef 3) k
            = read_prop (st_heap SampleRoundTrip.before_edit)
                (VRef (SampleRoundTrip.config_loc SampleStates.after_set)) k)
    ∧ (∀ k, k ∉ for_in_keys (st_heap SampleRoundTrip.before_edit)
                  (VRef (SampleRoundTrip.config_loc SampleStates.after_set)) →
            read_prop h' (VRef 3) k
            = read_prop (st_heap SampleRoundTrip.before_edit) (VRef 3) k).
Proof.
  apply (set_without_children_only_merges
    SampleRoundTrip.before_edit 3
    (SampleRoundTrip.config_loc SampleStates.after_set) VUndef).
  - vm_compute. lia.
  - vm_compute. lia.
  - by vm_compute.
  - reflexivity.
  - reflexivity.
Defined.

(** ** [updateConfig] *)

Section updateConfig.
Context `{SUtils} `{FunctionClass}.
Implicit Types (h : heap) (st : state).

Lemma set_prop_twice st l o k x :
  st_heap st !! l = Some o →
  set_prop (VRef l) k x st
  = (set_heap st (<[l := Obj (okind o) (update_prop k x (oprops o))]> (st_heap st)),
     Ok tt)
  ∧ st_heap (set_heap st (<[l := Obj (okind o) (update_prop k x (oprops o))]>
                            (st_heap st))) !! l
    = Some (Obj (okind o) (update_prop k x (oprops o))).
Proof.
  intros E. split; [by apply set_prop_run|].
  cbn. apply list_lookup_insert_eq. by eapply lookup_lt_Some.
Qed.

(** The heap [updateConfig] leaves: the [_config] object [cobj] at [cl]
    with the names and [sPath] overwritten when a name is given, and
    [fullPath] overwritten when the project has a root and [sPath] is
    set. *)
Lemma updateConfig_run st tl cl S pp config c m cobj :
  read_prop (st_heap st) (VRef tl) "_S" = Ok S →
  context_at (st_heap st) S pp →
  S ≠ VRef cl → read_prop (st_heap st) S "config" ≠ Ok (VRef cl) →
  read_prop (st_heap st) (VRef tl) "_config" = Ok (VRef cl) →
  tl ≠ cl → st_heap st !! cl = Some cobj →
  truthy config = true →
  read_prop (st_heap st) config "component" = Ok c →
  read_prop (st_heap st) config "module" = Ok m →
  ∃ ps1 ps2,
    updateConfig (VRef tl) config st
    = (set_heap st (<[cl := Obj (okind cobj) ps2]> (st_heap st)), Ok tt)
    ∧ ps1 = (if truthy c || truthy m then
               update_prop "sPath" (VStr (buildSPath c m))
                 (update_prop "module" m
                    (update_prop "component" c (oprops cobj)))
             else oprops cobj)
    ∧ ps2 = (let sp := default VUndef (lookup_prop "sPath" ps1) in
             match pp with
             | VStr root =>
                 if truthy pp && truthy sp then
                   update_prop "fullPath"
                     (VStr (join_segments
                              (filter (λ s, s ≠ EmptyString)
                                 [root; (parseSPath sp).1; (parseSPath sp).2])))
                     ps1
                 else ps1
             | _ => ps1
             end).
Proof.
  intros HS Hctx HSc Hcc Hcfg Htc Hc Tcfg Rc Rm.
  eexists _, _. split; [|split; reflexivity].
  set (ps1 := if truthy c || truthy m then _ else _).
  assert (cl < length (st_heap st)) as Hcl by by eapply lookup_lt_Some.
  assert ((if truthy c || truthy m then
             cfg ← get_prop (VRef tl) "_config";
             set_prop cfg "component" c;;
             set_prop cfg "module" m;;
             set_prop cfg "sPath" (VStr (buildSPath c m))
           else mret tt) st
          = (set_heap st (<[cl := Obj (okind cobj) ps1]> (st_heap st)), Ok tt))
    as E1.
  { subst ps1. destruct (truthy c || truthy m).
    - eapply bind_ok; [by rewrite get_prop_run, Hcfg|].
      destruct (set_prop_twice st cl cobj "component" c Hc) as [Ea Ha].
      eapply bind_ok; [exact Ea|].
      destruct (set_prop_twice _ cl _ "module" m Ha) as [Eb Hb].
      eapply bind_ok; [exact Eb|].
      rewrite (set_prop_run _ cl _ "sPath" _ Hb).
      rewrite !set_heap_set_heap. cbn [st_heap set_heap okind oprops].
      by rewrite !list_insert_insert_eq.
    - unfold mret, M_ret. f_equal. destruct st as [h fs con]. unfold set_heap.
      cbn in *. f_equal. symmetry. destruct cobj. by apply list_insert_id. }
  set (h1 := <[cl := Obj (okind cobj) ps1]> (st_heap st)) in *.
  assert (∀ l, l ≠ cl → h1 !! l = st_heap st !! l) as Hfr.
  { intros l Hl. subst h1. by rewrite list_lookup_insert_ne. }
  assert (h1 !! cl = Some (Obj (okind cobj) ps1)) as H1c.
  { subst h1. by apply list_lookup_insert_eq. }
  assert (read_path h1 (VRef tl) ["_S"; "config"; "projectPath"] = Ok pp) as Rpp.
  { destruct Hctx as (VS & cfg & E1' & Vc & E2 & _). cbn [read_path].
    rewrite (read_prop_agree (st_heap st) h1)
      by (intros ? [= <-]; by apply Hfr).
    rewrite HS.
    rewrite (read_prop_agree (st_heap st) h1)
      by (intros ? ->; apply Hfr; congruence).
    rewrite E1'.
    rewrite (read_prop_agree (st_heap st) h1)
      by (intros ? ->; apply Hfr; congruence).
    by rewrite E2. }
  assert (read_prop h1 (VRef tl) "_config" = Ok (VRef cl)) as Rcfg1.
  { rewrite <- Hcfg. apply read_prop_agree. intros ? [= <-]. by apply Hfr. }
  assert (read_path h1 (VRef tl) ["_config"; "sPath"]
          = Ok (default VUndef (lookup_prop "sPath" ps1))) as Rsp.
  { cbn [read_path]. rewrite Rcfg1. by rewrite (read_prop_ref _ _ _ _ H1c). }
  unfold updateConfig. rewrite Tcfg. cbn [negb].
  eapply bind_ok; [by rewrite get_prop_run, Rc|].
  eapply bind_ok; [by rewrite get_prop_run, Rm|].
  eapply bind_ok; [exact E1|].
  eapply bind_ok; [by rewrite get_path_run; cbn [st_heap set_heap]; rewrite Rpp|].
  eapply bind_ok; [by rewrite get_path_run; cbn [st_heap set_heap]; rewrite Rsp|].
  cbn beta zeta.
  destruct (truthy pp && truthy (default VUndef (lookup_prop "sPath" ps1))) eqn:T.
  - apply andb_prop in T as [Tpp Tsp].
    destruct Hctx as (_ & _ & _ & _ & _ & Spp). destruct (Spp Tpp) as [root ->].
    unfold path_join. cbn [string_args mbind option_bind].
    eapply bind_ok; [reflexivity|].
    eapply bind_ok; [by rewrite get_prop_run; cbn [st_heap set_heap]; rewrite Rcfg1|].
    rewrite (set_prop_run _ cl (Obj (okind cobj) ps1)) by done.
    rewrite set_heap_set_heap. cbn [st_heap set_heap okind oprops].
    subst h1. by rewrite list_insert_insert_eq.
  - destruct pp; try rewrite T; reflexivity.
Qed.
End updateConfig.

Section updateConfig_more.
Context `{SUtils} `{FunctionClass}.

(** X10: [updateConfig(config)] with a config that carries at least one
    of the two names stores both names as they are given (a name that
    is missing is stored as [undefined], whatever was there) with the
    [sPath] built from the two; with neither name it leaves every
    property of [_config] but [fullPath] alone. In both cases no object
    other than [_config] changes. *)
Theorem updateConfig_stores_the_names_as_given
    st tl cl S pp config c m :
  read_prop (st_heap st) (VRef tl) "_S" = Ok S →
  context_at (st_heap st) S pp →
  S ≠ VRef cl → read_prop (st_heap st) S "config" ≠ Ok (VRef cl) →
  read_prop (st_heap st) (VRef tl) "_config" = Ok (VRef cl) →
  tl ≠ cl → cl < length (st_heap st) →
  truthy config = true →
  read_prop (st_heap st) config "component" = Ok c →
  read_prop (st_heap st) config "module" = Ok m →
  ∃ h',
    updateConfig (VRef tl) config st = (set_heap st h', Ok tt)
    ∧ length h' = length (st_heap st)
    ∧ (∀ l, l ≠ cl → h' !! l = st_heap st !! l)
    ∧ (truthy c || truthy m = true →
       read_prop h' (VRef cl) "component" = Ok c
       ∧ read_prop h' (VRef cl) "module" = Ok m
       ∧ read_prop h' (VRef cl) "sPath" = Ok (VStr (buildSPath c m)))
    ∧ (truthy c || truthy m = false →
       ∀ k, k ≠ "fullPath" →
            read_prop h' (VRef cl) k = read_prop (st_heap st) (VRef cl) k).
Proof.
  intros HS Hctx HSc Hcc Hcfg Htc Hcl Tcfg Rc Rm.
  destruct (lookup_lt_is_Some_2 _ _ Hcl) as [cobj Hc].
  destruct (updateConfig_run st tl cl S pp config c m cobj
              HS Hctx HSc Hcc Hcfg Htc Hc Tcfg Rc Rm)
    as (ps1 & ps2 & E & E1 & E2).
  assert (∀ k, k ≠ "fullPath" → lookup_prop k ps2 = lookup_prop k ps1) as H21.
  { intros k Hk. subst ps2. cbn zeta. destruct pp; try done.
    destruct (_ && _); [|done]. by rewrite lookup_update_ne. }
  exists (<[cl := Obj (okind cobj) ps2]> (st_heap st)).
  split; [done|]. split; [by rewrite length_insert|]. split; [|split].
  - intros l Hl. by rewrite list_lookup_insert_ne.
  - intros T. rewrite T in E1.
    rewrite !(read_prop_ref _ _ (Obj (okind cobj) ps2))
      by by apply list_lookup_insert_eq.
    cbn [oprops]. rewrite !H21 by done. subst ps1.
    rewrite lookup_update_eq.
    rewrite (lookup_update_ne "sPath" "module") by done.
    rewrite lookup_update_eq.
    rewrite (lookup_update_ne "sPath" "component") by done.
    rewrite (lookup_update_ne "module" "component") by done.
    by rewrite lookup_update_eq.
  - intros T k Hk. rewrite T in E1.
    rewrite (read_prop_ref _ _ (Obj (okind cobj) ps2))
      by by apply list_lookup_insert_eq.
    rewrite (read_prop_ref _ _ _ _ Hc).
    cbn [oprops]. rewrite H21 by done. by subst ps1.
Qed.

End updateConfig_more.

Lemma sample_constructed_context :
  context_at (st_heap SampleStates.constructed_state) (VRef 0) (VStr "/proj").
Proof.
  split; [vm_compute; lia|]. exists (VRef 1).
  split; [reflexivity|]. split; [vm_compute; lia|]. split; [reflexivity|]. eauto.
Qed.

Lemma updateConfig_stores_the_names_as_given_witness :
  ∃ h',
    updateConfig (VRef 3) (VRef 2) SampleStates.constructed_state
    = (set_heap SampleStates.constructed_state h', Ok tt)
    ∧ length h' = length (st_heap SampleStates.constructed_state)
    ∧ (∀ l, l ≠ 4 → h' !! l = st_heap SampleStates.constructed_state !! l)
    ∧ (truthy (VStr "users") || truthy (VStr "profile") = true →
       read_prop h' (VRef 4) "component" = Ok (VStr "users")
       ∧ read_prop h' (VRef 4) "module" = Ok (VStr "profile")
       ∧ read_prop h' (VRef 4) "sPath"
         = Ok (VStr (buildSPath (VStr "users") (VStr "profile"))))
    ∧ (truthy (VStr "users") || truthy (VStr "profile") = false →
       ∀ k, k ≠ "fullPath" →
            read_prop h' (VRef 4) k
            = read_prop (st_heap SampleStates.constructed_state) (VRef 4) k).
Proof.
  apply (updateConfig_stores_the_names_as_given
    SampleStates.constructed_state 3 4 (VRef 0) (VStr "/proj") (VRef 2)
    (VStr "users") (VStr "profile")).
  - reflexivity.
  - exact sample_constructed_context.
  - done.
  - done.
  - reflexivity.
  - done.
  - vm_compute. lia.
  - reflexivity.
  - reflexivity.
  - reflexivity.
Defined.


Section constructor_more.
Context (package_version : string) `{SUtils} `{FunctionClass}.

End constructor_more.


(** ** [getPopulated]: the promise chain *)

Ltac wsimp :=
  unfold set_vars, set_state, set_promises, set_jobs, set_pending;
  cbn [w_state w_vars w_promises w_jobs w_pending w_calls w_received].

Section populate_loop.
Context `{SUtils} `{FunctionClass}.
Context (populate_turns : nat) (child_turns : string → nat).

Lemma run_step fuel w w' :
  step child_turns w = Some w' →
  run child_turns (S fuel) w = run child_turns fuel w'.
Proof. intros E. cbn [run]. by rewrite E. Qed.

Lemma run_done fuel w : step child_turns w = None → run child_turns fuel w = w.
Proof. intros E. destruct fuel; [done|]. cbn [run]. by rewrite E. Qed.

(** The loop turns until the one operation that is under way is due. *)
Lemma run_wait n fuel st vars ps calls rec p o :
  run child_turns (S n + fuel) (World st vars ps [] [(S n, p, o)] calls rec)
  = run child_turns fuel (settle p o (World st vars ps [] [] calls rec)).
Proof.
  induction n as [|n IH].
  - apply run_step. unfold step. cbn [w_jobs w_pending]. f_equal.
  - rewrite <- IH. apply run_step. unfold step. cbn [w_jobs w_pending]. f_equal.
Qed.

(** The promises of a call in a loop that had nothing to do, once the
    Populator has answered with [o]: its answer is queued for the first
    callback, the second waits for the first and the caller for the
    second. *)
Lemma populated_for_caller_ready fuel st st1 st2 this options o' clone S stage
    region r :
  getPopulated_prepare this options st
  = (st1, Ok (o', clone, S, stage, region)) →
  populate S clone stage region st1 = (st2, r) →
  populated_for_caller populate_turns child_turns (populate_turns + fuel)
    this options (world_of st)
  = (run child_turns fuel
       (World st2 [clone]
          [Promise (Some (outcome_of r)) [];
           Promise None [(OnDone 0, 2)];
           Promise None [(Receive, 3)];
           Promise None []]
          [(OnPopulated this o' 0, outcome_of r, 1)] []
          [Populate S clone stage region] []),
     Ok tt).
Proof.
  intros E Ep.
  unfold populated_for_caller, getPopulated.
  unfold mbind at 1. unfold W_bind, liftM. cbn [w_state world_of]. rewrite E.
  unfold mbind at 1. unfold W_bind, new_var.
  unfold mbind at 1. unfold W_bind, add_call.
  unfold mbind at 1. unfold W_bind, async. cbn [w_state set_state set_vars].
  rewrite Ep.
  destruct populate_turns as [|n]; [reflexivity|].
  cbn -[run Nat.add]. f_equal. apply (run_wait n).
Qed.

(** The first callback on an entity that has no child to enumerate. *)
Lemma on_populated_childless st2 clone ps jobs pend calls rec tl dl dobj fns o' :
  st_heap st2 !! dl = Some dobj →
  tl ≠ dl → tl < length (st_heap st2) →
  read_prop (st_heap st2) (VRef tl) "functions" = Ok fns →
  fns ≠ VRef dl →
  for_in_keys (st_heap st2) fns = [] →
  run_callback child_turns (OnPopulated (VRef tl) o' 0) (VRef dl)
    (World st2 [clone] ps jobs pend calls rec)
  = (World
       (set_heap st2
          (<[dl := Obj (okind dobj)
                     (update_prop "functions" (VRef (length (st_heap st2)))
                        (oprops dobj))]>
             (st_heap st2 ++ [Obj KObject []])))
       [VRef dl] ps jobs pend calls rec,
     Ok VUndef).
Proof.
  intros Hd Htd Htl Hf Hfd Hks.
  set (h3 := <[dl := _]> (st_heap st2 ++ [Obj KObject []])).
  assert (dl < length (st_heap st2)) as Hdl by by eapply lookup_lt_Some.
  assert (read_prop h3 (VRef tl) "functions" = Ok fns) as Hf3.
  { rewrite <- Hf. apply read_prop_agree. intros ? [= <-]. subst h3.
    rewrite list_lookup_insert_ne by done. by apply lookup_app_l. }
  assert (for_in_keys h3 fns = []) as Hks3.
  { destruct fns as [| | | | |fl]; try done. cbn [for_in_keys] in *.
    assert (fl ≠ dl) by congruence. subst h3.
    rewrite list_lookup_insert_ne by done.
    destruct (decide (fl < length (st_heap st2))) as [Hl|Hl].
    - by rewrite lookup_app_l.
    - rewrite lookup_app_r by lia.
      by destruct (fl - length (st_heap st2)) as [|[|?]]. }
  unfold run_callback.
  unfold mbind at 1. unfold W_bind, set_var. wsimp.
  unfold mbind at 1. unfold W_bind, get_var. wsimp.
  cbn [insert list_insert lookup list_lookup default].
  unfold mbind at 1. unfold W_bind, liftM, alloc. wsimp.
  unfold mbind at 1. unfold W_bind, liftM. wsimp.
  rewrite (set_prop_run _ dl dobj)
    by (cbn [st_heap set_heap]; by apply lookup_app_l_Some).
  rewrite set_heap_set_heap. cbn [st_heap set_heap]. fold h3.
  unfold mbind at 1. unfold W_bind, liftM. wsimp.
  rewrite get_prop_run. cbn [st_heap set_heap]. rewrite Hf3.
  unfold mbind at 1. unfold W_bind, liftM, get_heap. wsimp.
  cbn [st_heap set_heap]. rewrite Hks3. reflexivity.
Qed.
End populate_loop.

Section populate_more.
Context `{SUtils} `{FunctionClass}.
Context (populate_turns : nat) (child_turns : string → nat).

(** X13: on an entity that has no child to enumerate, in a loop that
    has nothing else to do, the promise of [getPopulated] is fulfilled
    with the document the Populator resolved, however many turns the
    Populator takes: the Populator is called once, the caller's handler
    runs once, on that document, whose [functions] the first callback
    has replaced by a new empty map, and the loop comes to rest. *)
Theorem getPopulated_without_children_delivers_the_populated_copy
    st st1 st2 tl dl dobj options o' clone S stage region fns fuel :
  getPopulated_prepare (VRef tl) options st
  = (st1, Ok (o', clone, S, stage, region)) →
  populate S clone stage region st1 = (st2, Ok (VRef dl)) →
  st_heap st2 !! dl = Some dobj →
  tl ≠ dl → tl < length (st_heap st2) →
  read_prop (st_heap st2) (VRef tl) "functions" = Ok fns →
  fns ≠ VRef dl →
  for_in_keys (st_heap st2) fns = [] →
  populate_turns + 3 ≤ fuel →
  ∃ w',
    populated_for_caller populate_turns child_turns fuel (VRef tl) options
      (world_of st)
    = (w', Ok tt)
    ∧ step child_turns w' = None
    ∧ w_calls w' = [Populate S clone stage region]
    ∧ w_received w'
      = [(Fulfilled (VRef dl),
          snapshot (length (st_heap (w_state w'))) (st_heap (w_state w'))
            (VRef dl))]
    ∧ read_prop (st_heap (w_state w')) (VRef dl) "functions"
      = Ok (VRef (length (st_heap st2)))
    ∧ st_heap (w_state w') !! length (st_heap st2) = Some (Obj KObject [])
    ∧ (∀ l, l < length (st_heap st2) → l ≠ dl →
            st_heap (w_state w') !! l = st_heap st2 !! l)
    ∧ (∀ k, k ≠ "functions" →
            read_prop (st_heap (w_state w')) (VRef dl) k
            = read_prop (st_heap st2) (VRef dl) k).
Proof.
  intros E Ep Hd Htd Htl Hf Hfd Hks Hfuel.
  assert (dl < length (st_heap st2)) as Hdl by by eapply lookup_lt_Some.
  replace fuel with (populate_turns + (3 + (fuel - populate_turns - 3)))
    by lia.
  rewrite (populated_for_caller_ready _ _ _ _ _ _ _ _ _ _ _ _ _ _ E Ep).
  cbn [Nat.add].
  set (h3 := <[dl := Obj (okind dobj)
                       (update_prop "functions" (VRef (length (st_heap st2)))
                          (oprops dobj))]>
               (st_heap st2 ++ [Obj KObject []])).
  set (wf := World (set_heap st2 h3) [VRef dl]
               [Promise (Some (Fulfilled (VRef dl))) [];
                Promise (Some (Fulfilled VUndef)) [];
                Promise (Some (Fulfilled (VRef dl))) [];
                Promise (Some (Fulfilled VUndef)) []]
               [] [] [Populate S clone stage region]
               [(Fulfilled (VRef dl), snapshot (length h3) h3 (VRef dl))]).
  exists wf. split; [|split; [done|split; [done|split; [done|]]]].
  - f_equal.
    erewrite run_step; cycle 1.
    { unfold step. cbn [w_jobs]. unfold run_job. wsimp. cbn [outcome_of].
      rewrite (on_populated_childless child_turns st2 clone _ _ _ _ _ tl dl
                 dobj fns o' Hd Htd Htl Hf Hfd Hks).
      reflexivity. }
    erewrite run_step; [|reflexivity].
    erewrite run_step; [|reflexivity].
    by apply run_done.
  - cbn [wf w_state st_heap set_heap].
    assert (h3 !! dl = Some (Obj (okind dobj)
              (update_prop "functions" (VRef (length (st_heap st2)))
                 (oprops dobj)))) as H3d.
    { subst h3. apply list_lookup_insert_eq. rewrite length_app. lia. }
    split; [|split; [|split]].
    + rewrite (read_prop_ref _ _ _ _ H3d). cbn [oprops].
      by rewrite lookup_update_eq.
    + subst h3. rewrite list_lookup_insert_ne by lia.
      rewrite lookup_app_r by lia. by rewrite Nat.sub_diag.
    + intros l Hl Hne. subst h3. rewrite list_lookup_insert_ne by done.
      by apply lookup_app_l.
    + intros k Hk. rewrite (read_prop_ref _ _ _ _ H3d), (read_prop_ref _ _ _ _ Hd).
      cbn [oprops]. by rewrite lookup_update_ne.
Qed.

(** X14: [getPopulated] handles no failure of the Populator: the error
    the Populator fails with reaches the caller as the rejection of the
    promise, no callback of the chain has run by then (no child is
    asked, no object created or changed), and the loop comes to rest. *)
Theorem getPopulated_passes_on_the_failure_of_the_populator
    st st1 st2 this options o' clone S stage region e fuel :
  getPopulated_prepare this options st
  = (st1, Ok (o', clone, S, stage, region)) →
  populate S clone stage region st1 = (st2, Throw e) →
  populate_turns + 3 ≤ fuel →
  ∃ w',
    populated_for_caller populate_turns child_turns fuel this options
      (world_of st)
    = (w', Ok tt)
    ∧ step child_turns w' = None
    ∧ w_calls w' = [Populate S clone stage region]
    ∧ w_received w' = [(Rejected e, None)]
    ∧ w_state w' = st2.
Proof.
  intros E Ep Hfuel.
  replace fuel with (populate_turns + (3 + (fuel - populate_turns - 3)))
    by lia.
  rewrite (populated_for_caller_ready _ _ _ _ _ _ _ _ _ _ _ _ _ _ E Ep).
  cbn [Nat.add].
  exists (World st2 [clone]
            [Promise (Some (Rejected e)) [];
             Promise (Some (Rejected e)) [];
             Promise (Some (Rejected e)) [];
             Promise (Some (Fulfilled VUndef)) []]
            [] [] [Populate S clone stage region] [(Rejected e, None)]).
  split; [|done]. f_equal.
  erewrite run_step; [|reflexivity].
  erewrite run_step; [|reflexivity].
  erewrite run_step; [|reflexivity].
  by apply run_done.
Qed.
End populate_more.

Lemma getPopulated_without_children_delivers_the_populated_copy_witness :
  ∃ w',
    populated_for_caller 2 (λ _, 1) 5 (VRef 3)
      (VRef SampleChildless.options_loc) (world_of SampleChildless.start)
    = (w', Ok tt)
    ∧ step (λ _, 1) w' = None
    ∧ w_calls w'
      = [Populate (VRef 0) (VRef SampleChildless.clone_loc)
           (VStr "dev") (VStr "us-east-1")]
    ∧ w_received w'
      = [(Fulfilled (VRef SampleChildless.data_loc),
          snapshot (length (st_heap (w_state w'))) (st_heap (w_state w'))
            (VRef SampleChildless.data_loc))]
    ∧ read_prop (st_heap (w_state w')) (VRef SampleChildless.data_loc)
        "functions"
      = Ok (VRef (length (st_heap SampleChildless.populated)))
    ∧ st_heap (w_state w') !! length (st_heap SampleChildless.populated)
      = Some (Obj KObject [])
    ∧ (∀ l, l < length (st_heap SampleChildless.populated) →
            l ≠ SampleChildless.data_loc →
            st_heap (w_state w') !! l
            = st_heap SampleChildless.populated !! l)
    ∧ (∀ k, k ≠ "functions" →
            read_prop (st_heap (w_state w')) (VRef SampleChildless.data_loc) k
            = read_prop (st_heap SampleChildless.populated)
                (VRef SampleChildless.data_loc) k).
Proof.
  apply (getPopulated_without_children_delivers_the_populated_copy
    2 (λ _, 1) SampleChildless.start SampleChildless.prepared
    SampleChildless.populated 3 SampleChildless.data_loc
    SampleChildless.data_object (VRef SampleChildless.options_loc)
    (VRef SampleChildless.options_loc) (VRef SampleChildless.clone_loc)
    (VRef 0) (VStr "dev") (VStr "us-east-1") (VRef 6) 5).
  - reflexivity.
  - reflexivity.
  - reflexivity.
  - done.
  - vm_compute. lia.
  - reflexivity.
  - done.
  - reflexivity.
  - lia.
Defined.

Lemma getPopulated_passes_on_the_failure_of_the_populator_witness :
  ∃ w',
    populated_for_caller (H := SampleChildless.failing_sutils) 2 (λ _, 1) 5
      (VRef 3) (VRef SampleChildless.options_loc)
      (world_of SampleChildless.start)
    = (w', Ok tt)
    ∧ step (λ _, 1) w' = None
    ∧ w_calls w'
      = [Populate (VRef 0) (VRef SampleChildless.clone_loc)
           (VStr "dev") (VStr "us-east-1")]
    ∧ w_received w'
      = [(Rejected (SError SampleChildless.msg_unresolved), None)]
    ∧ w_state w' = SampleChildless.prepared.
Proof.
  apply (getPopulated_passes_on_the_failure_of_the_populator
    (H := SampleChildless.failing_sutils)
    2 (λ _, 1) SampleChildless.start SampleChildless.prepared
    SampleChildless.prepared (VRef 3) (VRef SampleChildless.options_loc)
    (VRef SampleChildless.options_loc) (VRef SampleChildless.clone_loc)
    (VRef 0) (VStr "dev") (VStr "us-east-1")
    (SError SampleChildless.msg_unresolved) 5).
  - reflexivity.
  - reflexivity.
  - lia.
Defined.

(** ** [getPopulated]: the copy the Populator is given *)

Section populate_copy.
Context `{SUtils} `{FunctionClass}.
Implicit Types (h : heap) (st : state).






End populate_copy.


(** ** [set]: what a rejected document leaves behind *)

Section set_failure.
Context `{FunctionLaws}.

(** X16: when [set(data)] meets a live instance in the [functions] of
    [data], it throws before the merge: no object of the entity has
    changed, its fields are what they were. The document of the caller
    is left half-way: the literals enumerated before the instance have
    already been replaced by new instances, the instance and what comes
    after it are as they were. *)
Theorem set_failure_leaves_the_entity_but_not_its_argument
    st tl cl dl fl S c m fobj ps1 k x ps2 :
  identity_at (st_heap st) tl cl S c m →
  functions_at (st_heap st) tl cl dl fl fobj →
  oprops fobj = ps1 ++ (k, x) :: ps2 →
  Forall (λ p, instanceof_Function (st_heap st) p.2 = false) ps1 →
  instanceof_Function (st_heap st) x = true →
  ∃ h',
    set (VRef tl) (VRef dl) st
    = (set_heap st h', Throw (SError msg_set_instance))
    ∧ (∀ l, l < length (st_heap st) → l ≠ fl → h' !! l = st_heap st !! l)
    ∧ (∀ key, read_prop h' (VRef tl) key = read_prop (st_heap st) (VRef tl) key)
    ∧ (∀ k1 x1, (k1, x1) ∈ ps1 →
         ∃ v', read_prop h' (VRef fl) k1 = Ok v'
               ∧ new_instance (length (st_heap st)) h' v')
    ∧ read_prop h' (VRef fl) k = Ok x
    ∧ (∀ k2 x2, (k2, x2) ∈ ps2 → read_prop h' (VRef fl) k2 = Ok x2).
Proof.
  intros Hid Hfn Hsplit Hlit Hix.
  pose proof Hfn as (Hf & Hfl0 & Hdl & Hft & Hfc & Hfd & Hnd & Hall).
  pose proof Hid as (_ & _ & Htl & _).
  assert (prop_keys (oprops fobj) = prop_keys ps1 ++ k :: prop_keys ps2) as Hkeys.
  { rewrite Hsplit. unfold prop_keys. by rewrite fmap_app. }
  pose proof Hnd as Hnd0. rewrite Hkeys in Hnd.
  assert (∀ k' x', (k', x') ∈ oprops fobj →
            lookup_prop k' (oprops fobj) = Some x') as Hlook.
  { intros k' x' Hin. by apply lookup_prop_NoDup. }
  destruct (set_children_ok st tl cl dl fl S c m fobj Hid Hfn
              (prop_keys ps1) [] (st_heap st))
    as (h1 & E1 & Hinv1).
  { by apply (set_inv_start st tl cl dl fl S c m fobj). }
  { by apply NoDup_app in Hnd as (? & _). }
  { intros k' _. apply not_elem_of_nil. }
  { intros k1 [[k' x1] [-> Hin]]%list_elem_of_fmap. cbn.
    rewrite Forall_forall in Hall, Hlit.
    assert ((k', x1) ∈ oprops fobj) as Hin'.
    { rewrite Hsplit. apply elem_of_app. by left. }
    destruct (Hall _ Hin') as [??].
    exists x1. split; [by apply Hlook|].
    split; [done|]. split; [done|]. by apply (Hlit _ Hin). }
  cbn [app] in Hinv1. rewrite set_heap_id in E1.
  assert (k ∉ prop_keys ps1) as Hk1.
  { apply NoDup_app in Hnd as (_ & Hdis & _). intros Hin.
    apply (Hdis _ Hin), list_elem_of_here. }
  assert ((k, x) ∈ oprops fobj) as Hkx.
  { rewrite Hsplit. apply elem_of_app. right. apply list_elem_of_here. }
  pose proof Hinv1 as (Hlen1 & Hold1 & psi & Hfl1 & Hkeys1 & Hrest & Hdone).
  exists h1. split; [|split; [done|split; [|split; [|split]]]].
  - unfold set.
    eapply bind_ok; [by rewrite get_prop_run, Hf|].
    eapply bind_ok; [reflexivity|]. cbn beta.
    cbn [for_in_keys]. rewrite Hfl0, Hkeys.
    apply bind_throw. rewrite (for_each_app _ _ _ _ _ E1).
    cbn [for_each]. apply bind_throw.
    apply (set_child_throws st tl cl dl fl S c m fobj Hid Hfn)
      with (done := prop_keys ps1) (x := x); [done|done| |done].
    by apply Hlook.
  - intros key. apply read_prop_agree. intros ? [= <-]. by apply Hold1.
  - intros k1 x1 Hin.
    destruct (Hdone k1) as (x' & v' & _ & Hv' & Hnew & _).
    { apply list_elem_of_fmap. by exists (k1, x1). }
    exists v'. split; [|done].
    rewrite (read_prop_ref _ _ _ _ Hfl1). cbn [oprops]. by rewrite Hv'.
  - rewrite (read_prop_ref _ _ _ _ Hfl1). cbn [oprops].
    rewrite Hrest by done. by rewrite (Hlook _ _ Hkx).
  - intros k2 x2 Hin.
    rewrite (read_prop_ref _ _ _ _ Hfl1). cbn [oprops].
    rewrite Hrest.
    + rewrite (Hlook k2 x2); [done|].
      rewrite Hsplit. apply elem_of_app. right. by apply list_elem_of_further.
    + apply NoDup_app in Hnd as (_ & Hdis & _). intros Hin1.
      apply (Hdis _ Hin1), list_elem_of_further, list_elem_of_fmap.
      by exists (k2, x2).
Qed.
End set_failure.

Lemma sample_identity_mixed :
  identity_at (st_heap SampleMixed.before_mixed) 3 4 (VRef 0)
    (VStr "users") (VStr "profile").
Proof. repeat split; cbn; lia. Qed.

Lemma sample_functions_mixed :
  functions_at (st_heap SampleMixed.before_mixed) 3 4 SampleMixed.mixed_loc
    (SampleMixed.mixed_loc + 1) SampleMixed.mixed_functions.
Proof.
  unfold functions_at. split_and!; try reflexivity; try (vm_compute; lia).
  - apply (bool_decide_unpack _). by vm_compute.
  - repeat constructor; vm_compute; (done || lia).
Qed.

Lemma set_failure_leaves_the_entity_but_not_its_argument_witness :
  ∃ h',
    set (VRef 3) (VRef SampleMixed.mixed_loc) SampleMixed.before_mixed
    = (set_heap SampleMixed.before_mixed h', Throw (SError msg_set_instance))
    ∧ (∀ l, l < length (st_heap SampleMixed.before_mixed) →
            l ≠ SampleMixed.mixed_loc + 1 →
            h' !! l = st_heap SampleMixed.before_mixed !! l)
    ∧ (∀ key, read_prop h' (VRef 3) key
              = read_prop (st_heap SampleMixed.before_mixed) (VRef 3) key)
    ∧ (∀ k1 x1, (k1, x1) ∈ [("added", VRef (SampleMixed.mixed_loc + 2))] →
         ∃ v', read_prop h' (VRef (SampleMixed.mixed_loc + 1)) k1 = Ok v'
               ∧ new_instance (length (st_heap SampleMixed.before_mixed)) h' v')
    ∧ read_prop h' (VRef (SampleMixed.mixed_loc + 1)) "create"
      = Ok SampleMixed.instance
    ∧ (∀ k2 x2, (k2, x2) ∈ [] →
         read_prop h' (VRef (SampleMixed.mixed_loc + 1)) k2 = Ok x2).
Proof.
  apply (set_failure_leaves_the_entity_but_not_its_argument
    SampleMixed.before_mixed 3 4 SampleMixed.mixed_loc
    (SampleMixed.mixed_loc + 1) (VRef 0) (VStr "users") (VStr "profile")
    SampleMixed.mixed_functions
    [("added", VRef (SampleMixed.mixed_loc + 2))] "create"
    SampleMixed.instance []).
  - exact sample_identity_mixed.
  - exact sample_functions_mixed.
  - reflexivity.
  - repeat constructor.
  - reflexivity.
Defined.
